(** * repo-framework: the generic Repository / Service pair

    A shallow embedding of [src/repositories/base.repo.ts] and
    [src/services/base.service.ts].

    - JavaScript objects (documents, filter queries) are finite maps from
      field names to values ([gmap string _]); object spread
      [{...q, k: v}] is map insertion.
    - Asynchronous methods are computations in a state-and-exception monad
      over a [World] (the collection, the clock, the Service's cache map, a
      log of the calls made to the persistence engine, and the choice of
      which of several concurrent rejections settles first).  A rejected
      promise is the outcome [Thrown]; the unbounded [while (true)] loop of
      the slug generator is run with fuel and reports [Diverged] when the
      fuel is used up.
    - The Repository is written against an abstract [Model] (the Mongoose
      model it wraps); [MemModel] is an in-memory reference engine used to
      state what the operations do to the stored records.
    - Hooks and validators are handed mutable objects: they are functions
      that return the object as they leave it.
    - Numbers are integers ([Z]), standing for the doubles of the code where
      these hold integers that arithmetic keeps exact ([safe]: magnitude at
      most [2^52]); statements about the arithmetic of [findAll] carry that
      range as a hypothesis.  [Math.ceil (a / b)] keeps JavaScript's results
      for a zero divisor ([JsNum]). *)

From Stdlib Require Import ZArith String Ascii List Lia.
From stdpp Require Import gmap strings list fin_maps pretty.

Open Scope string_scope.
Open Scope Z_scope.

(** ** Values, documents, queries *)

Inductive Value :=
| VUndef
| VNull
| VBool (b : bool)
| VNum (n : Z)
| VStr (s : string)
| VDate (t : Z)
| VId (n : N).

#[global] Instance Value_eq_dec : EqDecision Value.
Proof. solve_decision. Defined.

Abbreviation Doc := (gmap string Value).

(** [doc[field]]: a missing property reads as [undefined]. *)
Definition getv (d : Doc) (k : string) : Value := default VUndef (d !! k).

(** [field in doc]. *)
Definition has_key (d : Doc) (k : string) : bool := bool_decide (is_Some (d !! k)).

(** JavaScript truthiness, as tested by [if (!x)]. *)
Definition truthy (v : Value) : bool :=
  match v with
  | VUndef | VNull => false
  | VBool b => b
  | VNum n => negb (n =? 0)
  | VStr s => negb (String.eqb s "")
  | VDate _ | VId _ => true
  end.

(** [a === b]: primitives by value, objects (dates, ids) by reference, and
    two separately loaded objects are never the same reference. *)
Definition strict_eq (a b : Value) : bool :=
  match a, b with
  | VDate _, _ | _, VDate _ | VId _, _ | _, VId _ => false
  | _, _ => bool_decide (a = b)
  end.

(** [String(v)] inside template literals. *)
Definition to_js_string (v : Value) : string :=
  match v with
  | VUndef => "undefined"
  | VNull => "null"
  | VBool true => "true"
  | VBool false => "false"
  | VNum n => pretty n
  | VStr s => s
  | VDate t => "Date(" +:+ pretty t +:+ ")"
  | VId n => pretty n
  end.

(** A regular expression built by [new RegExp(escapeRegex(term), flags)]:
    it matches the strings that contain [term] literally. *)
Record Regex := mkRegex { re_term : string; re_ignoreCase : bool }.

#[global] Instance Regex_eq_dec : EqDecision Regex.
Proof. solve_decision. Defined.

(** The fragment of the filter language the code itself builds:
    [{f: v}], [{f: {$ne: v}}], [{f: {$regex: r}}] and
    [{$or: [{f1: {$regex: r}}, ...]}]. *)
Inductive Cond :=
| CEq (v : Value)
| CNe (v : Value)
| CRegex (r : Regex)
| COr (alts : list (string * Regex)).

#[global] Instance Cond_eq_dec : EqDecision Cond.
Proof. solve_decision. Defined.

Abbreviation Query := (gmap string Cond).

Definition lower_ascii (c : ascii) : ascii :=
  let n := nat_of_ascii c in
  if (Nat.leb 65 n && Nat.leb n 90)%bool then ascii_of_nat (n + 32) else c.

Fixpoint lower (s : string) : string :=
  match s with
  | EmptyString => EmptyString
  | String c r => String (lower_ascii c) (lower r)
  end.

Fixpoint contains (t s : string) : bool :=
  (String.prefix t s ||
   match s with
   | EmptyString => false
   | String _ r => contains t r
   end)%bool.

Definition regex_test (r : Regex) (v : Value) : bool :=
  match v with
  | VStr s =>
      if re_ignoreCase r then contains (lower (re_term r)) (lower s)
      else contains (re_term r) s
  | _ => false
  end.

(** Equality as the engine matches it: [null] also matches a missing
    field. *)
Definition value_matches (stored wanted : Value) : bool :=
  match wanted with
  | VNull | VUndef => bool_decide (stored = VNull) || bool_decide (stored = VUndef)
  | _ => bool_decide (stored = wanted)
  end.

Definition cond_matches (d : Doc) (k : string) (c : Cond) : bool :=
  match c with
  | CEq v => value_matches (getv d k) v
  | CNe v => negb (value_matches (getv d k) v)
  | CRegex r => regex_test r (getv d k)
  | COr alts => existsb (fun a => regex_test (snd a) (getv d (fst a))) alts
  end.

Definition matches (q : Query) (d : Doc) : bool :=
  bool_decide (map_Forall (fun k c => cond_matches d k c = true) q).

(** A record is soft-deleted when its [deletedAt] marker is set. *)
Definition is_deleted (d : Doc) : bool := negb (value_matches (getv d "deletedAt") VNull).

Definition is_live (d : Doc) : bool := negb (is_deleted d).

(** Update documents: a flat object (treated as [$set]), [$set], [$unset]. *)
Inductive Update :=
| UFields (fields : Doc)
| USet (fields : Doc)
| UUnset (keys : list string).

#[global] Instance Update_eq_dec : EqDecision Update.
Proof. solve_decision. Defined.

Definition apply_update (u : Update) (d : Doc) : Doc :=
  match u with
  | UFields f | USet f => f ∪ d
  | UUnset ks => foldr delete d ks
  end.

(** [Record<string, 1 | -1>] in key order; [true] is ascending. *)
Abbreviation SortSpec := (list (string * bool)).

Record QueryOptions := mkOptions {
  opt_sort : option SortSpec;
  opt_skip : option Z;
  opt_limit : option Z
}.

#[global] Instance QueryOptions_eq_dec : EqDecision QueryOptions.
Proof. solve_decision. Defined.

Definition no_options : QueryOptions := mkOptions None None None.

(** ** Errors and the Response Envelope *)

(** Modelled from the spec: the [ErrorResponse] class lives in
    [handlers/error/response], which is not among the sources; only the
    fields the Service fills in are kept. *)
Record ErrorResponse := mkError {
  code : string;
  message : string;
  suggestions : list string
}.

#[global] Instance ErrorResponse_eq_dec : EqDecision ErrorResponse.
Proof. solve_decision. Defined.

(** What a [throw] or a rejection carries: an [ErrorResponse] (recognised
    by [instanceof]), another object with a [message] (an [Error]), or
    [undefined] / [null] ([ExnNullish true] is [null]). *)
Inductive Exn :=
| ExnResponse (e : ErrorResponse)
| ExnError (msg : string)
| ExnNullish (is_null : bool).

#[global] Instance Exn_eq_dec : EqDecision Exn.
Proof. solve_decision. Defined.

(** [Math.ceil (a / b)] on integers, with JavaScript's answers for a zero
    divisor. *)
Inductive JsNum :=
| JInt (z : Z)
| JPosInf
| JNegInf
| JNaN.

#[global] Instance JsNum_eq_dec : EqDecision JsNum.
Proof. solve_decision. Defined.

Definition ceil_div (a b : Z) : Z := - ((- a) / b).

Definition js_ceil_div (a b : Z) : JsNum :=
  if b =? 0 then
    if 0 <? a then JPosInf else if a <? 0 then JNegInf else JNaN
  else JInt (ceil_div a b).

Record Paging := mkPaging {
  page : Z;
  limit : Z;
  totalPages : JsNum;
  remainingItems : Z;
  pageItemsCount : Z
}.

Record Meta := mkMeta {
  total : Z;
  results : Z;
  paging : option Paging
}.

Inductive Payload :=
| PDoc (d : Doc)
| PDocs (ds : list Doc)
| PCount (label : string) (n : Z).

Inductive Envelope :=
| Success (meta : option Meta) (data : Payload)
| Failure (error : ErrorResponse).

#[global] Instance Paging_eq_dec : EqDecision Paging.
Proof. solve_decision. Defined.

#[global] Instance Meta_eq_dec : EqDecision Meta.
Proof. solve_decision. Defined.

#[global] Instance Payload_eq_dec : EqDecision Payload.
Proof. solve_decision. Defined.

#[global] Instance Envelope_eq_dec : EqDecision Envelope.
Proof. solve_decision. Defined.

(** ** The world and the monad of asynchronous computations *)

(** Calls that reach the persistence engine, in the order they are made. *)
Inductive Event :=
| EvSave (d : Doc)
| EvInsertMany (ds : list Doc) (ordered : bool)
| EvFind (q : Query) (o : QueryOptions)
| EvFindOne (q : Query) (o : QueryOptions)
| EvFindOneAndUpdate (q : Query) (u : Update) (o : QueryOptions)
| EvFindByIdAndUpdate (id : Value) (u : Update) (o : QueryOptions)
| EvUpdateMany (q : Query) (u : Update)
| EvFindOneAndDelete (q : Query) (o : QueryOptions)
| EvFindByIdAndDelete (id : Value)
| EvDeleteMany (q : Query)
| EvCountDocuments (q : Query) (o : QueryOptions)
| EvExists (q : Query)
| EvPopulate (fields : list string) (d : Doc).

#[global] Instance Event_eq_dec : EqDecision Event.
Proof. solve_decision. Defined.

Record CacheEntry := mkEntry { ce_data : Envelope; ce_timestamp : Z }.

(** [race]: which of the rejections of concurrently running callbacks
    settles first is decided by the timing of the runtime and of the
    engine, not by the code.  Given the rejections in the order of the
    callbacks, [race] names the position of the one that settles first
    (taken modulo their number). *)
Record World := mkWorld {
  store : list Doc;
  next_id : N;
  clock : Z;
  cache : gmap string CacheEntry;
  trace : list Event;
  race : list Exn -> nat
}.

Inductive Outcome (A : Type) :=
| Returned (a : A)
| Thrown (e : Exn)
| Diverged.

Arguments Returned {A} a.
Arguments Thrown {A} e.
Arguments Diverged {A}.

Definition M (A : Type) : Type := World -> Outcome A * World.

Definition ret {A} (a : A) : M A := fun w => (Returned a, w).

Definition bind {A B} (c : M A) (k : A -> M B) : M B :=
  fun w =>
    match c w with
    | (Returned a, w') => k a w'
    | (Thrown e, w') => (Thrown e, w')
    | (Diverged, w') => (Diverged, w')
    end.

Definition throw {A} (e : Exn) : M A := fun w => (Thrown e, w).

(** [try { body } catch (error) { handler }] with every promise in the
    body awaited. *)
Definition try_catch {A} (body : M A) (handler : Exn -> M A) : M A :=
  fun w =>
    match body w with
    | (Thrown e, w') => handler e w'
    | r => r
    end.

Declare Scope async_scope.
Delimit Scope async_scope with async.
Notation "x <- c ;; k" := (bind c (fun x => k))
  (at level 100, c at next level, right associativity) : async_scope.
Notation "c ;;; k" := (bind c (fun _ => k))
  (at level 100, right associativity) : async_scope.
Open Scope async_scope.

(** The callbacks of one [Promise.all], each taken from its start to its
    end in the order of the list, with the outcome of each. *)
Fixpoint run_all {A B} (f : A -> M B) (l : list A) (w : World) : list (Outcome B) * World :=
  match l with
  | [] => ([], w)
  | x :: r =>
      let '(o, w1) := f x w in
      let '(os, w2) := run_all f r w1 in
      (o :: os, w2)
  end.

Definition rejection {B} (o : Outcome B) : option Exn :=
  match o with
  | Thrown e => Some e
  | _ => None
  end.

Definition returned {B} (o : Outcome B) : option B :=
  match o with
  | Returned b => Some b
  | _ => None
  end.

Definition is_diverged {B} (o : Outcome B) : bool :=
  match o with
  | Diverged => true
  | _ => false
  end.

(** The rejection that settles first among those of concurrently running
    callbacks. *)
Definition first_rejection (first : list Exn -> nat) (es : list Exn) : option Exn :=
  match es with
  | [] => None
  | e :: _ => Some (nth (first es mod length es) es e)
  end.

(** How [Promise.all] settles: it rejects as soon as one promise rejects,
    with that rejection, without waiting for the others; it fulfils when
    all have fulfilled. *)
Definition settle_all {B} (first : list Exn -> nat) (os : list (Outcome B))
  : Outcome (list B) :=
  match first_rejection first (omap rejection os) with
  | Some e => Thrown e
  | None => if existsb is_diverged os then Diverged else Returned (omap returned os)
  end.

(** [await Promise.all(l.map(f))]: every callback is started whether or
    not another one rejects. *)
Definition promise_all {A B} (f : A -> M B) (l : list A) : M (list B) :=
  fun w => let '(os, w') := run_all f l w in (settle_all (race w) os, w').

Definition for_all {A} (f : A -> M unit) (l : list A) : M unit :=
  _ <- promise_all f l ;; ret tt.

(** [await Promise.all([a, b])] *)
Definition promise_both {A B} (a : M A) (b : M B) : M (A * B) :=
  fun w =>
    let '(oa, w1) := a w in
    let '(ob, w2) := b w1 in
    (match first_rejection (race w) (omap rejection [oa] ++ omap rejection [ob]), oa, ob with
     | Some e, _, _ => Thrown e
     | None, Returned x, Returned y => Returned (x, y)
     | None, _, _ => Diverged
     end, w2).

(** A loop that awaits each step before the next. *)
Fixpoint map_m {A B} (f : A -> M B) (l : list A) : M (list B) :=
  match l with
  | [] => ret []
  | x :: r => y <- f x ;; ys <- map_m f r ;; ret (y :: ys)
  end.

(** [Date.now()] and [new Date()]. *)
Definition now : M Z := fun w => (Returned (clock w), w).

Definition log (e : Event) : M unit :=
  fun w => (Returned tt,
            mkWorld (store w) (next_id w) (clock w) (cache w) (trace w ++ [e]) (race w)).

Definition get_store : M (list Doc) := fun w => (Returned (store w), w).

Definition put_store (s : list Doc) : M unit :=
  fun w => (Returned tt, mkWorld s (next_id w) (clock w) (cache w) (trace w) (race w)).

Definition fresh_id : M N :=
  fun w => (Returned (next_id w),
            mkWorld (store w) (N.succ (next_id w)) (clock w) (cache w) (trace w) (race w)).

Definition cache_get (key : string) : M (option CacheEntry) :=
  fun w => (Returned (cache w !! key), w).

Definition cache_set (key : string) (e : CacheEntry) : M unit :=
  fun w => (Returned tt,
            mkWorld (store w) (next_id w) (clock w) (<[key := e]> (cache w)) (trace w)
              (race w)).

(** The clock moving on between two calls. *)
Definition advance (dt : Z) (w : World) : World :=
  mkWorld (store w) (next_id w) (clock w + dt) (cache w) (trace w) (race w).

(** ** The persistence engine *)

(** The part of the Mongoose [Model] the Repository calls.  Ids are
    [ObjectId] values ([VId]).  Of the query options only [sort], [skip]
    and [limit] are kept ([QueryOptions]); [findOneAndUpdate] and
    [findByIdAndUpdate] are asked for the updated document ([new: true]). *)
Record Model := mkModel {
  m_save : Doc -> M Doc;
  m_insertMany : list Doc -> bool -> M (list Doc);
  m_find : Query -> QueryOptions -> M (list Doc);
  m_findOne : Query -> QueryOptions -> M (option Doc);
  m_findOneAndUpdate : Query -> Update -> QueryOptions -> M (option Doc);
  m_findByIdAndUpdate : Value -> Update -> QueryOptions -> M (option Doc);
  m_updateMany : Query -> Update -> M Z;
  m_findOneAndDelete : Query -> QueryOptions -> M (option Doc);
  m_findByIdAndDelete : Value -> M (option Doc);
  m_deleteMany : Query -> M Z;
  m_countDocuments : Query -> QueryOptions -> M Z;
  m_exists : Query -> M bool;
  m_populate : list string -> Doc -> M Doc;
  m_ObjectId : string -> M Value
}.

(** *** An in-memory reference engine

    The collection is the list of stored documents in insertion order. *)

Definition value_rank (v : Value) : Z :=
  match v with
  | VUndef | VNull => 0
  | VNum _ => 1
  | VStr _ => 2
  | VId _ => 3
  | VBool _ => 4
  | VDate _ => 5
  end.

Definition value_compare (a b : Value) : comparison :=
  match a, b with
  | VNum x, VNum y => Z.compare x y
  | VStr x, VStr y => String.compare x y
  | VId x, VId y => N.compare x y
  | VBool x, VBool y => Bool.compare x y
  | VDate x, VDate y => Z.compare x y
  | _, _ => Z.compare (value_rank a) (value_rank b)
  end.

Fixpoint doc_compare (s : SortSpec) (a b : Doc) : comparison :=
  match s with
  | [] => Eq
  | (k, asc) :: r =>
      match value_compare (getv a k) (getv b k) with
      | Eq => doc_compare r a b
      | c => if asc then c else CompOpp c
      end
  end.

Fixpoint insert_sorted (s : SortSpec) (d : Doc) (l : list Doc) : list Doc :=
  match l with
  | [] => [d]
  | x :: r =>
      match doc_compare s d x with
      | Lt => d :: x :: r
      | _ => x :: insert_sorted s d r
      end
  end.

Definition sort_docs (s : option SortSpec) (l : list Doc) : list Doc :=
  match s with
  | None => l
  | Some spec => foldr (insert_sorted spec) [] l
  end.

(** [limit(0)] means no limit; a negative limit is taken by its absolute
    value. *)
Definition apply_limit (n : option Z) (l : list Doc) : list Doc :=
  match n with
  | None => l
  | Some n => if n =? 0 then l else take (Z.to_nat (Z.abs n)) l
  end.

(** The engine refuses a negative skip. *)
Definition window (o : QueryOptions) (l : list Doc) : M (list Doc) :=
  match opt_skip o with
  | Some k =>
      if k <? 0 then throw (ExnError "Skip value must be non-negative")
      else ret (apply_limit (opt_limit o) (drop (Z.to_nat k) l))
  | None => ret (apply_limit (opt_limit o) l)
  end.

Definition select (q : Query) (o : QueryOptions) : M (list Doc) :=
  s <- get_store ;; window o (sort_docs (opt_sort o) (filter (fun d => matches q d = true) s)).

(** Replace the first document matching [q] by its image under [f]. *)
Fixpoint update_first (q : Query) (f : Doc -> Doc) (l : list Doc) : option Doc * list Doc :=
  match l with
  | [] => (None, [])
  | d :: r =>
      if matches q d then (Some (f d), f d :: r)
      else let '(res, r') := update_first q f r in (res, d :: r')
  end.

Fixpoint remove_first (q : Query) (l : list Doc) : option Doc * list Doc :=
  match l with
  | [] => (None, [])
  | d :: r =>
      if matches q d then (Some d, r)
      else let '(res, r') := remove_first q r in (res, d :: r')
  end.

Definition update_all (q : Query) (f : Doc -> Doc) (l : list Doc) : list Doc :=
  map (fun d => if matches q d then f d else d) l.

(** [modifiedCount]: matched documents that the update really changed. *)
Definition modified_count (q : Query) (f : Doc -> Doc) (l : list Doc) : Z :=
  Z.of_nat (length (filter (fun d => matches q d = true /\ f d <> d) l)).

Definition by_id (id : Value) : Query := {[ "_id" := CEq id ]}.

Definition hex_digit (a : ascii) : option N :=
  let n := N_of_ascii a in
  if ((48 <=? n)%N && (n <=? 57)%N)%bool then Some (n - 48)%N
  else if ((97 <=? n)%N && (n <=? 102)%N)%bool then Some (n - 87)%N
  else if ((65 <=? n)%N && (n <=? 70)%N)%bool then Some (n - 55)%N
  else None.

Fixpoint hex_value (s : string) (acc : N) : option N :=
  match s with
  | EmptyString => Some acc
  | String a r =>
      match hex_digit a with
      | Some d => hex_value r (16 * acc + d)%N
      | None => None
      end
  end.

(** [new Types.ObjectId(s)]: a string of 24 hexadecimal digits denotes an
    identifier; another string makes the constructor throw (the text is
    the one of the [bson] library). *)
Definition mem_ObjectId (s : string) : M Value :=
  match (if Nat.eqb (String.length s) 24 then hex_value s 0 else None) with
  | Some n => ret (VId n)
  | None =>
      throw (ExnError
               "input must be a 24 character hex string, 12 byte Uint8Array, or an integer")
  end.

Definition mem_save (d : Doc) : M Doc :=
  log (EvSave d) ;;;
  id <- fresh_id ;;
  s <- get_store ;;
  let d' := <["_id" := VId id]> d in
  put_store (s ++ [d']) ;;;
  ret d'.

Definition mem_insertMany (ds : list Doc) (ordered : bool) : M (list Doc) :=
  log (EvInsertMany ds ordered) ;;;
  map_m (fun d =>
           id <- fresh_id ;;
           s <- get_store ;;
           let d' := <["_id" := VId id]> d in
           put_store (s ++ [d']) ;;;
           ret d') ds.

(** Replace the first stored copy of [d0] by its image under [f]. *)
Fixpoint update_copy (d0 : Doc) (f : Doc -> Doc) (l : list Doc) : option Doc * list Doc :=
  match l with
  | [] => (None, [])
  | d :: r =>
      if bool_decide (d = d0) then (Some (f d), f d :: r)
      else let '(res, r') := update_copy d0 f r in (res, d :: r')
  end.

Fixpoint remove_copy (d0 : Doc) (l : list Doc) : option Doc * list Doc :=
  match l with
  | [] => (None, [])
  | d :: r =>
      if bool_decide (d = d0) then (Some d, r)
      else let '(res, r') := remove_copy d0 r in (res, d :: r')
  end.

(** A single-document write acts on the first match: the first stored
    one without a [sort], the first in the order of the [sort] with one. *)
Definition mem_findOneAndUpdate (q : Query) (u : Update) (o : QueryOptions)
  : M (option Doc) :=
  s <- get_store ;;
  let '(res, s') :=
    match opt_sort o with
    | None => update_first q (apply_update u) s
    | Some spec =>
        match head (sort_docs (Some spec) (filter (fun d => matches q d = true) s)) with
        | Some d0 => update_copy d0 (apply_update u) s
        | None => (None, s)
        end
    end in
  put_store s' ;;;
  ret res.

Definition mem_findOneAndDelete (q : Query) (o : QueryOptions) : M (option Doc) :=
  s <- get_store ;;
  let '(res, s') :=
    match opt_sort o with
    | None => remove_first q s
    | Some spec =>
        match head (sort_docs (Some spec) (filter (fun d => matches q d = true) s)) with
        | Some d0 => remove_copy d0 s
        | None => (None, s)
        end
    end in
  put_store s' ;;;
  ret res.

Definition MemModel : Model := {|
  m_save := mem_save;
  m_insertMany := mem_insertMany;
  m_find := fun q o => log (EvFind q o) ;;; select q o;
  m_findOne := fun q o => log (EvFindOne q o) ;;; l <- select q o ;; ret (head l);
  m_findOneAndUpdate := fun q u o =>
    log (EvFindOneAndUpdate q u o) ;;; mem_findOneAndUpdate q u o;
  m_findByIdAndUpdate := fun id u o =>
    log (EvFindByIdAndUpdate id u o) ;;; mem_findOneAndUpdate (by_id id) u o;
  m_updateMany := fun q u =>
    log (EvUpdateMany q u) ;;;
    s <- get_store ;;
    put_store (update_all q (apply_update u) s) ;;;
    ret (modified_count q (apply_update u) s);
  m_findOneAndDelete := fun q o =>
    log (EvFindOneAndDelete q o) ;;; mem_findOneAndDelete q o;
  m_findByIdAndDelete := fun id =>
    log (EvFindByIdAndDelete id) ;;; mem_findOneAndDelete (by_id id) no_options;
  m_deleteMany := fun q =>
    log (EvDeleteMany q) ;;;
    s <- get_store ;;
    put_store (filter (fun d => matches q d <> true) s) ;;;
    ret (Z.of_nat (length (filter (fun d => matches q d = true) s)));
  m_countDocuments := fun q o =>
    log (EvCountDocuments q o) ;;;
    l <- select q (mkOptions None (opt_skip o) (opt_limit o)) ;;
    ret (Z.of_nat (length l));
  m_exists := fun q =>
    log (EvExists q) ;;;
    s <- get_store ;;
    ret (existsb (matches q) s);
  m_populate := fun fields d => log (EvPopulate fields d) ;;; ret d;
  m_ObjectId := mem_ObjectId
|}.

(** ** BaseRepository ([src/repositories/base.repo.ts]) *)

(** [{ ...query, deletedAt: null }] *)
Definition not_deleted (q : Query) : Query := <["deletedAt" := CEq VNull]> q.

(** [{ ...query, deletedAt: { $ne: null } }] *)
Definition only_deleted (q : Query) : Query := <["deletedAt" := CNe VNull]> q.

Definition effectiveQuery (includeDeleted : bool) (q : Query) : Query :=
  if includeDeleted then q else not_deleted q.

(** [{ $set: { deletedAt: new Date() } }] *)
Definition set_deletedAt (t : Z) : Update := USet {[ "deletedAt" := VDate t ]}.

Section Repository.

Variable model : Model.

Definition repo_create (input : Doc) : M Doc := m_save model input.

Definition repo_createMany (items : list Doc) (ordered : bool) : M (list Doc) :=
  m_insertMany model items ordered.

Definition repo_findAll (query : Query) (options : QueryOptions) (includeDeleted : bool)
  : M (list Doc) :=
  m_find model (effectiveQuery includeDeleted query) options.

(** [typeof id === 'string' ? new Types.ObjectId(id) : id] *)
Definition to_ObjectId (id : Value) : M Value :=
  match id with
  | VStr s => m_ObjectId model s
  | _ => ret id
  end.

Definition repo_findById (id : Value) (includeDeleted : bool) : M (option Doc) :=
  objectId <- to_ObjectId id ;;
  let query := if includeDeleted then by_id objectId
               else <["deletedAt" := CEq VNull]> (by_id objectId) in
  m_findOne model query no_options.

Definition repo_findOne (query : Query) (options : QueryOptions) (includeDeleted : bool)
  : M (option Doc) :=
  m_findOne model (effectiveQuery includeDeleted query) options.

(** The engine gets [{ new: true, ...options }]. *)
Definition repo_update (query : Query) (update : Update) (options : QueryOptions)
  (includeDeleted : bool) : M (option Doc) :=
  m_findOneAndUpdate model (effectiveQuery includeDeleted query) update options.

Definition repo_updateById (id : Value) (update : Update) (options : QueryOptions)
  : M (option Doc) :=
  objectId <- to_ObjectId id ;;
  m_findByIdAndUpdate model objectId update options.

Definition repo_updateMany (filter : Query) (update : Update) : M Z :=
  m_updateMany model (not_deleted filter) update.

Definition repo_delete (query : Query) (options : QueryOptions) (softDelete : bool)
  : M (option Doc) :=
  if softDelete then
    t <- now ;; repo_update query (set_deletedAt t) options true
  else m_findOneAndDelete model query options.

Definition repo_deleteById (id : Value) (softDelete : bool) : M (option Doc) :=
  objectId <- to_ObjectId id ;;
  if softDelete then
    t <- now ;; repo_updateById objectId (set_deletedAt t) no_options
  else m_findByIdAndDelete model objectId.

Definition repo_deleteMany (filter : Query) (softDelete : bool) : M Z :=
  if softDelete then
    t <- now ;; m_updateMany model filter (set_deletedAt t)
  else m_deleteMany model filter.

Definition repo_restore (query : Query) : M (option Doc) :=
  deletedDoc <- repo_findOne (only_deleted query) no_options true ;;
  match deletedDoc with
  | None => ret None
  | Some d =>
      repo_update (by_id (getv d "_id")) (UUnset ["deletedAt"; "deletedBy"]) no_options true
  end.

Definition repo_restoreById (id : Value) : M (option Doc) :=
  objectId <- to_ObjectId id ;;
  deletedDoc <- repo_findById objectId true ;;
  match deletedDoc with
  | None => ret None
  | Some _ =>
      repo_update (by_id objectId) (UUnset ["deletedAt"; "deletedBy"]) no_options true
  end.

Definition repo_restoreMany (filter : Query) : M Z :=
  m_updateMany model (only_deleted filter) (UUnset ["deletedAt"]).

Definition repo_countDocuments (query : Query) (options : QueryOptions)
  (includeDeleted : bool) : M Z :=
  m_countDocuments model (effectiveQuery includeDeleted query) options.

Definition repo_exists (filter : Query) (includeDeleted : bool) : M bool :=
  m_exists model (effectiveQuery includeDeleted filter).

End Repository.

(** ** Service configuration ([src/types/service.types.ts]) *)

(** Hooks and validators are caller code: they may read and change the
    world and may throw.  They are handed the object itself and may change
    it in place: each returns the object as it leaves it (a validator its
    answer and the object; [beforeUpdate] the document and the update). *)
Record Config := mkConfig {
  defaultLimit : Z;
  maxLimit : Z;
  defaultPage : Z;
  search_enabled : bool;
  search_fields : list string;
  search_caseSensitive : bool;
  filter_allowedFields : list string;
  filter_defaultSort : SortSpec;
  slug_enabled : bool;
  slug_sourceField : string;
  slug_targetField : string;
  slug_generator : Value -> string;
  slug_uniqueResolver : string -> N -> string;
  populate_fields : list string;
  populate_defaultPopulate : bool;
  customValidators : list (string * (Value -> Doc -> M (bool * Doc)));
  preValidate : option (Doc -> M Doc);
  postValidate : option (Doc -> M Doc);
  beforeCreate : option (Doc -> M Doc);
  afterCreate : option (Doc -> M Doc);
  beforeUpdate : option (Doc -> Update -> M (Doc * Update));
  afterUpdate : option (Doc -> M Doc);
  beforeDelete : option (Doc -> M Doc);
  afterDelete : option (Doc -> M Doc);
  cache_enabled : bool;
  cache_ttl : Z;
  softDelete : bool
}.

(** [(baseSlug, count) => `${baseSlug}-${count}`] *)
Definition default_uniqueResolver (baseSlug : string) (count : N) : string :=
  baseSlug +:+ "-" +:+ pretty count.

(** [DEFAULT_CONFIG]; [slugify] comes from [utils], which is not among the
    sources, and is taken as a parameter. *)
Definition DEFAULT_CONFIG (slugify : Value -> string) : Config := {|
  defaultLimit := 10;
  maxLimit := 100;
  defaultPage := 1;
  search_enabled := false;
  search_fields := [];
  search_caseSensitive := false;
  filter_allowedFields := [];
  filter_defaultSort := [("createdAt", false)];
  slug_enabled := false;
  slug_sourceField := "name";
  slug_targetField := "slug";
  slug_generator := slugify;
  slug_uniqueResolver := default_uniqueResolver;
  populate_fields := [];
  populate_defaultPopulate := false;
  customValidators := [];
  preValidate := None;
  postValidate := None;
  beforeCreate := None;
  afterCreate := None;
  beforeUpdate := None;
  afterUpdate := None;
  beforeDelete := None;
  afterDelete := None;
  cache_enabled := false;
  cache_ttl := 300;
  softDelete := true
|}.

(** The argument object of [findAll]; a missing property is [None]. *)
Record FindAllArgs := mkArgs {
  a_query : option Query;
  a_sort : option SortSpec;
  a_page : option Z;
  a_limit : option Z;
  a_searchTerm : option string;
  a_paginate : option bool;
  a_includeDeleted : option bool;
  a_populate : option bool
}.

Definition no_args : FindAllArgs := mkArgs None None None None None None None None.

(** ** BaseService ([src/services/base.service.ts]) *)

Definition NOT_FOUND (msg : string) : Exn :=
  ExnResponse (mkError "NOT_FOUND_ERROR" msg []).

(** The [TypeError] of reading [message] off [undefined] or [null]; the
    text is the one V8 gives. *)
Definition NO_MESSAGE (is_null : bool) : Exn :=
  ExnError ("Cannot read properties of "
            +:+ (if is_null then "null" else "undefined")
            +:+ " (reading 'message')").

(** The [catch] block of the operations:
    [return { success: false,
              error: error instanceof ErrorResponse ? error
                : new ErrorResponse({ code, message: (error as Error).message }) }].
    [wrap] builds the returned object around the error.  Reading [message]
    off [undefined] or [null] throws inside the [catch]. *)
Definition as_response {A} (wrap : ErrorResponse -> A) (fallback : string) (error : Exn)
  : M A :=
  match error with
  | ExnResponse e => ret (wrap e)
  | ExnError msg => ret (wrap (mkError fallback msg []))
  | ExnNullish n => throw (NO_MESSAGE n)
  end.

(** The own plain properties of an update object, as [updateInput[field]]
    and [field in updateInput] read them: an operator object
    ([{ $set: ... }], [{ $unset: ... }]) has none. *)
Definition fields_of (u : Update) : Doc :=
  match u with
  | UFields f => f
  | _ => ∅
  end.

(** The update object once its plain properties were rewritten in place
    (plain properties a validation hook adds to an operator object are not
    kept). *)
Definition with_fields (u : Update) (f : Doc) : Update :=
  match u with
  | UFields _ => UFields f
  | _ => u
  end.

(** An [async] function whose body returns a promise without awaiting it
    settles the way that promise does. *)
Definition settle {A} (c : M (M A)) : M A := p <- c ;; p.

Section Service.

Variable model : Model.
Variable config : Config.

(** The unique-field set found in the schema at construction, in the order
    of the schema paths. *)
Variable uniqueFields : list string.

(** Iterations allowed to the slug loop. *)
Variable fuel : nat.

(** [JSON.stringify] of the first argument of [findAll] and of [findOne]. *)
Variable stringify_args : FindAllArgs -> string.
Variable stringify_query : Query -> string.

Definition exists_ (query : Query) (includeDeleted : bool) : M bool :=
  repo_exists model query includeDeleted.

(** [{ [field]: value, ...(excludeId && { _id: { $ne: excludeId } }) }] *)
Definition field_query (field : string) (v : Value) (excludeId : option Value) : Query :=
  match excludeId with
  | Some id => <["_id" := CNe id]> {[ field := CEq v ]}
  | None => {[ field := CEq v ]}
  end.

Definition UNIQUE_FIELD_ERROR (field : string) (v : Value) : Exn :=
  ExnResponse
    (mkError "UNIQUE_FIELD_ERROR"
       ("The " +:+ field +:+ " must be unique.")
       ["Value '" +:+ to_js_string v +:+ "' is already taken for " +:+ field +:+ "."]).

Definition validateUniqueFields (doc : Doc) (excludeId : option Value) : M unit :=
  for_all
    (fun field =>
       if negb (truthy (getv doc field)) then ret tt
       else
         found <- exists_ (field_query field (getv doc field) excludeId) false ;;
         if found then throw (UNIQUE_FIELD_ERROR field (getv doc field))
         else ret tt)
    uniqueFields.

(** The [while (true)] loop of [generateUniqueSlug]. *)
Fixpoint slug_loop (n : nat) (sourceValue : Value) (excludeId : option Value)
  (slug : string) (count : N) : M string :=
  match n with
  | O => fun w => (Diverged, w)
  | S n' =>
      found <- repo_exists model (field_query (slug_targetField config) (VStr slug) excludeId) false ;;
      if negb found then ret slug
      else
        slug_loop n' sourceValue excludeId
          (slug_uniqueResolver config (slug_generator config sourceValue) (count + 1)%N)
          (count + 1)%N
  end.

(** Returns the document as the in-place assignment leaves it. *)
Definition generateUniqueSlug (doc : Doc) (excludeId : option Value) : M Doc :=
  if negb (slug_enabled config) then ret doc
  else if negb (has_key doc (slug_sourceField config)) then
    throw (ExnError ("Source field '" +:+ slug_sourceField config +:+ "' not found in document."))
  else
    let sourceValue := getv doc (slug_sourceField config) in
    if negb (truthy sourceValue) then ret doc
    else
      slug <- slug_loop fuel sourceValue excludeId (slug_generator config sourceValue) 0%N ;;
      ret (<[slug_targetField config := VStr slug]> doc).

Definition applyPopulation (doc : Doc) : M Doc :=
  if (negb (populate_defaultPopulate config) || bool_decide (populate_fields config = []))%bool
  then ret doc
  else m_populate model (populate_fields config) doc.

Definition VALIDATION_ERROR (field : string) : Exn :=
  ExnResponse
    (mkError "VALIDATION_ERROR"
       ("Validation failed for field " +:+ field +:+ ".")
       ["Invalid value for " +:+ field +:+ "."]).

(** The validators of one [Promise.all], each taken from its start to its
    end in the order of the entries, on the one document they share. *)
Fixpoint run_validators (validators : list (string * (Value -> Doc -> M (bool * Doc))))
  (doc : Doc) (w : World) : list (Outcome unit) * Doc * World :=
  match validators with
  | [] => ([], doc, w)
  | (field, validator) :: r =>
      if bool_decide (getv doc field = VUndef) then
        let '(os, doc', w') := run_validators r doc w in
        (Returned tt :: os, doc', w')
      else
        match validator (getv doc field) doc w with
        | (Returned (isValid, doc1), w1) =>
            let '(os, doc', w') := run_validators r doc1 w1 in
            ((if isValid then Returned tt else Thrown (VALIDATION_ERROR field)) :: os,
             doc', w')
        | (Thrown e, w1) =>
            let '(os, doc', w') := run_validators r doc w1 in
            (Thrown e :: os, doc', w')
        | (Diverged, w1) =>
            let '(os, doc', w') := run_validators r doc w1 in
            (Diverged :: os, doc', w')
        end
  end.

Definition runCustomValidators (doc : Doc) : M Doc :=
  fun w =>
    let '(os, doc', w') := run_validators (customValidators config) doc w in
    (match settle_all (race w) os with
     | Returned _ => Returned doc'
     | Thrown e => Thrown e
     | Diverged => Diverged
     end, w').

Definition executeHook (hook : option (Doc -> M Doc)) (doc : Doc) : M Doc :=
  match hook with
  | Some h => h doc
  | None => ret doc
  end.

Definition executeHook2 (hook : option (Doc -> Update -> M (Doc * Update)))
  (doc : Doc) (updateData : Update) : M (Doc * Update) :=
  match hook with
  | Some h => h doc updateData
  | None => ret (doc, updateData)
  end.

Definition buildSearchQuery (searchTerm : option string) : Query :=
  match searchTerm with
  | None => ∅
  | Some term =>
      if (String.eqb term "" || negb (search_enabled config)
          || bool_decide (search_fields config = []))%bool
      then ∅
      else
        let regex := mkRegex term (negb (search_caseSensitive config)) in
        {[ "$or" := COr (map (fun field => (field, regex)) (search_fields config)) ]}
  end.

Definition filterAllowedFields (query : Query) : Query :=
  if bool_decide (filter_allowedFields config = []) then query
  else filter (fun kv => fst kv ∈ filter_allowedFields config) query.

Definition getCacheKey (method params : string) : string :=
  method +:+ ":" +:+ params.

(** The part of [getCachedData] before its [await]: the entry under the
    key, when it has not expired. *)
Definition cache_lookup (key : string) : M (option Envelope) :=
  cached <- cache_get key ;;
  t <- now ;;
  match cached with
  | Some e =>
      if t - ce_timestamp e <? cache_ttl config * 1000 then ret (Some (ce_data e))
      else ret None
  | None => ret None
  end.

(** The part from the [await] on: [const data = await getter();
    this.cache.set(key, { data, timestamp: Date.now() }); return data]. *)
Definition cache_fill (key : string) (getter : M Envelope) : M Envelope :=
  data <- getter ;; t' <- now ;; cache_set key (mkEntry data t') ;;; ret data.

Definition cache_resume (key : string) (getter : M Envelope) (hit : option Envelope)
  : M Envelope :=
  match hit with
  | Some data => ret data
  | None => cache_fill key getter
  end.

Definition getCachedData (key : string) (getter : M Envelope) : M Envelope :=
  if negb (cache_enabled config) then getter
  else hit <- cache_lookup key ;; cache_resume key getter hit.

Definition validateDocument (doc : Doc) : M Doc :=
  doc1 <- executeHook (preValidate config) doc ;;
  doc2 <- runCustomValidators doc1 ;;
  executeHook (postValidate config) doc2.

Definition create (input : Doc) : M Envelope :=
  try_catch
    (hooked <- executeHook (beforeCreate config) input ;;
     validateUniqueFields hooked None ;;;
     validated <- validateDocument hooked ;;
     input' <- generateUniqueSlug validated None ;;
     document <- repo_create model input' ;;
     document' <- executeHook (afterCreate config) document ;;
     populatedDoc <- (if populate_defaultPopulate config then applyPopulation document'
                      else ret document') ;;
     ret (Success None (PDoc populatedDoc)))
    (as_response Failure "DATABASE_ERROR").

Definition finalPage (a : FindAllArgs) : Z :=
  Z.max 1 (default (defaultPage config) (a_page a)).

Definition finalLimit (a : FindAllArgs) : Z :=
  Z.min (maxLimit config) (default (defaultLimit config) (a_limit a)).

Definition finalQuery (a : FindAllArgs) : Query :=
  buildSearchQuery (a_searchTerm a) ∪ filterAllowedFields (default ∅ (a_query a)).

Definition findAll_options (a : FindAllArgs) : QueryOptions :=
  let finalSort := default (filter_defaultSort config) (a_sort a) in
  if default true (a_paginate a) then
    mkOptions (Some finalSort) (Some ((finalPage a - 1) * finalLimit a)) (Some (finalLimit a))
  else mkOptions (Some finalSort) None None.

(** The getter [findAll] hands to [getCachedData]. *)
Definition findAll_getter (a : FindAllArgs) : M Envelope :=
  let includeDeleted := default false (a_includeDeleted a) in
  let populate := default (populate_defaultPopulate config) (a_populate a) in
  both <- promise_both
            (repo_findAll model (finalQuery a) (findAll_options a) includeDeleted)
            (repo_countDocuments model ∅ no_options includeDeleted) ;;
  let documents := fst both in
  let total := snd both in
  populatedDocs <- (if populate then promise_all applyPopulation documents
                    else ret documents) ;;
  results <- repo_countDocuments model (finalQuery a) no_options includeDeleted ;;
  let totalPages := js_ceil_div results (finalLimit a) in
  let itemsFetched := finalPage a * finalLimit a in
  let remaining := results - itemsFetched in
  let remainingItems := if 0 <? remaining then remaining else 0 in
  ret (Success
         (Some (mkMeta total results
                  (if default true (a_paginate a) then
                     Some (mkPaging (finalPage a) (finalLimit a) totalPages remainingItems
                             (Z.of_nat (length documents)))
                   else None)))
         (PDocs populatedDocs)).

(** [return this.getCachedData(...)] sits inside the [try] without an
    [await]: the [catch] only covers building the cache key. *)
Definition findAll (a : FindAllArgs) : M Envelope :=
  settle
    (try_catch
       (let cacheKey := getCacheKey "findAll" (stringify_args a) in
        ret (getCachedData cacheKey (findAll_getter a)))
       (as_response (fun e => ret (Failure e)) "DATABASE_ERROR")).

Definition findOne_getter (query : Query) (populate includeDeleted : bool) : M Envelope :=
  document <- repo_findOne model query no_options includeDeleted ;;
  match document with
  | None => throw (NOT_FOUND "The requested document was not found.")
  | Some d =>
      populatedDoc <- (if populate then applyPopulation d else ret d) ;;
      ret (Success None (PDoc populatedDoc))
  end.

Definition findOne (query : Query) (populate includeDeleted : bool) : M Envelope :=
  settle
    (try_catch
       (let cacheKey := getCacheKey "findOne" (stringify_query query) in
        ret (getCachedData cacheKey (findOne_getter query populate includeDeleted)))
       (as_response (fun e => ret (Failure e)) "DATABASE_ERROR")).

Definition findById (id : Value) (populate includeDeleted : bool) : M Envelope :=
  try_catch
    (document <- repo_findById model id includeDeleted ;;
     match document with
     | None => throw (NOT_FOUND "The requested document was not found.")
     | Some d =>
         populatedDoc <- (if populate then applyPopulation d else ret d) ;;
         ret (Success None (PDoc populatedDoc))
     end)
    (as_response Failure "DATABASE_ERROR").

(** The conditional slug stage of [update]: the slug is written into the
    fresh object [{ ...updateInput, _id }], which nothing reads
    afterwards. *)
Definition update_slug_stage (updateInput : Update) (documentToUpdate : Doc) : M unit :=
  if (slug_enabled config
      && negb (strict_eq (getv (fields_of updateInput) (slug_sourceField config))
                         (getv documentToUpdate (slug_sourceField config))))%bool
  then
    _ <- generateUniqueSlug (<["_id" := getv documentToUpdate "_id"]> (fields_of updateInput))
           (Some (getv documentToUpdate "_id")) ;;
    ret tt
  else ret tt.

(** [updateInput] is an [UpdateQuery]: a flat object or an operator
    object.  The checks read it as a document ([updateInput as
    Partial<T>]). *)
Definition update (query : Query) (updateInput : Update) (includeDeleted : bool)
  : M Envelope :=
  try_catch
    (found <- repo_findOne model query no_options includeDeleted ;;
     match found with
     | None => throw (NOT_FOUND "Document to update not found.")
     | Some found =>
         hooked <- executeHook2 (beforeUpdate config) found updateInput ;;
         let documentToUpdate := fst hooked in
         let updateInput := snd hooked in
         validateUniqueFields (fields_of updateInput)
           (Some (getv documentToUpdate "_id")) ;;;
         validated <- validateDocument (fields_of updateInput) ;;
         let updateInput := with_fields updateInput validated in
         update_slug_stage updateInput documentToUpdate ;;;
         updated <- repo_update model query updateInput no_options includeDeleted ;;
         match updated with
         | None => throw (NOT_FOUND "Updated document not found.")
         | Some updatedDocument =>
             updatedDocument' <- executeHook (afterUpdate config) updatedDocument ;;
             populatedDoc <- (if populate_defaultPopulate config
                              then applyPopulation updatedDocument'
                              else ret updatedDocument') ;;
             ret (Success None (PDoc populatedDoc))
         end
     end)
    (as_response Failure "DATABASE_ERROR").

Definition updateById (id : Value) (updateInput : Update) : M Envelope :=
  try_catch
    (found <- repo_findById model id false ;;
     match found with
     | None => throw (NOT_FOUND "Document to update not found.")
     | Some found =>
         hooked <- executeHook2 (beforeUpdate config) found updateInput ;;
         let documentToUpdate := fst hooked in
         let updateInput := snd hooked in
         validateUniqueFields (fields_of updateInput)
           (Some (getv documentToUpdate "_id")) ;;;
         validated <- validateDocument (fields_of updateInput) ;;
         let updateInput := with_fields updateInput validated in
         updated <- repo_updateById model id updateInput no_options ;;
         match updated with
         | None => throw (NOT_FOUND "Updated document not found.")
         | Some updatedDocument =>
             updatedDocument' <- executeHook (afterUpdate config) updatedDocument ;;
             populatedDoc <- (if populate_defaultPopulate config
                              then applyPopulation updatedDocument'
                              else ret updatedDocument') ;;
             ret (Success None (PDoc populatedDoc))
         end
     end)
    (as_response Failure "DATABASE_ERROR").

Definition delete_not_found : Exn :=
  NOT_FOUND (if softDelete config then "Document to soft delete not found."
             else "Document to delete not found.").

Definition delete_ (query : Query) : M Envelope :=
  try_catch
    (found <- repo_findOne model query no_options false ;;
     match found with
     | None => throw (NOT_FOUND "Document to delete not found.")
     | Some documentToDelete =>
         _ <- executeHook (beforeDelete config) documentToDelete ;;
         deleted <- repo_delete model query no_options (softDelete config) ;;
         match deleted with
         | None => throw delete_not_found
         | Some deletedDocument =>
             deletedDocument' <- executeHook (afterDelete config) deletedDocument ;;
             populatedDoc <- (if populate_defaultPopulate config
                              then applyPopulation deletedDocument'
                              else ret deletedDocument') ;;
             ret (Success None (PDoc populatedDoc))
         end
     end)
    (as_response Failure "DATABASE_ERROR").

Definition deleteById (id : Value) : M Envelope :=
  try_catch
    (found <- repo_findById model id false ;;
     match found with
     | None => throw (NOT_FOUND "Document to delete not found.")
     | Some documentToDelete =>
         _ <- executeHook (beforeDelete config) documentToDelete ;;
         deleted <- repo_deleteById model id (softDelete config) ;;
         match deleted with
         | None => throw delete_not_found
         | Some deletedDocument =>
             deletedDocument' <- executeHook (afterDelete config) deletedDocument ;;
             populatedDoc <- (if populate_defaultPopulate config
                              then applyPopulation deletedDocument'
                              else ret deletedDocument') ;;
             ret (Success None (PDoc populatedDoc))
         end
     end)
    (as_response Failure "DATABASE_ERROR").

Definition OPERATION_NOT_SUPPORTED : ErrorResponse :=
  mkError "OPERATION_NOT_SUPPORTED" "Soft delete is not enabled for this service." [].

Definition restore (query : Query) : M Envelope :=
  if negb (softDelete config) then ret (Failure OPERATION_NOT_SUPPORTED)
  else
    try_catch
      (restored <- repo_restore model query ;;
       match restored with
       | None => throw (NOT_FOUND "Document not found in deleted state.")
       | Some restoredDoc =>
           populatedDoc <- (if populate_defaultPopulate config
                            then applyPopulation restoredDoc
                            else ret restoredDoc) ;;
           ret (Success None (PDoc populatedDoc))
       end)
      (as_response Failure "RESTORE_ERROR").

Definition restoreById (id : Value) : M Envelope :=
  if negb (softDelete config) then ret (Failure OPERATION_NOT_SUPPORTED)
  else
    try_catch
      (restored <- repo_restoreById model id ;;
       match restored with
       | None => throw (NOT_FOUND "Document not found in deleted state.")
       | Some restoredDoc =>
           populatedDoc <- (if populate_defaultPopulate config
                            then applyPopulation restoredDoc
                            else ret restoredDoc) ;;
           ret (Success None (PDoc populatedDoc))
       end)
      (as_response Failure "RESTORE_ERROR").

(** The callbacks change the documents of the array in place; the array
    is what [createMany] is given. *)
Definition bulkCreate (documents : list Doc) (skipValidation : bool) (ordered : option bool)
  : M Envelope :=
  try_catch
    (prepared <- (if negb skipValidation then
                    promise_all (fun doc =>
                             hooked <- executeHook (beforeCreate config) doc ;;
                             validateUniqueFields hooked None ;;;
                             validated <- validateDocument hooked ;;
                             generateUniqueSlug validated None) documents
                  else ret documents) ;;
     createdDocs <- repo_createMany model prepared (default true ordered) ;;
     createdDocs' <- promise_all (executeHook (afterCreate config)) createdDocs ;;
     ret (Success None (PDocs createdDocs')))
    (as_response Failure "BULK_CREATE_ERROR").

Definition bulkDelete (filter : Query) (softDelete : bool) : M Envelope :=
  try_catch
    (deleted <- repo_deleteMany model filter softDelete ;;
     ret (Success None (PCount "deleted" deleted)))
    (as_response Failure "BULK_DELETE_ERROR").

End Service.

(** ** Sample configurations and worlds *)

(** Modelled from the spec: [slugify] is defined in [utils], which is not
    among the sources; the spec only fixes its value on the example
    ([Alpha] gives [alpha]).  This stand-in lower-cases strings. *)
Definition slugify_lower (v : Value) : string :=
  match v with
  | VStr s => lower s
  | _ => to_js_string v
  end.

Definition with_slug (c : Config) (enabled : bool) : Config :=
  mkConfig (defaultLimit c) (maxLimit c) (defaultPage c)
    (search_enabled c) (search_fields c) (search_caseSensitive c)
    (filter_allowedFields c) (filter_defaultSort c)
    enabled (slug_sourceField c) (slug_targetField c)
    (slug_generator c) (slug_uniqueResolver c)
    (populate_fields c) (populate_defaultPopulate c)
    (customValidators c) (preValidate c) (postValidate c)
    (beforeCreate c) (afterCreate c) (beforeUpdate c) (afterUpdate c)
    (beforeDelete c) (afterDelete c)
    (cache_enabled c) (cache_ttl c) (softDelete c).

Definition with_cache (c : Config) (enabled : bool) (ttl : Z) : Config :=
  mkConfig (defaultLimit c) (maxLimit c) (defaultPage c)
    (search_enabled c) (search_fields c) (search_caseSensitive c)
    (filter_allowedFields c) (filter_defaultSort c)
    (slug_enabled c) (slug_sourceField c) (slug_targetField c)
    (slug_generator c) (slug_uniqueResolver c)
    (populate_fields c) (populate_defaultPopulate c)
    (customValidators c) (preValidate c) (postValidate c)
    (beforeCreate c) (afterCreate c) (beforeUpdate c) (afterUpdate c)
    (beforeDelete c) (afterDelete c)
    enabled ttl (softDelete c).

Definition with_beforeCreate (c : Config) (hook : option (Doc -> M Doc)) : Config :=
  mkConfig (defaultLimit c) (maxLimit c) (defaultPage c)
    (search_enabled c) (search_fields c) (search_caseSensitive c)
    (filter_allowedFields c) (filter_defaultSort c)
    (slug_enabled c) (slug_sourceField c) (slug_targetField c)
    (slug_generator c) (slug_uniqueResolver c)
    (populate_fields c) (populate_defaultPopulate c)
    (customValidators c) (preValidate c) (postValidate c)
    hook (afterCreate c) (beforeUpdate c) (afterUpdate c)
    (beforeDelete c) (afterDelete c)
    (cache_enabled c) (cache_ttl c) (softDelete c).

Definition plain_config : Config := DEFAULT_CONFIG slugify_lower.

(** A [beforeCreate] hook that rejects with [undefined], as
    [Promise.reject()] does. *)
Definition rejecting_hook : Doc -> M Doc := fun _ => throw (ExnNullish false).

Definition slug_config : Config := with_slug plain_config true.

(** In the sample worlds the first rejection in the order of the callbacks
    is the one that settles first. *)
Definition empty_world : World := mkWorld [] 1%N 1000 ∅ [] (fun _ => 0%nat).

Definition world_of (docs : list Doc) (t : Z) : World :=
  mkWorld docs (N.of_nat (S (length docs))) t ∅ [] (fun _ => 0%nat).

Definition alpha_input : Doc := {[ "name" := VStr "Alpha" ]}.

Definition alpha_record : Doc :=
  {[ "_id" := VId 1; "name" := VStr "Alpha"; "slug" := VStr "alpha" ]}.

(** A record soft-deleted at time 5 by user [u1]. *)
Definition deleted_record : Doc :=
  {[ "_id" := VId 1; "name" := VStr "a"; "deletedAt" := VDate 5; "deletedBy" := VStr "u1" ]}.

(** ** Predicates used in the statements *)

(** Worlds that differ at most in the log of engine calls. *)
Definition same_data (w w' : World) : Prop :=
  store w' = store w /\ next_id w' = next_id w /\ clock w' = clock w /\ cache w' = cache w.

(** Soft-deleted records are left as they are, position by position. *)
Definition deleted_untouched (w w' : World) : Prop :=
  forall (i : nat) (d : Doc),
    store w !! i = Some d -> is_deleted d = true -> store w' !! i = Some d.

(** Live records are left as they are, position by position. *)
Definition live_untouched (w w' : World) : Prop :=
  forall (i : nat) (d : Doc),
    store w !! i = Some d -> is_live d = true -> store w' !! i = Some d.

(** No two live records carry the same string in field [f]. *)
Definition distinct_live (f : string) (s : list Doc) : Prop :=
  forall (i j : nat) (d1 d2 : Doc) (v : string),
    s !! i = Some d1 -> s !! j = Some d2 ->
    is_live d1 = true -> is_live d2 = true ->
    getv d1 f = VStr v -> getv d2 f = VStr v -> i = j.

(** Some live record carries the string [v] in field [f]. *)
Definition taken (f : string) (v : string) (s : list Doc) : bool :=
  existsb (fun d => is_live d && bool_decide (getv d f = VStr v)) s.

(** The slugs the default resolver goes through for one base. *)
Definition family (base : string) (k : N) : string :=
  if (k =? 0)%N then base else default_uniqueResolver base k.

(** Successive [create] calls, with the envelope of each. *)
Fixpoint run_creates (model : Model) (config : Config) (uniqueFields : list string)
  (fuel : nat) (inputs : list Doc) (w : World) : list (Outcome Envelope) * World :=
  match inputs with
  | [] => ([], w)
  | input :: rest =>
      let '(r, w1) := create model config uniqueFields fuel input w in
      let '(rs, w2) := run_creates model config uniqueFields fuel rest w1 in
      (r :: rs, w2)
  end.

(** The [ObjectId] of a stored record. *)
Definition id_of (d : Doc) : option N :=
  match getv d "_id" with
  | VId n => Some n
  | _ => None
  end.

(** Every record has an [ObjectId] and no two records share one. *)
Definition ids_unique (s : list Doc) : Prop :=
  NoDup (map id_of s) /\ Forall (fun d => is_Some (id_of d)) s.

(** The message of the error [generateUniqueSlug] throws. *)
Definition source_missing (cfg : Config) : string :=
  "Source field '" +:+ slug_sourceField cfg +:+ "' not found in document.".

(** The world after one logged engine call. *)
Definition logged (e : Event) (w : World) : World := snd (log e w).

(** The records an engine query sees, in the order it returns them. *)
Definition hits (q : Query) (s : option SortSpec) (w : World) : list Doc :=
  sort_docs s (filter (fun d => matches q d = true) (store w)).

(** The number of stored records an engine query matches. *)
Definition count_of (q : Query) (w : World) : Z :=
  Z.of_nat (length (filter (fun d => matches q d = true) (store w))).

(** The envelope [findAll] builds from the page of documents. *)
Definition findAll_envelope (cfg : Config) (a : FindAllArgs) (w : World) (docs : list Doc)
  : Envelope :=
  let incl := default false (a_includeDeleted a) in
  let n := count_of (effectiveQuery incl (finalQuery cfg a)) w in
  Success
    (Some (mkMeta (count_of (effectiveQuery incl ∅) w) n
             (if default true (a_paginate a) then
                Some (mkPaging (finalPage cfg a) (finalLimit cfg a)
                        (js_ceil_div n (finalLimit cfg a))
                        (Z.max 0 (n - finalPage cfg a * finalLimit cfg a))
                        (Z.of_nat (length docs)))
              else None)))
    (PDocs docs).

(** The existence query for [field] has a hit among the stored records. *)
Definition collides (field : string) (v : Value) (excludeId : option Value) (s : list Doc)
  : bool :=
  existsb (matches (not_deleted (field_query field v excludeId))) s.

(** The unique fields whose check fails, in the order of the set. *)
Definition offending (uf : list string) (doc : Doc) (excludeId : option Value) (s : list Doc)
  : list string :=
  filter (fun f => truthy (getv doc f) = true /\ collides f (getv doc f) excludeId s = true) uf.

(** The existence queries issued for a document. *)
Definition unique_queries (uf : list string) (doc : Doc) (excludeId : option Value)
  : list Event :=
  map (fun f => EvExists (not_deleted (field_query f (getv doc f) excludeId)))
    (filter (fun f => truthy (getv doc f) = true) uf).

(** The rejections of the uniqueness checks of a document, in the order
    of the set. *)
Definition unique_rejections (uf : list string) (doc : Doc) (excludeId : option Value)
  (s : list Doc) : list Exn :=
  map (fun f => UNIQUE_FIELD_ERROR f (getv doc f)) (offending uf doc excludeId s).

(** Sample documents with a numeric field [code]. *)
Definition code_input (n : Z) : Doc := {[ "code" := VNum n ]}.

Definition code_record (id : N) (n : Z) : Doc := {[ "_id" := VId id; "code" := VNum n ]}.

(** The hooks and validators of a configuration are all absent. *)
Definition no_callbacks (cfg : Config) : Prop :=
  beforeCreate cfg = None /\ afterCreate cfg = None
  /\ preValidate cfg = None /\ postValidate cfg = None /\ customValidators cfg = [].

(** The stages of [create] before the slug stage, with the document as the
    hooks and validators leave it. *)
Definition create_checks (model : Model) (cfg : Config) (uf : list string) (input : Doc)
  : M Doc :=
  hooked <- executeHook (beforeCreate cfg) input ;;
  validateUniqueFields model uf hooked None ;;;
  validateDocument cfg hooked.

(** What [bulkCreate] does with each document before inserting. *)
Definition bulkCreate_prepare (model : Model) (cfg : Config) (uf : list string) (fuel : nat)
  (doc : Doc) : M Doc :=
  validated <- create_checks model cfg uf doc ;;
  generateUniqueSlug model cfg fuel validated None.

(** Integers that doubles hold exactly, with room for one more addition or
    subtraction. *)
Definition safe (z : Z) : Prop := Z.abs z <= 2 ^ 52.

(** The numbers of a [findAll] call are in the range where the arithmetic
    of doubles is that of the integers: the page and the limit asked for,
    the configured maximum, the two products the code forms, and the size
    of the collection. *)
Definition safe_paging (cfg : Config) (a : FindAllArgs) (w : World) : Prop :=
  safe (default (defaultPage cfg) (a_page a))
  /\ safe (default (defaultLimit cfg) (a_limit a))
  /\ safe (maxLimit cfg)
  /\ safe ((finalPage cfg a - 1) * finalLimit cfg a)
  /\ safe (finalPage cfg a * finalLimit cfg a)
  /\ safe (Z.of_nat (length (store w))).

(** The envelope [getCachedData] would serve under [key] without calling
    the getter. *)
Definition fresh_entry (cfg : Config) (key : string) (w : World) : option Envelope :=
  if cache_enabled cfg then
    match cache w !! key with
    | Some e =>
        if clock w - ce_timestamp e <? cache_ttl cfg * 1000 then Some (ce_data e) else None
    | None => None
    end
  else None.

(** The calls to [find] in a log. *)
Definition find_calls (t : list Event) : list (Query * QueryOptions) :=
  omap (fun e => match e with EvFind q o => Some (q, o) | _ => None end) t.


(** Modelled from the spec: the search term in force (search enabled, some
    search field, a term that is not empty). *)
Definition spec_search_term (cfg : Config) (a : FindAllArgs) : option string :=
  match a_searchTerm a with
  | Some t =>
      if (search_enabled cfg && negb (bool_decide (search_fields cfg = []))
          && negb (String.eqb t ""))%bool
      then Some t else None
  | None => None
  end.

(** Modelled from the spec: the term is a substring of what one of the
    search fields holds, case folded unless the search is case sensitive. *)
Definition spec_search_hit (cfg : Config) (t : string) (d : Doc) : bool :=
  existsb (fun field =>
             match getv d field with
             | VStr s => if search_caseSensitive cfg then contains t s
                         else contains (lower t) (lower s)
             | _ => false
             end) (search_fields cfg).

(** Modelled from the spec: a condition of the caller's query takes part
    in the combined query when its field is allowed (every field is when
    the list is empty) and neither the search term ([$or]) nor the
    soft-delete predicate ([deletedAt]) takes its place. *)
Definition spec_condition_kept (cfg : Config) (a : FindAllArgs) (k : string) : bool :=
  ((bool_decide (filter_allowedFields cfg = []) || bool_decide (k ∈ filter_allowedFields cfg))
   && (negb (String.eqb k "$or") || bool_decide (spec_search_term cfg a = None))
   && (negb (String.eqb k "deletedAt") || default false (a_includeDeleted a)))%bool.

(** Modelled from the spec: the records of the unfiltered count. *)
Definition spec_visible (a : FindAllArgs) (d : Doc) : bool :=
  (default false (a_includeDeleted a) || is_live d)%bool.

(** Modelled from the spec: the records of the filtered count: visible,
    hit by the search term, and passing the conditions of the query. *)
Definition spec_filtered (cfg : Config) (a : FindAllArgs) (d : Doc) : bool :=
  (spec_visible a d
   && match spec_search_term cfg a with
      | Some t => spec_search_hit cfg t d
      | None => true
      end
   && bool_decide (map_Forall (fun k c => spec_condition_kept cfg a k = true ->
                                          cond_matches d k c = true)
                     (default ∅ (a_query a))))%bool.

(** The slugs [family 0 .. family (c-1)] are exactly the taken ones, and
    live records have distinct slugs. *)
Definition slug_state (cfg : Config) (base : string) (c : N) (s : list Doc) : Prop :=
  (forall j, taken (slug_targetField cfg) (family base j) s = true <-> (j < c)%N)
  /\ distinct_live (slug_targetField cfg) s.

(** ** The remaining Service operations *)

(** [Array.prototype.join] on strings. *)
Fixpoint join_with (sep : string) (l : list string) : string :=
  match l with
  | [] => ""
  | [x] => x
  | x :: r => x +:+ sep +:+ join_with sep r
  end.

(** [String.prototype.split] on a one-character separator. *)
Fixpoint split_on (c : ascii) (s : string) : list string :=
  match s with
  | EmptyString => [EmptyString]
  | String a r =>
      if Ascii.eqb a c then EmptyString :: split_on c r
      else match split_on c r with
           | [] => [String a EmptyString]
           | h :: t => String a h :: t
           end
  end.

(** The value of a decimal digit. *)
Definition digit_of (a : ascii) : option N :=
  let n := N_of_ascii a in
  if ((48 <=? n)%N && (n <=? 57)%N)%bool then Some (n - 48)%N else None.

Fixpoint digits_value (s : string) (acc : N) : option N :=
  match s with
  | EmptyString => Some acc
  | String a r =>
      match digit_of a with
      | Some d => digits_value r (10 * acc + d)%N
      | None => None
      end
  end.

(** A property name that is an array index: a canonical decimal numeral
    below [2^32 - 1]. *)
Definition is_index (s : string) : option N :=
  match s with
  | EmptyString => None
  | String "0" EmptyString => Some 0%N
  | String "0" _ => None
  | _ =>
      match digits_value s 0 with
      | Some n => if (n <? 4294967295)%N then Some n else None
      | None => None
      end
  end.

Fixpoint replace_key (k : string) (v : bool) (o : SortSpec) : SortSpec :=
  match o with
  | [] => []
  | (k', v') :: r =>
      if String.eqb k' k then (k', v) :: r else (k', v') :: replace_key k v r
  end.

Fixpoint insert_index (k : string) (n : N) (v : bool) (o : SortSpec) : SortSpec :=
  match o with
  | [] => [(k, v)]
  | (k', v') :: r =>
      match is_index k' with
      | Some n' => if (n <? n')%N then (k, v) :: o else (k', v') :: insert_index k n v r
      | None => (k, v) :: o
      end
  end.

(** [obj[k] = v] on an object literal kept as the list of its own
    properties in the order the language enumerates them: array indices
    first, in ascending order, then the other names in the order they were
    added.  An existing property keeps its place.  Assigning a number to
    [__proto__] goes to the setter inherited from [Object.prototype],
    which ignores it: no own property is made. *)
Definition assign_key (k : string) (v : bool) (o : SortSpec) : SortSpec :=
  if String.eqb k "__proto__" then o
  else if existsb (fun kv => String.eqb (fst kv) k) o then replace_key k v o
  else match is_index k with
       | Some n => insert_index k n v o
       | None => (o ++ [(k, v)])%list
       end.

(** [parseSortParam] ([src/utils/params.ts]). *)
Definition parseSortParam (sortParam : string) : SortSpec :=
  if String.eqb sortParam "" then []
  else
    fold_left
      (fun sortObj field =>
         match field with
         | String "-"%char fieldName => assign_key fieldName false sortObj
         | _ => assign_key field true sortObj
         end)
      (split_on ","%char sortParam) [].

(** The inverse direction: a sort object written as a [sort] parameter. *)
Definition render_sort (s : SortSpec) : string :=
  join_with "," (map (fun kv : string * bool => if snd kv then fst kv else String "-"%char (fst kv)) s).

Definition has_char (c : ascii) (s : string) : bool :=
  existsb (Ascii.eqb c) (list_ascii_of_string s).

(** The double-quote character. *)
Definition dquote : string := String (ascii_of_nat 34) EmptyString.

(** The [replace] that writes every double quote twice. *)
Fixpoint double_quotes (s : string) : string :=
  match s with
  | EmptyString => EmptyString
  | String a r =>
      if Ascii.eqb a (ascii_of_nat 34)
      then String a (String a (double_quotes r))
      else String a (double_quotes r)
  end.

(** One cell of [generateCSV], as [join] renders it. *)
Definition csv_cell (value : Value) : string :=
  match value with
  | VStr s =>
      if has_char ","%char s then dquote +:+ double_quotes s +:+ dquote
      else s
  | _ => if truthy value then to_js_string value else ""
  end.

Definition newline : string := String (ascii_of_nat 10) EmptyString.

Definition generateCSV_lines (headers : list string) (rows : list Doc) : list string :=
  join_with "," headers
  :: map (fun row => join_with "," (map (fun header => csv_cell (getv row header)) headers))
       rows.

Definition generateCSV (headers : list string) (rows : list Doc) : string :=
  join_with newline (generateCSV_lines headers rows).

(** [fields.reduce((acc, field) => { acc[field] = doc.get(field); ... }, {})] *)
Definition project (fields : list string) (doc : Doc) : Doc :=
  fold_left (fun acc field => <[field := getv doc field]> acc) fields ∅.

(** The [data] of an [exportData] success: [{ result, format }]. *)
Inductive ExportData :=
| ExportJson (result : list Doc)
| ExportCsv (result : string).

Inductive ExportEnvelope :=
| ExportSuccess (data : ExportData)
| ExportFailure (error : ErrorResponse).

Inductive ExportFormat := FormatJson | FormatCsv.

Definition EXPORT_CONFLICT : Exn :=
  ExnResponse
    (mkError "EXPORT_ERROR"
       ("Les options " +:+ dquote +:+ "include" +:+ dquote +:+ " et " +:+ dquote
        +:+ "exclude" +:+ dquote +:+ " ne peuvent pas être utilisées ensemble.") []).

(** The [data] of a [batchCreate] success: [{ docs, total }]. *)
Inductive BatchCreateEnvelope :=
| BatchCreated (docs : list Doc) (total : Z)
| BatchCreateFailure (error : ErrorResponse).

(** [{ ...doc.toObject(), ...override, _id: undefined, createdAt: undefined,
      updatedAt: undefined, deletedAt: undefined, deletedBy: undefined }] *)
Definition cloneData (doc override : Doc) : Doc :=
  <["deletedBy" := VUndef]>
    (<["deletedAt" := VUndef]>
       (<["updatedAt" := VUndef]>
          (<["createdAt" := VUndef]>
             (<["_id" := VUndef]> (override ∪ doc))))).

Definition sum_counts (results : list Z) : Z := fold_left Z.add results 0.

Section ServiceMore.

Variable model : Model.
Variable config : Config.
Variable uniqueFields : list string.
Variable fuel : nat.
Variable stringify_args : FindAllArgs -> string.

(** The paths of the schema, as [Object.keys(schema.paths)] lists them. *)
Variable schemaPaths : list string.

(** [this.cache.clear()] *)
Definition clearCache : M unit :=
  fun w => (Returned tt, mkWorld (store w) (next_id w) (clock w) ∅ (trace w) (race w)).

(** [{ ...doc.toObject(), ...update }] is a fresh object for each document. *)
Definition bulkUpdate (filter : Query) (update : Update) (validateEach : bool) : M Envelope :=
  try_catch
    ((if validateEach then
        docs <- repo_findAll model filter no_options false ;;
        _ <- promise_all (fun doc => validateDocument config (fields_of update ∪ doc)) docs ;;
        ret tt
      else ret tt) ;;;
     modified <- repo_updateMany model filter update ;;
     ret (Success None (PCount "modified" modified)))
    (as_response Failure "BULK_UPDATE_ERROR").

(** [return this.create(cloneData)] hands on the promise of [create]. *)
Definition clone (id : Value) (override : Doc) : M Envelope :=
  settle
    (try_catch
       (found <- repo_findById model id false ;;
        match found with
        | None => throw (NOT_FOUND "Source document not found.")
        | Some doc => ret (create model config uniqueFields fuel (cloneData doc override))
        end)
       (as_response (fun e => ret (Failure e)) "CLONE_ERROR")).

Definition exportData (query : Query) (format : ExportFormat)
  (include exclude : option (list string)) : M ExportEnvelope :=
  try_catch
    ((match include, exclude with
      | Some _, Some _ => throw EXPORT_CONFLICT
      | _, _ => ret tt
      end) ;;;
     results <- findAll model config stringify_args
                  (mkArgs (Some query) None None None None None None None) ;;
     match results with
     | Failure e => throw (ExnResponse e)
     | Success _ data =>
         let documents := match data with PDocs ds => ds | _ => [] end in
         let fields :=
           match include, exclude with
           | Some inc, _ => inc
           | None, Some exc => filter (fun field => field ∉ exc) schemaPaths
           | None, None => schemaPaths
           end in
         let filteredDocuments := map (project fields) documents in
         match format with
         | FormatCsv => ret (ExportSuccess (ExportCsv (generateCSV fields filteredDocuments)))
         | FormatJson => ret (ExportSuccess (ExportJson filteredDocuments))
         end
     end)
    (as_response ExportFailure "EXPORT_ERROR").

Definition batchCreate (documents : list Doc)
  (skipValidation validateBeforeInsert : bool) (ordered : option bool)
  : M BatchCreateEnvelope :=
  try_catch
    (prepared <- (if (validateBeforeInsert && negb skipValidation)%bool then
                    promise_all (fun doc =>
                                   validateUniqueFields model uniqueFields doc None ;;;
                                   validated <- validateDocument config doc ;;
                                   generateUniqueSlug model config fuel validated None)
                      documents
                  else ret documents) ;;
     createdDocuments <- repo_createMany model prepared (default true ordered) ;;
     ret (BatchCreated createdDocuments (Z.of_nat (length createdDocuments))))
    (as_response BatchCreateFailure "BATCH_CREATE_ERROR").

Definition batchUpdate (updates : list (Query * Update)) (validateEach : bool)
  : M Envelope :=
  try_catch
    (results <- promise_all
                  (fun fu : Query * Update =>
                     (if validateEach then
                        docsToUpdate <- repo_findAll model (fst fu) no_options false ;;
                        _ <- promise_all
                               (fun doc => validateDocument config (fields_of (snd fu) ∪ doc))
                               docsToUpdate ;;
                        ret tt
                      else ret tt) ;;;
                     repo_updateMany model (fst fu) (snd fu))
                  updates ;;
     ret (Success None (PCount "updated" (sum_counts results))))
    (as_response Failure "BATCH_UPDATE_ERROR").

Definition batchDelete (filters : list Query) (softDeleteOption : option bool)
  (validateBeforeDelete : bool) : M Envelope :=
  try_catch
    (let softDelete := default (softDelete config) softDeleteOption in
     results <- promise_all
                  (fun filter =>
                     if validateBeforeDelete then
                       docsToDelete <- repo_findAll model filter no_options false ;;
                       if bool_decide (docsToDelete = []) then ret 0
                       else repo_deleteMany model filter softDelete
                     else repo_deleteMany model filter softDelete)
                  filters ;;
     ret (Success None (PCount "deleted" (sum_counts results))))
    (as_response Failure "BATCH_DELETE_ERROR").

Definition batchRestore (filters : list Query) (validateBeforeRestore : bool) : M Envelope :=
  if negb (softDelete config) then ret (Failure OPERATION_NOT_SUPPORTED)
  else
    try_catch
      (results <- promise_all
                    (fun filter =>
                       if validateBeforeRestore then
                         docsToRestore <- repo_findAll model (only_deleted filter)
                                            no_options false ;;
                         if bool_decide (docsToRestore = []) then ret 0
                         else repo_restoreMany model filter
                       else repo_restoreMany model filter)
                    filters ;;
       ret (Success None (PCount "restored" (sum_counts results))))
      (as_response Failure "BATCH_RESTORE_ERROR").

End ServiceMore.

(** [aggregate]: the named pipeline builders and the engine's [aggregate]
    are parameters; a pipeline is whatever the builders return. *)
Section Aggregation.

Variable Params Pipeline : Type.
Variable customPipelines : gmap string (Params -> Pipeline).
Variable model_aggregate : Pipeline -> M (list Doc).

Definition PIPELINE_NOT_FOUND (pipelineName : string) : Exn :=
  ExnResponse
    (mkError "PIPELINE_NOT_FOUND"
       ("Aggregation pipeline '" +:+ pipelineName +:+ "' not found.") []).

Definition aggregate (pipelineName : string) (params : Params) : M Envelope :=
  try_catch
    (match customPipelines !! pipelineName with
     | None => throw (PIPELINE_NOT_FOUND pipelineName)
     | Some builder =>
         results <- model_aggregate (builder params) ;;
         ret (Success None (PDocs results))
     end)
    (as_response Failure "AGGREGATION_ERROR").

End Aggregation.

(** ** Further predicates *)

(** The promise of a computation is rejected only with the [TypeError]
    that a [catch] block raises when it reads [message] off [undefined] or
    [null]. *)
Definition rejects_only_without_message {A} (c : M A) : Prop :=
  forall (w w' : World) (e : Exn), c w = (Thrown e, w') -> exists n, e = NO_MESSAGE n.

(** An engine whose every call to the collection fails with the same
    message. *)
Definition failing_model (msg : string) : Model := {|
  m_save := fun _ => throw (ExnError msg);
  m_insertMany := fun _ _ => throw (ExnError msg);
  m_find := fun _ _ => throw (ExnError msg);
  m_findOne := fun _ _ => throw (ExnError msg);
  m_findOneAndUpdate := fun _ _ _ => throw (ExnError msg);
  m_findByIdAndUpdate := fun _ _ _ => throw (ExnError msg);
  m_updateMany := fun _ _ => throw (ExnError msg);
  m_findOneAndDelete := fun _ _ => throw (ExnError msg);
  m_findByIdAndDelete := fun _ => throw (ExnError msg);
  m_deleteMany := fun _ => throw (ExnError msg);
  m_countDocuments := fun _ _ => throw (ExnError msg);
  m_exists := fun _ => throw (ExnError msg);
  m_populate := fun _ _ => throw (ExnError msg);
  m_ObjectId := mem_ObjectId
|}.

(** The strings live records carry in field [f]. *)
Definition live_values (f : string) (s : list Doc) : list string :=
  omap (fun d => if is_live d then
                   match getv d f with VStr v => Some v | _ => None end
                 else None) s.

(** No hook and no validator is configured. *)
Definition no_hooks (cfg : Config) : Prop :=
  no_callbacks cfg
  /\ beforeUpdate cfg = None /\ afterUpdate cfg = None
  /\ beforeDelete cfg = None /\ afterDelete cfg = None.

(** A computation leaves the cache map and the clock as they are. *)
Definition keeps_cache {A} (c : M A) : Prop :=
  forall (w w' : World) (r : Outcome A),
    c w = (r, w') -> cache w' = cache w /\ clock w' = clock w.

(** Identifiers are unique and all below the next one the engine hands
    out. *)
Definition well_numbered (w : World) : Prop :=
  ids_unique (store w)
  /\ Forall (fun d => exists m, id_of d = Some m /\ (m < next_id w)%N) (store w).


(** * Properties *)

(** ** Matching and the soft-delete predicate *)

Lemma matches_insert_cond (q : Query) (k : string) (c : Cond) (d : Doc) :
  matches (<[k := c]> q) d = true -> cond_matches d k c = true.
Proof.
  unfold matches. intros H. apply bool_decide_eq_true in H.
  exact (map_Forall_insert_1_1 _ _ _ _ H).
Qed.

Lemma matches_not_deleted_live (q : Query) (d : Doc) :
  matches (not_deleted q) d = true -> is_live d = true.
Proof.
  intros H. apply matches_insert_cond in H.
  unfold is_live, is_deleted. unfold cond_matches in H. rewrite H. reflexivity.
Qed.

Lemma matches_only_deleted (q : Query) (d : Doc) :
  matches (only_deleted q) d = true -> is_deleted d = true.
Proof.
  intros H. apply matches_insert_cond in H. exact H.
Qed.

Lemma live_not_deleted (d : Doc) : is_live d = true -> is_deleted d = true -> False.
Proof. unfold is_live. intros H1 H2. rewrite H2 in H1. discriminate. Qed.

Lemma matches_empty (d : Doc) : matches ∅ d = true.
Proof. unfold matches. apply bool_decide_eq_true. apply map_Forall_empty. Qed.

Lemma bind_ret {A B} (a : A) (k : A -> M B) (w : World) : bind (ret a) k w = k a w.
Proof. reflexivity. Qed.

Lemma bind_returned {A B} (c : M A) (k : A -> M B) (w w' : World) (a : A) :
  c w = (Returned a, w') -> bind c k w = k a w'.
Proof. intros H. unfold bind. by rewrite H. Qed.

Lemma try_catch_returned {A} (body : M A) (h : Exn -> M A) (w w' : World) (a : A) :
  body w = (Returned a, w') -> try_catch body h w = (Returned a, w').
Proof. intros H. unfold try_catch. by rewrite H. Qed.

Lemma try_catch_thrown {A} (body : M A) (h : Exn -> M A) (w w' : World) (e : Exn) :
  body w = (Thrown e, w') -> try_catch body h w = h e w'.
Proof. intros H. unfold try_catch. by rewrite H. Qed.

Lemma bind_thrown {A B} (c : M A) (k : A -> M B) (w w' : World) (e : Exn) :
  c w = (Thrown e, w') -> bind c k w = (Thrown e, w').
Proof. intros H. unfold bind. by rewrite H. Qed.

Lemma matches_single (f : string) (c : Cond) (d : Doc) :
  matches {[ f := c ]} d = cond_matches d f c.
Proof.
  unfold matches. apply eq_true_iff_eq.
  by rewrite bool_decide_eq_true, map_Forall_singleton.
Qed.

Lemma matches_not_deleted_single (f : string) (c : Cond) (d : Doc) :
  f <> "deletedAt" ->
  matches (not_deleted {[ f := c ]}) d = (is_live d && cond_matches d f c)%bool.
Proof.
  intros Hf. unfold matches, not_deleted.
  apply eq_true_iff_eq. rewrite bool_decide_eq_true, andb_true_iff.
  rewrite map_Forall_insert by (by apply lookup_singleton_ne).
  rewrite map_Forall_singleton. unfold is_live, is_deleted.
  rewrite negb_involutive. unfold cond_matches at 1. tauto.
Qed.

Lemma id_matches (d : Doc) (n : N) : id_of d = Some n -> getv d "_id" = VId n.
Proof.
  unfold id_of. generalize (getv d "_id"). intros v H.
  destruct v; try discriminate H. congruence.
Qed.

Lemma by_id_hit (d : Doc) (n : N) :
  cond_matches d "_id" (CEq (VId n)) = true <-> id_of d = Some n.
Proof.
  unfold cond_matches, value_matches, id_of. generalize (getv d "_id"). intros v.
  rewrite bool_decide_eq_true. split; [by intros ->|].
  intros H. destruct v; try discriminate H. congruence.
Qed.

Lemma filter_none {A} (P : A -> Prop) `{!forall x, Decision (P x)} (l : list A) :
  Forall (fun x => ~ P x) l -> filter P l = [].
Proof.
  intros Hall. induction Hall as [|x r Hx _ IH]; [reflexivity|].
  by rewrite filter_cons_False.
Qed.

Lemma head_filter_first {A} (P : A -> Prop) `{!forall x, Decision (P x)}
  (l : list A) (i : nat) (x : A) :
  l !! i = Some x -> P x ->
  (forall (j : nat) (y : A), (j < i)%nat -> l !! j = Some y -> ~ P y) ->
  head (filter P l) = Some x.
Proof.
  revert i. induction l as [|a r IH]; intros i Hi HP Hbefore; [by destruct i|].
  destruct i as [|i].
  - injection Hi as ->. by rewrite filter_cons_True.
  - rewrite filter_cons_False by (apply (Hbefore 0%nat); [lia|reflexivity]).
    apply (IH i); [exact Hi|exact HP|].
    intros j y Hj Hy. apply (Hbefore (S j)); [lia|exact Hy].
Qed.

(** ** The monad and [Promise.all] *)

Lemma bind_assoc {A B C} (c : M A) (k : A -> M B) (h : B -> M C) (w : World) :
  bind (bind c k) h w = bind c (fun a => bind (k a) h) w.
Proof. unfold bind. destruct (c w) as [[a|e|] w1]; [|reflexivity..]. reflexivity. Qed.

Lemma bind_ext {A B} (c : M A) (k h : A -> M B) (w : World) :
  (forall a w1, c w = (Returned a, w1) -> k a w1 = h a w1) -> bind c k w = bind c h w.
Proof. intros H. unfold bind. destruct (c w) as [[a|e|] w1]; [by apply H|reflexivity..]. Qed.

Lemma bind_ext_l {A B} (c c' : M A) (k : A -> M B) (w : World) :
  c w = c' w -> bind c k w = bind c' k w.
Proof. intros H. unfold bind. by rewrite H. Qed.

Lemma try_catch_ext {A} (b1 b2 : M A) (h : Exn -> M A) (w : World) :
  b1 w = b2 w -> try_catch b1 h w = try_catch b2 h w.
Proof. intros H. unfold try_catch. by rewrite H. Qed.

Lemma run_all_ext {A B} (f g : A -> M B) (l : list A) (w : World) :
  (forall x w0, x ∈ l -> f x w0 = g x w0) -> run_all f l w = run_all g l w.
Proof.
  revert w. induction l as [|x r IH]; intros w H; [reflexivity|].
  cbn [run_all]. rewrite (H x w) by apply list_elem_of_here.
  destruct (g x w) as [o w1]. rewrite IH; [reflexivity|].
  intros y w0 Hy. apply H. by apply list_elem_of_further.
Qed.

Lemma promise_all_ext {A B} (f g : A -> M B) (l : list A) (w : World) :
  (forall x w0, x ∈ l -> f x w0 = g x w0) -> promise_all f l w = promise_all g l w.
Proof. intros H. unfold promise_all. by rewrite (run_all_ext f g l w H). Qed.

Lemma first_rejection_in (first : list Exn -> nat) (es : list Exn) (e : Exn) :
  first_rejection first es = Some e -> e ∈ es.
Proof.
  destruct es as [|e0 r]; [discriminate|]. unfold first_rejection.
  generalize (first (e0 :: r)). intros n H.
  assert (e = nth (n mod length (e0 :: r)) (e0 :: r) e0) as -> by congruence.
  apply list_elem_of_In. apply nth_In. apply Nat.mod_upper_bound. discriminate.
Qed.

Lemma first_rejection_some (first : list Exn -> nat) (es : list Exn) :
  es <> [] -> exists e, first_rejection first es = Some e /\ e ∈ es.
Proof.
  intros Hne. destruct es as [|e0 r] eqn:Heq; [done|]. rewrite <- Heq.
  destruct (first_rejection first es) as [e|] eqn:Hf.
  - exists e. split; [reflexivity|]. by eapply first_rejection_in.
  - rewrite Heq in Hf. discriminate Hf.
Qed.

Lemma first_rejection_single (first : list Exn -> nat) (e : Exn) :
  first_rejection first [e] = Some e.
Proof. cbn [first_rejection length]. by rewrite Nat.mod_1_r. Qed.

(** When every rejection is the same, that is the one reported. *)
Lemma first_rejection_same (first : list Exn -> nat) (es : list Exn) (e : Exn) :
  es <> [] -> Forall (fun e' => e' = e) es -> first_rejection first es = Some e.
Proof.
  intros Hne Hall. destruct (first_rejection_some first es Hne) as (e' & -> & Hin).
  f_equal. by eapply Forall_forall in Hall.
Qed.

Lemma settle_all_thrown {B} (first : list Exn -> nat) (os : list (Outcome B)) (e : Exn) :
  first_rejection first (omap rejection os) = Some e -> settle_all first os = Thrown e.
Proof. intros H. unfold settle_all. by rewrite H. Qed.

Lemma settle_all_returned {B} (first : list Exn -> nat) (bs : list B) :
  settle_all first (map Returned bs) = Returned bs.
Proof.
  unfold settle_all.
  assert (omap rejection (map (@Returned B) bs) = []) as ->
    by (induction bs as [|b r IH]; [reflexivity|exact IH]).
  cbn [first_rejection].
  assert (existsb is_diverged (map (@Returned B) bs) = false) as ->
    by (induction bs as [|b r IH]; [reflexivity|exact IH]).
  f_equal. induction bs as [|b r IH]; [reflexivity|]. cbn. by rewrite IH.
Qed.

(** Callbacks that all return. *)
Lemma promise_all_returned {A B} (f : A -> M B) (l : list A) (w w' : World) (bs : list B) :
  run_all f l w = (map Returned bs, w') -> promise_all f l w = (Returned bs, w').
Proof. intros H. unfold promise_all. rewrite H. by rewrite settle_all_returned. Qed.

Lemma run_all_cons {A B} (f : A -> M B) (x : A) (r : list A) (w w1 w2 : World)
  (o : Outcome B) (os : list (Outcome B)) :
  f x w = (o, w1) -> run_all f r w1 = (os, w2) -> run_all f (x :: r) w = (o :: os, w2).
Proof. intros H1 H2. cbn [run_all]. by rewrite H1, H2. Qed.

(** ** The in-memory engine *)

Lemma insert_sorted_perm (s : SortSpec) (d : Doc) (l : list Doc) :
  insert_sorted s d l ≡ₚ d :: l.
Proof.
  induction l as [|x r IH]; simpl; [reflexivity|].
  destruct (doc_compare s d x); try reflexivity.
  - rewrite IH. apply Permutation_swap.
  - rewrite IH. apply Permutation_swap.
Qed.

Lemma sort_docs_perm (s : option SortSpec) (l : list Doc) : sort_docs s l ≡ₚ l.
Proof.
  destruct s as [spec|]; simpl; [|reflexivity].
  induction l as [|x r IH]; simpl; [reflexivity|].
  rewrite insert_sorted_perm. by rewrite IH.
Qed.

Lemma apply_limit_sublist (n : option Z) (l : list Doc) : apply_limit n l `sublist_of` l.
Proof.
  unfold apply_limit. destruct n as [n|]; [|reflexivity].
  destruct (n =? 0); [reflexivity|]. apply sublist_take.
Qed.

Lemma window_spec (o : QueryOptions) (l r : list Doc) (w w' : World) :
  window o l w = (Returned r, w') -> w' = w /\ r `sublist_of` l.
Proof.
  unfold window. destruct (opt_skip o) as [k|].
  - destruct (k <? 0); [discriminate|]. unfold ret. intros [= <- <-]. split; [done|].
    etrans; [apply apply_limit_sublist|apply sublist_drop].
  - unfold ret. intros [= <- <-]. split; [done|]. apply apply_limit_sublist.
Qed.

Lemma select_spec (q : Query) (o : QueryOptions) (r : list Doc) (w w' : World) :
  select q o w = (Returned r, w') ->
  w' = w /\ Forall (fun d => matches q d = true /\ d ∈ store w) r.
Proof.
  unfold select, bind, get_store. intros H. apply window_spec in H as [-> Hsub].
  split; [done|]. apply Forall_forall. intros d Hd.
  apply (fun H => elem_of_sublist _ _ _ H Hsub) in Hd. rewrite sort_docs_perm in Hd.
  apply list_elem_of_filter in Hd. done.
Qed.

Lemma update_first_spec (q : Query) (f : Doc -> Doc) (l l' : list Doc) (res : option Doc) :
  update_first q f l = (res, l') ->
  forall (i : nat) (d : Doc), l !! i = Some d -> matches q d = false -> l' !! i = Some d.
Proof.
  revert l' res. induction l as [|x r IH]; simpl; intros l' res H i d Hi Hm.
  - discriminate.
  - destruct (matches q x) eqn:Hx.
    + injection H as <- <-. destruct i as [|i]; simpl in *; [|done]. congruence.
    + destruct (update_first q f r) as [res' r'] eqn:Hr. injection H as <- <-.
      destruct i as [|i]; simpl in *; [done|]. by eapply IH.
Qed.

Lemma update_all_spec (q : Query) (f : Doc -> Doc) (l : list Doc) (i : nat) (d : Doc) :
  l !! i = Some d -> matches q d = false -> update_all q f l !! i = Some d.
Proof.
  intros Hi Hm. unfold update_all. rewrite list_lookup_fmap, Hi. simpl. by rewrite Hm.
Qed.

Lemma not_matches_deleted (q : Query) (d : Doc) :
  is_deleted d = true -> matches (not_deleted q) d = false.
Proof.
  intros Hd. destruct (matches (not_deleted q) d) eqn:Hm; [|done].
  apply matches_not_deleted_live in Hm. exfalso. by eapply live_not_deleted.
Qed.

Lemma not_matches_live (q : Query) (d : Doc) :
  is_live d = true -> matches (only_deleted q) d = false.
Proof.
  intros Hd. destruct (matches (only_deleted q) d) eqn:Hm; [|done].
  apply matches_only_deleted in Hm. exfalso. by eapply live_not_deleted.
Qed.

Lemma update_copy_spec (d0 : Doc) (f : Doc -> Doc) (l l' : list Doc) (res : option Doc) :
  update_copy d0 f l = (res, l') ->
  forall (i : nat) (d : Doc), l !! i = Some d -> d <> d0 -> l' !! i = Some d.
Proof.
  revert l' res. induction l as [|x r IH]; cbn [update_copy]; intros l' res H i d Hi Hd.
  - discriminate Hi.
  - destruct (bool_decide (x = d0)) eqn:Hx.
    + apply bool_decide_eq_true in Hx. injection H as <- <-.
      destruct i as [|i]; simpl in *; [|done]. congruence.
    + destruct (update_copy d0 f r) as [res' r'] eqn:Hr. injection H as <- <-.
      destruct i as [|i]; simpl in *; [done|]. eapply IH; eauto.
Qed.

Lemma sorted_head_matches (q : Query) (s : option SortSpec) (l : list Doc) (d0 : Doc) :
  head (sort_docs s (filter (fun d => matches q d = true) l)) = Some d0 ->
  matches q d0 = true /\ d0 ∈ l.
Proof.
  intros H. apply head_Some in H as [r H].
  assert (d0 ∈ sort_docs s (filter (fun d => matches q d = true) l)) as Hin
    by (rewrite H; apply list_elem_of_here).
  rewrite sort_docs_perm in Hin. apply list_elem_of_filter in Hin. exact Hin.
Qed.

(** Without a [sort] the engine updates the first stored match. *)
Lemma mem_findOneAndUpdate_store (q : Query) (u : Update) (o : QueryOptions) (w w' : World)
  (r : Outcome (option Doc)) :
  opt_sort o = None ->
  mem_findOneAndUpdate q u o w = (r, w') ->
  update_first q (apply_update u) (store w) = (match r with Returned o => o | _ => None end, store w').
Proof.
  intros Ho. unfold mem_findOneAndUpdate, bind, get_store, put_store, ret. rewrite Ho.
  destruct (update_first q (apply_update u) (store w)) as [res s']. by intros [= <- <-].
Qed.

(** Whatever the [sort], a single-document update leaves the documents
    that do not match where they are. *)
Lemma mem_findOneAndUpdate_others (q : Query) (u : Update) (o : QueryOptions) (w w' : World)
  (r : Outcome (option Doc)) :
  mem_findOneAndUpdate q u o w = (r, w') ->
  forall (i : nat) (d : Doc),
    store w !! i = Some d -> matches q d = false -> store w' !! i = Some d.
Proof.
  unfold mem_findOneAndUpdate, bind, get_store, put_store, ret.
  destruct (opt_sort o) as [spec|].
  - destruct (head _) as [d0|] eqn:Hh.
    + apply sorted_head_matches in Hh as [Hm0 _].
      destruct (update_copy d0 (apply_update u) (store w)) as [res s'] eqn:Hu.
      intros [= <- <-] i d Hi Hm. cbn [store]. eapply update_copy_spec; eauto. congruence.
    + intros [= <- <-] i d Hi _. exact Hi.
  - destruct (update_first q (apply_update u) (store w)) as [res s'] eqn:Hu.
    intros [= <- <-] i d Hi Hm. cbn [store]. eapply update_first_spec; eauto.
Qed.

Lemma repo_update_default_untouched (q : Query) (u : Update) (o : QueryOptions)
  (w w' : World) (r : Outcome (option Doc)) :
  repo_update MemModel q u o false w = (r, w') -> deleted_untouched w w'.
Proof.
  unfold repo_update, effectiveQuery. simpl. unfold bind at 1, log. intros H.
  intros i d Hi Hd.
  eapply (mem_findOneAndUpdate_others _ _ _ _ _ _ H); [exact Hi|].
  by apply not_matches_deleted.
Qed.

Lemma updateMany_store (q : Query) (u : Update) (w w' : World) (r : Outcome Z) :
  m_updateMany MemModel q u w = (r, w') -> store w' = update_all q (apply_update u) (store w).
Proof. simpl. unfold bind, log, get_store, put_store, ret. simpl. by intros [= <- <-]. Qed.

Lemma repo_updateMany_untouched (q : Query) (u : Update) (w w' : World) (r : Outcome Z) :
  repo_updateMany MemModel q u w = (r, w') -> deleted_untouched w w'.
Proof.
  unfold repo_updateMany. intros H. apply updateMany_store in H.
  intros i d Hi Hd. rewrite H. apply update_all_spec; [done|]. by apply not_matches_deleted.
Qed.

Lemma repo_restoreMany_untouched (q : Query) (w w' : World) (r : Outcome Z) :
  repo_restoreMany MemModel q w = (r, w') -> live_untouched w w'.
Proof.
  unfold repo_restoreMany. intros H. apply updateMany_store in H.
  intros i d Hi Hd. rewrite H. apply update_all_spec; [done|]. by apply not_matches_live.
Qed.

Lemma repo_findAll_default_live (q : Query) (o : QueryOptions) (w w' : World) (ds : list Doc) :
  repo_findAll MemModel q o false w = (Returned ds, w') -> Forall (fun d => is_live d = true) ds.
Proof.
  unfold repo_findAll, effectiveQuery. simpl. unfold bind at 1, log. intros H.
  apply select_spec in H as [_ H]. eapply Forall_impl; [exact H|].
  intros d [Hm _]. by eapply matches_not_deleted_live.
Qed.

Lemma findOne_engine_spec (q : Query) (o : QueryOptions) (w w' : World) (d : Doc) :
  m_findOne MemModel q o w = (Returned (Some d), w') ->
  matches q d = true /\ d ∈ store w /\ store w' = store w.
Proof.
  simpl. unfold bind at 1, log. unfold bind.
  destruct (select q o _) as [[l| |] w1] eqn:Hs; try discriminate.
  unfold ret. intros [= Hh <-]. apply select_spec in Hs as [-> Hall].
  destruct l as [|x l]; [discriminate|]. injection Hh as ->.
  apply Forall_cons in Hall as [[? ?] _]. done.
Qed.

Lemma repo_findOne_default_live (q : Query) (o : QueryOptions) (w w' : World) (d : Doc) :
  repo_findOne MemModel q o false w = (Returned (Some d), w') -> is_live d = true.
Proof.
  unfold repo_findOne, effectiveQuery. intros H. apply findOne_engine_spec in H as [H _].
  by eapply matches_not_deleted_live.
Qed.

Lemma to_ObjectId_id (m : Model) (n : N) : to_ObjectId m (VId n) = ret (VId n).
Proof. reflexivity. Qed.

(** The conversion of an identifier does not touch the world. *)
Lemma to_ObjectId_mem (id : Value) (w w' : World) (r : Outcome Value) :
  to_ObjectId MemModel id w = (r, w') -> w' = w.
Proof.
  unfold to_ObjectId. destruct id; try (unfold ret; by intros [= _ <-]).
  cbn [m_ObjectId MemModel]. unfold mem_ObjectId.
  destruct (if Nat.eqb _ _ then _ else _); unfold ret, throw; by intros [= _ <-].
Qed.

Lemma repo_findById_default_live (id : Value) (w w' : World) (d : Doc) :
  repo_findById MemModel id false w = (Returned (Some d), w') -> is_live d = true.
Proof.
  unfold repo_findById. unfold bind at 1.
  destruct (to_ObjectId MemModel id w) as [[oid| |] w1]; try discriminate.
  intros H. apply findOne_engine_spec in H as [H _].
  by eapply (matches_not_deleted_live (by_id oid)).
Qed.


Lemma select_plain (q : Query) (s : option SortSpec) (w : World) :
  select q (mkOptions s None None) w =
  (Returned (sort_docs s (filter (fun d => matches q d = true) (store w))), w).
Proof. reflexivity. Qed.

Lemma filter_live_matches (q : Query) (l : list Doc) :
  filter (fun d => matches (not_deleted q) d = true) (filter (fun d => is_live d = true) l)
  = filter (fun d => matches (not_deleted q) d = true) l.
Proof.
  induction l as [|x r IH]; [done|].
  rewrite (filter_cons (fun d => is_live d = true)).
  destruct (decide (is_live x = true)) as [Hl|Hl].
  - rewrite !filter_cons. destruct (decide _); by rewrite IH.
  - rewrite filter_cons. destruct (decide (matches (not_deleted q) x = true)) as [Hm|Hm]; [|done].
    apply matches_not_deleted_live in Hm. done.
Qed.

Lemma repo_countDocuments_default (q : Query) (w : World) :
  exists w',
    repo_countDocuments MemModel q no_options false w =
      (Returned (Z.of_nat (length (filter (fun d => matches (not_deleted q) d = true)
                                     (filter (fun d => is_live d = true) (store w))))), w')
    /\ same_data w w'.
Proof.
  eexists. split.
  - unfold repo_countDocuments, effectiveQuery. simpl. unfold bind at 1, log.
    unfold bind. rewrite select_plain. simpl. rewrite filter_live_matches. reflexivity.
  - by repeat split.
Qed.

Lemma existsb_live_matches (q : Query) (l : list Doc) :
  existsb (matches (not_deleted q)) l
  = existsb (matches (not_deleted q)) (filter (fun d => is_live d = true) l).
Proof.
  induction l as [|x r IH]; [done|]. rewrite filter_cons. simpl.
  destruct (decide (is_live x = true)) as [Hl|Hl]; simpl; [by rewrite IH|].
  destruct (matches (not_deleted q) x) eqn:Hm; [|by rewrite IH].
  apply matches_not_deleted_live in Hm. done.
Qed.

Lemma repo_exists_default (q : Query) (w : World) :
  exists w',
    repo_exists MemModel q false w =
      (Returned (existsb (matches (not_deleted q)) (filter (fun d => is_live d = true) (store w))), w')
    /\ same_data w w'.
Proof.
  eexists. split.
  - unfold repo_exists, effectiveQuery. simpl. unfold bind, log, get_store, ret. simpl.
    rewrite <- existsb_live_matches. reflexivity.
  - by repeat split.
Qed.

Lemma repo_exists_included (q : Query) (w : World) (d : Doc) :
  d ∈ store w -> matches q d = true ->
  exists w', repo_exists MemModel q true w = (Returned true, w').
Proof.
  intros Hin Hm. eexists. unfold repo_exists, effectiveQuery. simpl.
  unfold bind, log, get_store, ret. simpl.
  replace (existsb (matches q) (store w)) with true; [reflexivity|].
  symmetry. apply existsb_exists. exists d. split; [|done]. by apply list_elem_of_In.
Qed.

Lemma repo_findAll_included (q : Query) (s : option SortSpec) (w : World) (d : Doc) :
  d ∈ store w -> matches q d = true ->
  exists ds w', repo_findAll MemModel q (mkOptions s None None) true w = (Returned ds, w') /\ d ∈ ds.
Proof.
  intros Hin Hm. eexists _, _. split.
  - unfold repo_findAll, effectiveQuery. simpl. unfold bind at 1, log.
    rewrite select_plain. reflexivity.
  - rewrite sort_docs_perm. apply list_elem_of_filter. done.
Qed.

Lemma id_of_by_id (d d' : Doc) :
  is_Some (id_of d) -> matches (by_id (getv d "_id")) d' = true -> id_of d' = id_of d.
Proof.
  unfold id_of. generalize (getv d "_id"). intros v [n Hn] Hm.
  destruct v; try discriminate Hn.
  unfold by_id, matches in Hm. apply bool_decide_eq_true in Hm.
  apply map_Forall_singleton in Hm. unfold cond_matches, value_matches in Hm.
  apply bool_decide_eq_true in Hm. by rewrite Hm.
Qed.

Lemma NoDup_fmap_lookup {A B} (f : A -> B) (l : list A) (i j : nat) (x y : A) :
  NoDup (map f l) -> l !! i = Some x -> l !! j = Some y -> f x = f y -> i = j.
Proof.
  intros Hnd Hi Hj Hf. eapply NoDup_lookup; [exact Hnd| |].
  - by rewrite list_lookup_fmap, Hi.
  - rewrite list_lookup_fmap, Hj. simpl. by rewrite Hf.
Qed.

Lemma findOne_engine_plain (q : Query) (w : World) :
  m_findOne MemModel q no_options w =
  (Returned (head (filter (fun d => matches q d = true) (store w))),
   snd (log (EvFindOne q no_options) w)).
Proof. reflexivity. Qed.

Lemma repo_restore_untouched (q : Query) (w w' : World) (r : Outcome (option Doc)) :
  ids_unique (store w) ->
  repo_restore MemModel q w = (r, w') -> live_untouched w w'.
Proof.
  intros [Hnd Hids]. unfold repo_restore. unfold bind at 1.
  destruct (repo_findOne MemModel (only_deleted q) no_options true w) as [[[d|]| |] w1] eqn:Hf.
  - unfold repo_findOne, effectiveQuery in Hf. apply findOne_engine_spec in Hf as (Hm & Hin & Hst).
    intros H. unfold repo_update, effectiveQuery in H. simpl in H.
    unfold bind at 1, log in H. apply mem_findOneAndUpdate_store in H; [|reflexivity].
    simpl in H. rewrite Hst in H. intros i d2 Hi Hl.
    eapply update_first_spec; eauto.
    destruct (matches (by_id (getv d "_id")) d2) eqn:Hm2; [|done]. exfalso.
    apply list_elem_of_lookup in Hin as [j Hj].
    assert (is_Some (id_of d)) as Hsome.
    { eapply Forall_forall in Hids; [exact Hids|]. apply list_elem_of_lookup. eauto. }
    apply (id_of_by_id _ _ Hsome) in Hm2.
    assert (i = j) as -> by (eapply NoDup_fmap_lookup; eauto).
    assert (d2 = d) as -> by congruence.
    apply matches_only_deleted in Hm. by eapply live_not_deleted.
  - unfold ret. intros [= <- <-].
    unfold repo_findOne, effectiveQuery in Hf. rewrite findOne_engine_plain in Hf.
    injection Hf as _ <-. intros i d2 Hi _. exact Hi.
  - unfold repo_findOne, effectiveQuery in Hf. rewrite findOne_engine_plain in Hf. discriminate Hf.
  - unfold repo_findOne, effectiveQuery in Hf. rewrite findOne_engine_plain in Hf. discriminate Hf.
Qed.

Lemma update_first_hit (q : Query) (f : Doc -> Doc) (l : list Doc) (i : nat) (d : Doc) :
  l !! i = Some d -> matches q d = true ->
  (forall (j : nat) (d' : Doc), (j < i)%nat -> l !! j = Some d' -> matches q d' = false) ->
  update_first q f l = (Some (f d), <[i := f d]> l).
Proof.
  revert i. induction l as [|x r IH]; intros i Hi Hm Hbefore; [discriminate|].
  destruct i as [|i]; simpl in *.
  - injection Hi as ->. by rewrite Hm.
  - rewrite (Hbefore 0%nat x); [|lia|done].
    rewrite (IH i); [done|done|done|].
    intros j d' Hj Hd'. apply (Hbefore (S j)); [lia|done].
Qed.

Lemma same_data_logged (e : Event) (w : World) : same_data w (logged e w).
Proof. by repeat split. Qed.

(** With unique identifiers, a stored record is the one the engine finds
    under its identifier. *)
Lemma findById_mem_hit (w : World) (i : nat) (d : Doc) (n : N) (includeDeleted : bool) :
  ids_unique (store w) -> store w !! i = Some d -> id_of d = Some n ->
  (includeDeleted = false -> is_live d = true) ->
  exists w', repo_findById MemModel (VId n) includeDeleted w = (Returned (Some d), w')
             /\ same_data w w'.
Proof.
  intros [Hnd _] Hi Hn Hlive. unfold repo_findById. rewrite to_ObjectId_id, bind_ret.
  rewrite findOne_engine_plain. eexists. split; [|apply same_data_logged]. f_equal. f_equal.
  apply (head_filter_first _ _ i); [exact Hi| |].
  - destruct includeDeleted.
    + unfold by_id. rewrite matches_single. by apply by_id_hit.
    + change (<["deletedAt" := CEq VNull]> (by_id (VId n)))
        with (not_deleted {[ "_id" := CEq (VId n) ]}).
      rewrite matches_not_deleted_single by discriminate.
      rewrite (Hlive eq_refl). by apply by_id_hit.
  - intros j y Hj Hy Hm.
    assert (id_of y = Some n) as Hyn.
    { destruct includeDeleted.
      - unfold by_id in Hm. rewrite matches_single in Hm. by apply by_id_hit.
      - change (<["deletedAt" := CEq VNull]> (by_id (VId n)))
          with (not_deleted {[ "_id" := CEq (VId n) ]}) in Hm.
        rewrite matches_not_deleted_single in Hm by discriminate.
        apply andb_true_iff in Hm as [_ Hm]. by apply by_id_hit. }
    assert (j = i) by (eapply (NoDup_fmap_lookup id_of); eauto; congruence). lia.
Qed.

Lemma ids_unique_insert (l : list Doc) (i : nat) (d d' : Doc) :
  ids_unique l -> l !! i = Some d -> id_of d' = id_of d -> ids_unique (<[i := d']> l).
Proof.
  intros [Hnd Hall] Hi Hid. split.
  - change (map id_of (<[i := d']> l)) with (id_of <$> <[i := d']> l).
    rewrite list_fmap_insert, Hid, list_insert_id; [exact Hnd|].
    by rewrite list_lookup_fmap, Hi.
  - apply Forall_insert; [exact Hall|]. rewrite Hid.
    eapply Forall_forall in Hall; [exact Hall|]. by eapply list_elem_of_lookup_2.
Qed.

Lemma other_ids (l : list Doc) (i j : nat) (d d' : Doc) (n : N) :
  ids_unique l -> l !! i = Some d -> id_of d = Some n -> l !! j = Some d' -> j <> i ->
  id_of d' <> Some n.
Proof.
  intros [Hnd _] Hi Hn Hj Hne Hn'. apply Hne.
  eapply (NoDup_fmap_lookup id_of); eauto. congruence.
Qed.

Lemma findOneAndUpdate_mem (q : Query) (u : Update) (o : QueryOptions) (w : World)
  (res : option Doc) (s' : list Doc) :
  opt_sort o = None ->
  update_first q (apply_update u) (store w) = (res, s') ->
  mem_findOneAndUpdate q u o w
  = (Returned res, mkWorld s' (next_id w) (clock w) (cache w) (trace w) (race w)).
Proof.
  intros Ho H. unfold mem_findOneAndUpdate. unfold bind at 1. unfold get_store at 1.
  cbv beta iota. rewrite Ho, H. reflexivity.
Qed.

Lemma update_copy_hit (d0 : Doc) (f : Doc -> Doc) (l : list Doc) (i : nat) :
  l !! i = Some d0 ->
  (forall (j : nat), (j < i)%nat -> l !! j <> Some d0) ->
  update_copy d0 f l = (Some (f d0), <[i := f d0]> l).
Proof.
  revert i. induction l as [|x r IH]; intros i Hi Hbefore; [discriminate|].
  cbn [update_copy]. destruct i as [|i].
  - injection Hi as ->. by rewrite bool_decide_eq_true_2.
  - rewrite bool_decide_eq_false_2.
    + rewrite (IH i); [reflexivity|exact Hi|].
      intros j Hj. apply (Hbefore (S j)). lia.
    + intros ->. by apply (Hbefore 0%nat); [lia|].
Qed.

Lemma remove_copy_hit (d0 : Doc) (l : list Doc) (i : nat) :
  l !! i = Some d0 ->
  (forall (j : nat), (j < i)%nat -> l !! j <> Some d0) ->
  remove_copy d0 l = (Some d0, delete i l).
Proof.
  revert i. induction l as [|x r IH]; intros i Hi Hbefore; [discriminate|].
  cbn [remove_copy]. destruct i as [|i].
  - injection Hi as ->. by rewrite bool_decide_eq_true_2.
  - rewrite bool_decide_eq_false_2.
    + rewrite (IH i); [reflexivity|exact Hi|].
      intros j Hj. apply (Hbefore (S j)). lia.
    + intros ->. by apply (Hbefore 0%nat); [lia|].
Qed.

(** The first stored copy of a stored document. *)
Lemma first_copy (d : Doc) (l : list Doc) :
  d ∈ l -> exists i, l !! i = Some d /\ forall (j : nat), (j < i)%nat -> l !! j <> Some d.
Proof.
  induction l as [|x r IH]; intros Hin; [by apply elem_of_nil in Hin|].
  destruct (decide (x = d)) as [->|Hne].
  - exists 0%nat. split; [reflexivity|]. intros j Hj. lia.
  - apply elem_of_cons in Hin as [->|Hin]; [done|].
    destruct (IH Hin) as (i & Hi & Hbefore). exists (S i). split; [exact Hi|].
    intros [|j] Hj; simpl; [congruence|]. apply Hbefore. lia.
Qed.

(** The document a single-document write acts on: the first match in the
    order of the [sort], the first stored match without one. *)
Lemma findOneAndUpdate_target (q : Query) (u : Update) (o : QueryOptions) (w : World)
  (d : Doc) :
  head (hits q (opt_sort o) w) = Some d ->
  exists i,
    store w !! i = Some d
    /\ mem_findOneAndUpdate q u o w
       = (Returned (Some (apply_update u d)),
          mkWorld (<[i := apply_update u d]> (store w)) (next_id w) (clock w) (cache w)
            (trace w) (race w)).
Proof.
  unfold hits. intros Hh. unfold mem_findOneAndUpdate. unfold bind at 1. unfold get_store at 1.
  cbv beta iota. destruct (opt_sort o) as [spec|].
  - rewrite Hh. apply sorted_head_matches in Hh as [_ Hin].
    destruct (first_copy _ _ Hin) as (i & Hi & Hbefore). exists i. split; [exact Hi|].
    by rewrite (update_copy_hit _ _ _ i Hi Hbefore).
  - cbn [sort_docs] in Hh.
    assert (exists i, store w !! i = Some d /\ matches q d = true
            /\ forall (j : nat) (d' : Doc), (j < i)%nat -> store w !! j = Some d' ->
                 matches q d' = false) as (i & Hi & Hm & Hbefore).
    { clear u. revert Hh. generalize (store w). intros l.
      induction l as [|x r IH]; [discriminate|].
      rewrite filter_cons. destruct (decide (matches q x = true)) as [Hx|Hx].
      - intros [= ->]. exists 0%nat. repeat split; [done|]. intros j d' Hj. lia.
      - intros Hh. destruct (IH Hh) as (i & Hi & Hm & Hbefore). exists (S i).
        repeat split; [exact Hi|exact Hm|].
        intros [|j] d' Hj Hd'; simpl in Hd'.
        + injection Hd' as <-. by destruct (matches q x).
        + apply (Hbefore j); [lia|exact Hd']. }
    exists i. split; [exact Hi|].
    by rewrite (update_first_hit _ _ _ i d Hi Hm Hbefore).
Qed.

(** With unique identifiers, the only match of an identifier query. *)
Lemma hits_by_id (w : World) (i : nat) (d : Doc) (n : N) (s : option SortSpec) :
  ids_unique (store w) -> store w !! i = Some d -> id_of d = Some n ->
  hits (by_id (VId n)) s w = [d].
Proof.
  intros Hids Hi Hn. unfold hits.
  assert (filter (fun d' => matches (by_id (VId n)) d' = true) (store w) = [d]) as ->.
  { assert (forall (j : nat) (d' : Doc), store w !! j = Some d' -> j <> i ->
              matches (by_id (VId n)) d' <> true) as Hothers.
    { intros j d' Hj Hne Hm. unfold by_id in Hm. rewrite matches_single in Hm.
      apply by_id_hit in Hm. by apply (other_ids _ i j d d' n Hids Hi Hn Hj). }
    assert (matches (by_id (VId n)) d = true) as Hm
      by (unfold by_id; rewrite matches_single; by apply by_id_hit).
    clear Hids Hn. revert i Hi Hothers. generalize (store w). intros l.
    induction l as [|x r IH]; intros i Hi Hothers; [discriminate|].
    destruct i as [|i].
    - injection Hi as ->. rewrite filter_cons_True by exact Hm. f_equal.
      apply filter_none. apply Forall_forall. intros y Hy.
      apply list_elem_of_lookup in Hy as [j Hj]. apply (Hothers (S j)); [exact Hj|lia].
    - rewrite filter_cons_False by (apply (Hothers 0%nat); [reflexivity|lia]).
      apply (IH i); [exact Hi|]. intros j d' Hj Hne. apply (Hothers (S j)); [exact Hj|lia]. }
  destruct s; reflexivity.
Qed.

(** The engine updates the stored record under an identifier. *)
Lemma update_by_id_mem (u : Update) (o : QueryOptions) (w : World) (i : nat) (d : Doc)
  (n : N) :
  ids_unique (store w) -> store w !! i = Some d -> id_of d = Some n ->
  mem_findOneAndUpdate (by_id (VId n)) u o w
  = (Returned (Some (apply_update u d)),
     mkWorld (<[i := apply_update u d]> (store w)) (next_id w) (clock w) (cache w) (trace w)
       (race w)).
Proof.
  intros Hids Hi Hn.
  destruct (findOneAndUpdate_target (by_id (VId n)) u o w d) as (i' & Hi' & ->).
  - by rewrite (hits_by_id w i d n _ Hids Hi Hn).
  - assert (i' = i) as -> by (eapply (NoDup_fmap_lookup id_of); [apply Hids|eauto..]).
    reflexivity.
Qed.

(** [updateById] of the repository: the record under the identifier is
    updated in place, whatever its [deletedAt]. *)
Lemma repo_updateById_mem (u : Update) (o : QueryOptions) (w : World) (i : nat) (d : Doc)
  (n : N) :
  ids_unique (store w) -> store w !! i = Some d -> id_of d = Some n ->
  exists w',
    repo_updateById MemModel (VId n) u o w = (Returned (Some (apply_update u d)), w')
    /\ store w' = <[i := apply_update u d]> (store w)
    /\ clock w' = clock w /\ cache w' = cache w /\ next_id w' = next_id w.
Proof.
  intros Hids Hi Hn.
  set (w0 := logged (EvFindByIdAndUpdate (VId n) u o) w).
  pose proof (update_by_id_mem u o w0 i d n Hids Hi Hn) as Hupd.
  exists (mkWorld (<[i := apply_update u d]> (store w0)) (next_id w0) (clock w0) (cache w0)
            (trace w0) (race w0)).
  split; [|repeat split].
  unfold repo_updateById. rewrite to_ObjectId_id, bind_ret.
  cbn [m_findByIdAndUpdate MemModel].
  rewrite (bind_returned _ _ w w0 tt) by reflexivity.
  exact Hupd.
Qed.

Lemma stamp_is_insert (d : Doc) (t : Z) :
  apply_update (set_deletedAt t) d = <["deletedAt" := VDate t]> d.
Proof. unfold apply_update, set_deletedAt. by rewrite insert_union_singleton_l. Qed.

(** [deleteById] of the repository, soft: the record is stamped in place. *)
Lemma deleteById_soft_mem (w : World) (i : nat) (d : Doc) (n : N) :
  ids_unique (store w) -> store w !! i = Some d -> id_of d = Some n ->
  exists w',
    repo_deleteById MemModel (VId n) true w
    = (Returned (Some (<["deletedAt" := VDate (clock w)]> d)), w')
    /\ store w' = <[i := <["deletedAt" := VDate (clock w)]> d]> (store w)
    /\ clock w' = clock w /\ cache w' = cache w /\ next_id w' = next_id w.
Proof.
  intros Hids Hi Hn.
  destruct (repo_updateById_mem (set_deletedAt (clock w)) no_options w i d n Hids Hi Hn)
    as (w' & Hupd & Hst & Hrest).
  rewrite stamp_is_insert in Hupd, Hst.
  exists w'. split; [|split; [exact Hst|exact Hrest]].
  unfold repo_deleteById. rewrite to_ObjectId_id, bind_ret.
  rewrite (bind_returned _ _ w w (clock w)) by reflexivity.
  exact Hupd.
Qed.

(** ** Error propagation of the Service *)

(** A [try] whose [catch] is the one of the operations rejects only when
    the body rejects with [undefined] or [null], and then with the
    [TypeError] raised in the [catch]. *)
Lemma try_catch_rejects {B} (wrap : ErrorResponse -> B) (fallback : string)
  (body : M B) (w w' : World) (e : Exn) :
  try_catch body (as_response wrap fallback) w = (Thrown e, w') <->
  exists n, body w = (Thrown (ExnNullish n), w') /\ e = NO_MESSAGE n.
Proof.
  unfold try_catch. destruct (body w) as [[a|e0|] w1]; split.
  - discriminate.
  - intros (n & H & _). discriminate H.
  - destruct e0; cbn [as_response]; unfold ret, throw; intros H; try discriminate H.
    injection H as <- <-. by eexists.
  - intros (n & H & ->). injection H as -> <-. reflexivity.
  - discriminate.
  - intros (n & H & _). discriminate H.
Qed.

(** C1 (the code departs from the claim): [findOne] on a query that matches
    nothing rejects with the NOT_FOUND error instead of returning an error
    envelope, and [findAll] lets an engine failure (here a negative skip)
    through: in both, the promise of [getCachedData] is returned from inside
    the [try] without being awaited. *)
Theorem findOne_findAll_reject (sq : Query -> string) (sa : FindAllArgs -> string) :
  fst (findOne MemModel plain_config sq {[ "name" := CEq (VStr "x") ]} false false empty_world)
    = Thrown (NOT_FOUND "The requested document was not found.")
  /\ fst (findAll MemModel plain_config sa
            (mkArgs None None (Some 2) (Some (-5)) None None None None) empty_world)
    = Thrown (ExnError "Skip value must be non-negative").
Proof. split; vm_compute; reflexivity. Qed.

(** C4 (the code departs from the claim): with slug generation enabled and
    the record [{name: Alpha, slug: alpha}] stored, renaming it to [Beta]
    through [updateById] or through [update] leaves the slug [alpha] in
    the stored record. *)
Theorem update_keeps_stale_slug :
  let w := world_of [alpha_record] 1000 in
  let renamed : Doc := {[ "_id" := VId 1; "name" := VStr "Beta"; "slug" := VStr "alpha" ]} in
  fst (updateById MemModel slug_config [] (VId 1) (UFields {[ "name" := VStr "Beta" ]}) w)
    = Returned (Success None (PDoc renamed))
  /\ store (snd (updateById MemModel slug_config [] (VId 1)
                   (UFields {[ "name" := VStr "Beta" ]}) w))
     = [renamed]
  /\ fst (update MemModel slug_config [] 10 {[ "name" := CEq (VStr "Alpha") ]}
            (UFields {[ "name" := VStr "Beta" ]}) false w)
     = Returned (Success None (PDoc renamed))
  /\ store (snd (update MemModel slug_config [] 10 {[ "name" := CEq (VStr "Alpha") ]}
                   (UFields {[ "name" := VStr "Beta" ]}) false w))
     = [renamed].
Proof. repeat split; vm_compute; reflexivity. Qed.

(** C9 (the code departs from the claim): [restoreMany] clears [deletedAt]
    but leaves [deletedBy] on the record, where [restore] clears both; and
    [restoreById] on a live record returns that record instead of null. *)
Theorem restoreMany_keeps_deletedBy :
  let w := world_of [deleted_record] 9 in
  store (snd (repo_restoreMany MemModel ∅ w))
    = [ {[ "_id" := VId 1; "name" := VStr "a"; "deletedBy" := VStr "u1" ]} ]
  /\ store (snd (repo_restore MemModel ∅ w))
    = [ {[ "_id" := VId 1; "name" := VStr "a" ]} ]
  /\ is_live alpha_record = true
  /\ fst (repo_restoreById MemModel (VId 1) (world_of [alpha_record] 9))
    = Returned (Some alpha_record).
Proof. repeat split; vm_compute; reflexivity. Qed.

(** ** Soft-delete visibility of the Repository *)

Lemma repo_delete_soft_reaches (q : Query) (o : QueryOptions) (w : World) (i : nat) (d : Doc) :
  opt_sort o = None ->
  store w !! i = Some d -> matches q d = true ->
  (forall (j : nat) (d' : Doc), (j < i)%nat -> store w !! j = Some d' -> matches q d' = false) ->
  exists w',
    repo_delete MemModel q o true w
      = (Returned (Some (apply_update (set_deletedAt (clock w)) d)), w')
    /\ store w' = <[i := apply_update (set_deletedAt (clock w)) d]> (store w).
Proof.
  intros Ho Hi Hm Hbefore. eexists. unfold repo_delete, repo_update, effectiveQuery.
  unfold bind at 1, now. cbv beta iota. cbn [m_findOneAndUpdate MemModel].
  unfold bind at 1, log. cbv beta iota.
  unfold mem_findOneAndUpdate, bind, get_store, put_store, ret. cbn [store clock].
  rewrite Ho, (update_first_hit _ _ _ i d Hi Hm Hbefore). cbn [store]. split; reflexivity.
Qed.

(** Some record matches: the query has a first hit, a stored record that
    matches. *)
Lemma hits_head (q : Query) (s : option SortSpec) (w : World) (d : Doc) :
  d ∈ store w -> matches q d = true ->
  exists d', head (hits q s w) = Some d' /\ d' ∈ store w /\ matches q d' = true.
Proof.
  intros Hin Hm. unfold hits.
  destruct (sort_docs s (filter (fun d => matches q d = true) (store w))) as [|d' r] eqn:Hs.
  - assert (d ∈ sort_docs s (filter (fun d => matches q d = true) (store w))) as Hd
      by (rewrite sort_docs_perm; by apply list_elem_of_filter).
    rewrite Hs in Hd. by apply elem_of_nil in Hd.
  - exists d'. split; [reflexivity|].
    destruct (sorted_head_matches q s (store w) d') as [Hm' Hin']; [by rewrite Hs|]. done.
Qed.

Lemma repo_findOne_included (q : Query) (s : option SortSpec) (w : World) (d : Doc) :
  d ∈ store w -> matches q d = true ->
  exists d' w',
    repo_findOne MemModel q (mkOptions s None None) true w = (Returned (Some d'), w')
    /\ head (hits q s w) = Some d' /\ d' ∈ store w /\ matches q d' = true.
Proof.
  intros Hin Hm. destruct (hits_head q s w d Hin Hm) as (d' & Hh & Hin' & Hm').
  exists d', (logged (EvFindOne q (mkOptions s None None)) w).
  split; [|by repeat split].
  unfold repo_findOne, effectiveQuery. cbn [m_findOne MemModel].
  rewrite (bind_returned _ _ w (logged (EvFindOne q (mkOptions s None None)) w) tt)
    by reflexivity.
  unfold bind. rewrite select_plain. unfold ret. f_equal. f_equal. exact Hh.
Qed.

Lemma repo_countDocuments_included (q : Query) (w : World) :
  exists w',
    repo_countDocuments MemModel q no_options true w = (Returned (count_of q w), w')
    /\ same_data w w'.
Proof.
  exists (logged (EvCountDocuments q no_options) w). split; [reflexivity|].
  apply same_data_logged.
Qed.

Lemma repo_update_included (q : Query) (u : Update) (o : QueryOptions) (w : World) (d : Doc) :
  head (hits q (opt_sort o) w) = Some d ->
  exists (i : nat) w',
    repo_update MemModel q u o true w = (Returned (Some (apply_update u d)), w')
    /\ store w !! i = Some d
    /\ store w' = <[i := apply_update u d]> (store w).
Proof.
  intros Hh. set (w0 := logged (EvFindOneAndUpdate q u o) w).
  destruct (findOneAndUpdate_target q u o w0 d Hh) as (i & Hi & Hupd).
  exists i. eexists. split; [|split; [exact Hi|]].
  - unfold repo_update, effectiveQuery. cbn [m_findOneAndUpdate MemModel].
    rewrite (bind_returned _ _ w w0 tt) by reflexivity. exact Hupd.
  - reflexivity.
Qed.

Lemma repo_delete_soft_included (q : Query) (o : QueryOptions) (w : World) (d : Doc) :
  head (hits q (opt_sort o) w) = Some d ->
  exists (i : nat) w',
    repo_delete MemModel q o true w
      = (Returned (Some (apply_update (set_deletedAt (clock w)) d)), w')
    /\ store w !! i = Some d
    /\ store w' = <[i := apply_update (set_deletedAt (clock w)) d]> (store w).
Proof.
  intros Hh.
  destruct (repo_update_included q (set_deletedAt (clock w)) o w d Hh)
    as (i & w' & Hupd & Hi & Hst).
  exists i, w'. split; [|by split].
  unfold repo_delete. rewrite (bind_returned _ _ w w (clock w)) by reflexivity. exact Hupd.
Qed.

Lemma repo_deleteMany_soft_mem (q : Query) (w : World) :
  exists (n : Z) w',
    repo_deleteMany MemModel q true w = (Returned n, w')
    /\ forall (i : nat) (d : Doc),
         store w !! i = Some d ->
         store w' !! i
         = Some (if matches q d then apply_update (set_deletedAt (clock w)) d else d).
Proof.
  eexists _, _. split.
  - unfold repo_deleteMany. rewrite (bind_returned _ _ w w (clock w)) by reflexivity.
    cbn [m_updateMany MemModel]. unfold bind, log, get_store, put_store, ret. reflexivity.
  - intros i d Hi. cbn [store]. unfold update_all. by rewrite list_lookup_fmap, Hi.
Qed.

(** C2, as stated, fails.  The soft path of [delete] passes
    [includeDeleted = true] to [update], and [updateById], [deleteById]
    and [deleteMany] hand the caller's identifier or filter to the engine
    as it is: each of them, called with its default arguments, changes a
    record that is already soft-deleted. *)
Lemma repo_delete_hits_soft_deleted :
  let w := world_of [deleted_record] 9 in
  let q : Query := {[ "name" := CEq (VStr "a") ]} in
  let restamped := <["deletedAt" := VDate 9]> deleted_record in
  is_deleted deleted_record = true
  /\ fst (repo_delete MemModel q no_options true w) = Returned (Some restamped)
  /\ ~ deleted_untouched w (snd (repo_delete MemModel q no_options true w))
  /\ fst (repo_deleteById MemModel (VId 1) true w) = Returned (Some restamped)
  /\ store (snd (repo_deleteById MemModel (VId 1) true w)) = [restamped]
  /\ fst (repo_deleteMany MemModel q true w) = Returned 1
  /\ store (snd (repo_deleteMany MemModel q true w)) = [restamped]
  /\ fst (repo_updateById MemModel (VId 1) (UFields {[ "name" := VStr "b" ]}) no_options w)
     = Returned (Some (<["name" := VStr "b"]> deleted_record))
  /\ store (snd (repo_updateById MemModel (VId 1) (UFields {[ "name" := VStr "b" ]})
                   no_options w))
     = [<["name" := VStr "b"]> deleted_record].
Proof.
  cbv zeta. split; [vm_compute; reflexivity|]. split; [vm_compute; reflexivity|].
  split; [|repeat split; vm_compute; reflexivity].
  intros H. specialize (H 0%nat deleted_record).
  assert (store (world_of [deleted_record] 9) !! 0%nat = Some deleted_record) as H0
    by (vm_compute; reflexivity).
  assert (is_deleted deleted_record = true) as H1 by (vm_compute; reflexivity).
  specialize (H H0 H1). vm_compute in H. discriminate H.
Qed.

(** C2, amended.  With the default arguments [findAll], [findOne],
    [findById], [update] (under any options), [updateMany],
    [countDocuments] and [exists] leave soft-deleted records out of what
    they match or change.  With [includeDeleted = true] each operation that
    has the argument ([exists], [findAll], [findOne], [countDocuments],
    [update], [findById]) reaches a matching record whether or not it is
    soft-deleted: [update] changes the first hit of the caller's query in
    the order of the [sort] option.  [restore] and [restoreMany] change
    soft-deleted records only.  The operations without a visibility
    argument act on soft-deleted records as on live ones: the soft path of
    [delete] stamps the first hit of the caller's query, [updateById] and
    the soft path of [deleteById] change the record under the identifier,
    and the soft path of [deleteMany] stamps every record the filter
    matches. *)
Theorem soft_delete_default_visibility
  (q : Query) (o : QueryOptions) (u : Update) (id : Value) (w : World) :
  ids_unique (store w) ->
  (forall ds w', repo_findAll MemModel q o false w = (Returned ds, w') ->
                 Forall (fun d => is_live d = true) ds)
  /\ (forall d w', repo_findOne MemModel q o false w = (Returned (Some d), w') ->
                   is_live d = true)
  /\ (forall d w', repo_findById MemModel id false w = (Returned (Some d), w') ->
                   is_live d = true)
  /\ (forall r w', repo_update MemModel q u o false w = (r, w') -> deleted_untouched w w')
  /\ (forall r w', repo_updateMany MemModel q u w = (r, w') -> deleted_untouched w w')
  /\ (exists w',
        repo_countDocuments MemModel q no_options false w =
          (Returned (Z.of_nat (length (filter (fun d => matches (not_deleted q) d = true)
                                         (filter (fun d => is_live d = true) (store w))))), w')
        /\ same_data w w')
  /\ (exists w',
        repo_exists MemModel q false w =
          (Returned (existsb (matches (not_deleted q))
                       (filter (fun d => is_live d = true) (store w))), w')
        /\ same_data w w')
  /\ (forall d, d ∈ store w -> matches q d = true ->
        (exists w', repo_exists MemModel q true w = (Returned true, w'))
        /\ (exists ds w',
              repo_findAll MemModel q (mkOptions (opt_sort o) None None) true w
                = (Returned ds, w') /\ d ∈ ds)
        /\ (exists d' w',
              repo_findOne MemModel q (mkOptions (opt_sort o) None None) true w
                = (Returned (Some d'), w')
              /\ head (hits q (opt_sort o) w) = Some d'
              /\ d' ∈ store w /\ matches q d' = true))
  /\ (exists w',
        repo_countDocuments MemModel q no_options true w = (Returned (count_of q w), w')
        /\ same_data w w')
  /\ (forall d, head (hits q (opt_sort o) w) = Some d ->
        exists (i : nat) w',
          repo_update MemModel q u o true w = (Returned (Some (apply_update u d)), w')
          /\ store w !! i = Some d
          /\ store w' = <[i := apply_update u d]> (store w))
  /\ (forall (i : nat) (d : Doc) (n : N),
        store w !! i = Some d -> id_of d = Some n ->
        exists w',
          repo_findById MemModel (VId n) true w = (Returned (Some d), w') /\ same_data w w')
  /\ (forall r w', repo_restore MemModel q w = (r, w') -> live_untouched w w')
  /\ (forall r w', repo_restoreMany MemModel q w = (r, w') -> live_untouched w w')
  /\ (forall d, head (hits q (opt_sort o) w) = Some d ->
        exists (i : nat) w',
          repo_delete MemModel q o true w
            = (Returned (Some (apply_update (set_deletedAt (clock w)) d)), w')
          /\ store w !! i = Some d
          /\ store w' = <[i := apply_update (set_deletedAt (clock w)) d]> (store w))
  /\ (forall (i : nat) (d : Doc) (n : N),
        store w !! i = Some d -> id_of d = Some n ->
        (exists w',
           repo_updateById MemModel (VId n) u o w = (Returned (Some (apply_update u d)), w')
           /\ store w' = <[i := apply_update u d]> (store w))
        /\ (exists w',
              repo_deleteById MemModel (VId n) true w
                = (Returned (Some (<["deletedAt" := VDate (clock w)]> d)), w')
              /\ store w' = <[i := <["deletedAt" := VDate (clock w)]> d]> (store w)))
  /\ (exists (n : Z) w',
        repo_deleteMany MemModel q true w = (Returned n, w')
        /\ forall (i : nat) (d : Doc),
             store w !! i = Some d ->
             store w' !! i
             = Some (if matches q d then apply_update (set_deletedAt (clock w)) d else d)).
Proof.
  intros Hids. repeat apply conj.
  - intros ds w'. apply repo_findAll_default_live.
  - intros d w'. apply repo_findOne_default_live.
  - intros d w'. apply repo_findById_default_live.
  - intros r w'. apply repo_update_default_untouched.
  - intros r w'. apply repo_updateMany_untouched.
  - apply repo_countDocuments_default.
  - apply repo_exists_default.
  - intros d Hin Hm. split; [|split].
    + by eapply repo_exists_included.
    + by apply repo_findAll_included.
    + by eapply repo_findOne_included.
  - apply repo_countDocuments_included.
  - intros d. apply repo_update_included.
  - intros i d n Hi Hn. by apply (findById_mem_hit w i d n true Hids Hi Hn).
  - intros r w'. by apply repo_restore_untouched.
  - intros r w'. apply repo_restoreMany_untouched.
  - intros d. apply repo_delete_soft_included.
  - intros i d n Hi Hn. split.
    + destruct (repo_updateById_mem u o w i d n Hids Hi Hn) as (w' & H1 & H2 & _).
      by exists w'.
    + destruct (deleteById_soft_mem w i d n Hids Hi Hn) as (w' & H1 & H2 & _).
      by exists w'.
  - apply repo_deleteMany_soft_mem.
Qed.

Lemma soft_delete_default_visibility_witness :
  let w := world_of [deleted_record] 9 in
  ids_unique (store w)
  /\ fst (repo_exists MemModel ∅ false w) = Returned false
  /\ (exists w', repo_exists MemModel ∅ true w = (Returned true, w'))
  /\ (exists w', repo_findById MemModel (VId 1) true w = (Returned (Some deleted_record), w')).
Proof.
  cbv zeta.
  assert (ids_unique (store (world_of [deleted_record] 9))) as Hids.
  { unfold ids_unique. apply (bool_decide_unpack _). vm_compute. exact I. }
  split; [exact Hids|].
  destruct (soft_delete_default_visibility ∅ no_options (UUnset []) (VId 1) _ Hids)
    as (_ & _ & _ & _ & _ & _ & (w1 & Hex & _) & Hinc & _ & _ & Hid & _).
  split; [|split].
  - rewrite Hex. vm_compute. reflexivity.
  - apply (Hinc deleted_record).
    + vm_compute. apply list_elem_of_here.
    + vm_compute. reflexivity.
  - destruct (Hid 0%nat deleted_record 1%N) as (w' & H & _);
      [vm_compute; reflexivity|vm_compute; reflexivity|].
    by exists w'.
Defined.

(** ** The slug stage of [create] and [bulkCreate] *)

Lemma generateUniqueSlug_skips (m : Model) (cfg : Config) (fuel : nat) (doc : Doc)
  (excludeId : option Value) :
  has_key doc (slug_sourceField cfg) = true ->
  truthy (getv doc (slug_sourceField cfg)) = false ->
  generateUniqueSlug m cfg fuel doc excludeId = ret doc.
Proof.
  intros Hk Ht. unfold generateUniqueSlug. rewrite Hk, Ht.
  destruct (slug_enabled cfg); reflexivity.
Qed.

Lemma generateUniqueSlug_disabled (m : Model) (cfg : Config) (fuel : nat) (doc : Doc)
  (excludeId : option Value) :
  generateUniqueSlug m (with_slug cfg false) fuel doc excludeId = ret doc.
Proof. reflexivity. Qed.

Lemma generateUniqueSlug_missing (m : Model) (cfg : Config) (fuel : nat) (doc : Doc)
  (excludeId : option Value) :
  slug_enabled cfg = true ->
  has_key doc (slug_sourceField cfg) = false ->
  generateUniqueSlug m cfg fuel doc excludeId = throw (ExnError (source_missing cfg)).
Proof. intros He Hk. unfold generateUniqueSlug. rewrite He, Hk. reflexivity. Qed.

Lemma same_data_refl (w : World) : same_data w w.
Proof. by repeat split. Qed.

Lemma same_data_trans (w1 w2 w3 : World) : same_data w1 w2 -> same_data w2 w3 -> same_data w1 w3.
Proof.
  unfold same_data. intros (a & b & c & d) (a' & b' & c' & d').
  repeat split; congruence.
Qed.

Lemma window_cases (o : QueryOptions) (l : list Doc) (w : World) :
  (exists r, (forall w0, window o l w0 = (Returned r, w0)) /\ r `sublist_of` l)
  \/ (exists k, opt_skip o = Some k /\ k < 0
                /\ forall w0, window o l w0
                              = (Thrown (ExnError "Skip value must be non-negative"), w0)).
Proof.
  unfold window. destruct (opt_skip o) as [k|].
  - destruct (k <? 0) eqn:Hk.
    + right. exists k. apply Z.ltb_lt in Hk. by repeat split.
    + left. eexists. split; [reflexivity|].
      etrans; [apply apply_limit_sublist|apply sublist_drop].
  - left. eexists. split; [reflexivity|]. apply apply_limit_sublist.
Qed.

Lemma find_calls_app (t1 t2 : list Event) :
  find_calls (t1 ++ t2) = (find_calls t1 ++ find_calls t2)%list.
Proof. unfold find_calls. apply omap_app. Qed.

Lemma applyPopulation_mem (cfg : Config) (d : Doc) (w : World) :
  exists w', applyPopulation MemModel cfg d w = (Returned d, w') /\ same_data w w'
             /\ exists evs, trace w' = (trace w ++ evs)%list /\ find_calls evs = [].
Proof.
  unfold applyPopulation. destruct (_ || _)%bool.
  - exists w. split; [reflexivity|]. split; [apply same_data_refl|]. exists [].
    by rewrite app_nil_r.
  - eexists. split; [reflexivity|]. split; [by repeat split|]. by eexists.
Qed.

Lemma populate_all_mem (cfg : Config) (ds : list Doc) (w : World) :
  exists w', promise_all (applyPopulation MemModel cfg) ds w = (Returned ds, w')
             /\ same_data w w'
             /\ exists evs, trace w' = (trace w ++ evs)%list /\ find_calls evs = [].
Proof.
  assert (exists w', run_all (applyPopulation MemModel cfg) ds w = (map Returned ds, w')
                     /\ same_data w w'
                     /\ exists evs, trace w' = (trace w ++ evs)%list /\ find_calls evs = [])
    as (w' & Hr & S & T).
  { revert w. induction ds as [|d r IH]; intros w.
    - exists w. split; [reflexivity|]. split; [apply same_data_refl|].
      exists []. by rewrite app_nil_r.
    - destruct (applyPopulation_mem cfg d w) as (w1 & H1 & S1 & evs1 & T1 & F1).
      destruct (IH w1) as (w2 & H2 & S2 & evs2 & T2 & F2).
      exists w2. split; [exact (run_all_cons _ _ _ _ _ _ _ _ H1 H2)|].
      split; [by eapply same_data_trans|].
      exists (evs1 ++ evs2)%list. rewrite T2, T1, find_calls_app, F1, F2.
      by rewrite app_assoc. }
  exists w'. split; [by apply promise_all_returned|]. by split.
Qed.

Lemma find_mem (q : Query) (o : QueryOptions) (w : World) :
  m_find MemModel q o w = window o (hits q (opt_sort o) w) (logged (EvFind q o) w).
Proof. reflexivity. Qed.

Lemma count_mem (q : Query) (w : World) :
  m_countDocuments MemModel q no_options w
  = (Returned (count_of q w), logged (EvCountDocuments q no_options) w).
Proof. reflexivity. Qed.

Lemma count_of_same (q : Query) (w w' : World) : same_data w w' -> count_of q w' = count_of q w.
Proof. intros (Hs & _). unfold count_of. by rewrite Hs. Qed.

Lemma remaining_max (r : Z) : (if 0 <? r then r else 0) = Z.max 0 r.
Proof. destruct (0 <? r) eqn:H; [apply Z.ltb_lt in H|apply Z.ltb_ge in H]; lia. Qed.

Lemma findAll_getter_mem (cfg : Config) (a : FindAllArgs) (w : World) :
  let incl := default false (a_includeDeleted a) in
  let q := effectiveQuery incl (finalQuery cfg a) in
  let o := findAll_options cfg a in
  (exists docs w',
      (forall w0, window o (hits q (opt_sort o) w) w0 = (Returned docs, w0))
      /\ findAll_getter MemModel cfg a w = (Returned (findAll_envelope cfg a w docs), w')
      /\ same_data w w'
      /\ exists evs, trace w' = (trace w ++ EvFind q o :: evs)%list /\ find_calls evs = [])
  \/ (exists k w',
      opt_skip o = Some k /\ k < 0
      /\ findAll_getter MemModel cfg a w
         = (Thrown (ExnError "Skip value must be non-negative"), w')
      /\ same_data w w'
      /\ exists evs, trace w' = (trace w ++ EvFind q o :: evs)%list /\ find_calls evs = []).
Proof.
  intros incl q o.
  destruct (window_cases o (hits q (opt_sort o) w) w) as [(docs & Hw & _)|(k & Hk & Hneg & Hw)].
  - left. exists docs.
    unfold findAll_getter. fold incl. unfold bind at 1, promise_both.
    unfold repo_findAll, repo_countDocuments. fold q. fold o.
    rewrite find_mem, Hw, count_mem.
    change (omap rejection [Returned docs] ++ omap rejection [Returned _])%list
      with (@nil Exn).
    cbn [first_rejection fst snd].
    set (w1 := logged _ (logged _ w)).
    assert (same_data w w1) as S1 by (by repeat split).
    destruct (populate_all_mem cfg docs w1) as (w2 & Hp & S2 & evs2 & T2 & F2).
    assert (exists w3, (if default (populate_defaultPopulate cfg) (a_populate a)
                        then promise_all (applyPopulation MemModel cfg) docs
                        else ret docs) w1 = (Returned docs, w3) /\ same_data w1 w3
                       /\ exists evs, trace w3 = (trace w1 ++ evs)%list
                                      /\ find_calls evs = [])
      as (w3 & Hp3 & S3 & evs3 & T3 & F3).
    { destruct (default (populate_defaultPopulate cfg) (a_populate a)).
      - exists w2. split; [exact Hp|]. split; [exact S2|]. by exists evs2.
      - exists w1. split; [reflexivity|]. split; [apply same_data_refl|].
        exists []. by rewrite app_nil_r. }
    unfold bind at 1. rewrite Hp3. unfold bind at 1. rewrite count_mem.
    eexists. split; [exact Hw|]. split.
    + unfold ret, findAll_envelope. fold incl. fold q. rewrite remaining_max.
      assert (same_data w w3) as S13 by (by eapply same_data_trans).
      rewrite (count_of_same q w w3 S13).
      change (count_of (effectiveQuery incl ∅) w1) with (count_of (effectiveQuery incl ∅) w).
      reflexivity.
    + split.
      * eapply same_data_trans; [exact S1|]. eapply same_data_trans; [exact S3|].
        apply same_data_logged.
      * exists ([EvCountDocuments (effectiveQuery incl ∅) no_options] ++ evs3
                ++ [EvCountDocuments q no_options])%list. split.
        -- unfold logged at 1. cbn [log snd trace]. rewrite T3.
           unfold w1, logged. cbn [log snd trace].
           rewrite <- !app_assoc. reflexivity.
        -- rewrite !find_calls_app, F3. reflexivity.
  - right. exists k.
    unfold findAll_getter. fold incl. unfold bind at 1, promise_both.
    unfold repo_findAll, repo_countDocuments. fold q. fold o.
    rewrite find_mem, Hw, count_mem.
    change (omap rejection [Thrown ?e] ++ omap rejection [Returned _])%list with [e].
    rewrite first_rejection_single.
    eexists. split; [exact Hk|]. split; [exact Hneg|]. split; [reflexivity|].
    split; [by repeat split|].
    exists [EvCountDocuments (effectiveQuery incl ∅) no_options]. split; [|reflexivity].
    unfold logged. cbn [log snd trace]. rewrite <- !app_assoc. reflexivity.
Qed.

Lemma findAll_uncached (m : Model) (cfg : Config) (sa : FindAllArgs -> string)
  (a : FindAllArgs) :
  cache_enabled cfg = false -> findAll m cfg sa a = findAll_getter m cfg a.
Proof.
  intros Hc. unfold findAll, settle, try_catch, getCachedData, bind, ret. rewrite Hc. reflexivity.
Qed.

Lemma finalPage_ge_1 (cfg : Config) (a : FindAllArgs) : 1 <= finalPage cfg a.
Proof. unfold finalPage. lia. Qed.



Lemma hits_length (q : Query) (s : option SortSpec) (w : World) :
  Z.of_nat (length (hits q s w)) = count_of q w.
Proof. unfold hits, count_of. by rewrite sort_docs_perm. Qed.

Lemma findAll_options_paginated (cfg : Config) (a : FindAllArgs) :
  default true (a_paginate a) = true ->
  findAll_options cfg a
  = mkOptions (Some (default (filter_defaultSort cfg) (a_sort a)))
      (Some ((finalPage cfg a - 1) * finalLimit cfg a)) (Some (finalLimit cfg a)).
Proof. intros Hp. unfold findAll_options. by rewrite Hp. Qed.

Lemma findAll_envelope_paginated (cfg : Config) (a : FindAllArgs) (w : World) (docs : list Doc) :
  default true (a_paginate a) = true ->
  findAll_envelope cfg a w docs
  = let incl := default false (a_includeDeleted a) in
    let n := count_of (effectiveQuery incl (finalQuery cfg a)) w in
    Success
      (Some (mkMeta (count_of (effectiveQuery incl ∅) w) n
               (Some (mkPaging (finalPage cfg a) (finalLimit cfg a)
                        (js_ceil_div n (finalLimit cfg a))
                        (Z.max 0 (n - finalPage cfg a * finalLimit cfg a))
                        (Z.of_nat (length docs))))))
      (PDocs docs).
Proof. intros Hp. unfold findAll_envelope. by rewrite Hp. Qed.

Lemma window_skip (o : QueryOptions) (k : Z) (l : list Doc) (w : World) :
  opt_skip o = Some k -> 0 <= k ->
  window o l w = (Returned (apply_limit (opt_limit o) (drop (Z.to_nat k) l)), w).
Proof.
  intros Hk Hpos. unfold window. rewrite Hk.
  replace (k <? 0) with false by lia. reflexivity.
Qed.


(** ** The combined query of [findAll] *)

Lemma matches_spec (q : Query) (d : Doc) :
  matches q d = true <-> forall k c, q !! k = Some c -> cond_matches d k c = true.
Proof. unfold matches. by rewrite bool_decide_eq_true. Qed.

Lemma filterAllowedFields_lookup_gen (cfg : Config) (q : Query) (k : string) :
  filterAllowedFields cfg q !! k
  = if (bool_decide (filter_allowedFields cfg = [])
        || bool_decide (k ∈ filter_allowedFields cfg))%bool
    then q !! k else None.
Proof.
  unfold filterAllowedFields. destruct (bool_decide (filter_allowedFields cfg = [])); [done|].
  cbn [orb]. destruct (bool_decide (k ∈ filter_allowedFields cfg)) eqn:Hin.
  - apply bool_decide_eq_true in Hin. destruct (q !! k) as [c|] eqn:Hq.
    + by apply map_lookup_filter_Some.
    + apply map_lookup_filter_None. by left.
  - apply bool_decide_eq_false in Hin. apply map_lookup_filter_None. right. intros c _. exact Hin.
Qed.

Lemma buildSearchQuery_spec (cfg : Config) (a : FindAllArgs) :
  buildSearchQuery cfg (a_searchTerm a)
  = match spec_search_term cfg a with
    | Some t =>
        {[ "$or" := COr (map (fun field => (field, mkRegex t (negb (search_caseSensitive cfg))))
                           (search_fields cfg)) ]}
    | None => ∅
    end.
Proof.
  unfold buildSearchQuery, spec_search_term. destruct (a_searchTerm a) as [t|]; [|done].
  destruct (String.eqb t ""), (search_enabled cfg), (bool_decide (search_fields cfg = []));
    reflexivity.
Qed.

Lemma search_cond_spec (cfg : Config) (t : string) (d : Doc) :
  cond_matches d "$or"
    (COr (map (fun field => (field, mkRegex t (negb (search_caseSensitive cfg))))
            (search_fields cfg)))
  = spec_search_hit cfg t d.
Proof.
  unfold spec_search_hit. cbn [cond_matches]. induction (search_fields cfg) as [|f r IH];
    [reflexivity|].
  cbn [map existsb fst snd]. rewrite IH. f_equal.
  unfold regex_test. cbn [re_ignoreCase re_term].
  destruct (getv d f); try reflexivity. by destruct (search_caseSensitive cfg).
Qed.

Lemma live_cond (d : Doc) : cond_matches d "deletedAt" (CEq VNull) = is_live d.
Proof. unfold is_live, is_deleted. cbn [cond_matches]. by rewrite negb_involutive. Qed.

(** The query [findAll] sends to the engine selects the records of the
    filtered count. *)
Lemma matches_final (cfg : Config) (a : FindAllArgs) (d : Doc) :
  matches (effectiveQuery (default false (a_includeDeleted a)) (finalQuery cfg a)) d
  = spec_filtered cfg a d.
Proof.
  apply eq_true_iff_eq. rewrite matches_spec. unfold spec_filtered, spec_visible.
  rewrite !andb_true_iff, bool_decide_eq_true. unfold map_Forall.
  set (incl := default false (a_includeDeleted a)).
  set (Q := default ∅ (a_query a)).
  assert (forall k c,
            finalQuery cfg a !! k = Some c <->
            (exists t, spec_search_term cfg a = Some t /\ k = "$or"
                       /\ c = COr (map (fun field =>
                                          (field, mkRegex t (negb (search_caseSensitive cfg))))
                                     (search_fields cfg)))
            \/ ((spec_search_term cfg a = None \/ k <> "$or")
                /\ (bool_decide (filter_allowedFields cfg = [])
                    || bool_decide (k ∈ filter_allowedFields cfg))%bool = true
                /\ Q !! k = Some c)) as Hfinal.
  { intros k c. unfold finalQuery. fold Q. rewrite lookup_union_Some_raw.
    rewrite buildSearchQuery_spec, filterAllowedFields_lookup_gen.
    destruct (spec_search_term cfg a) as [t|].
    - destruct (decide (k = "$or")) as [->|Hk].
      + rewrite lookup_singleton_eq. split.
        * intros [H|[H _]]; [|discriminate H]. left. exists t. split; [done|]. split; [done|].
          congruence.
        * intros [(t' & Ht & _ & ->)|([H|H] & _)]; [|discriminate H|done].
          injection Ht as <-. by left.
      + rewrite lookup_singleton_ne by done. split.
        * intros [H|[_ H]]; [discriminate H|]. right. split; [by right|].
          destruct (_ || _)%bool; [done|discriminate H].
        * intros [(_ & _ & H & _)|(_ & Ha & Hq)]; [done|]. right. split; [done|].
          by rewrite Ha.
    - rewrite lookup_empty. split.
      + intros [H|[_ H]]; [discriminate H|]. right. split; [by left|].
        destruct (_ || _)%bool; [done|discriminate H].
      + intros [(t & H & _)|(_ & Ha & Hq)]; [discriminate H|]. right. split; [done|].
        by rewrite Ha. }
  assert (forall k c,
            effectiveQuery incl (finalQuery cfg a) !! k = Some c <->
            (incl = false /\ k = "deletedAt" /\ c = CEq VNull)
            \/ ((incl = true \/ k <> "deletedAt") /\ finalQuery cfg a !! k = Some c)) as Heff.
  { intros k c. unfold effectiveQuery, not_deleted. destruct incl.
    - split; [intros H; right; split; [by left|done]|].
      intros [(H & _)|(_ & H)]; [discriminate H|done].
    - destruct (decide (k = "deletedAt")) as [->|Hk].
      + rewrite lookup_insert_eq. split.
        * intros [= <-]. by left.
        * intros [(_ & _ & ->)|([H|H] & _)]; [done|discriminate H|done].
      + rewrite lookup_insert_ne by done. split.
        * intros H. right. split; [by right|done].
        * intros [(_ & H & _)|(_ & H)]; [done|done]. }
  split.
  - intros Hall. split; [split|].
    + destruct incl eqn:Hi; [done|]. cbn [orb]. rewrite <- live_cond.
      apply Hall, Heff. by left.
    + destruct (spec_search_term cfg a) as [t|] eqn:Ht; [|done].
      rewrite <- search_cond_spec. apply Hall, Heff. right. split; [right; discriminate|].
      apply Hfinal. left. by exists t.
    + intros k c Hq Hkept. unfold spec_condition_kept in Hkept.
      apply andb_true_iff in Hkept as [Hkept Hdel].
      apply andb_true_iff in Hkept as [Hallowed Hor].
      apply Hall, Heff. right. split.
      * apply orb_true_iff in Hdel as [Hdel|Hdel]; [|by left]. right.
        apply negb_true_iff in Hdel. by apply String.eqb_neq.
      * apply Hfinal. right. split; [|by split].
        apply orb_true_iff in Hor as [Hor|Hor].
        -- right. apply negb_true_iff in Hor. by apply String.eqb_neq.
        -- left. by apply bool_decide_eq_true in Hor.
  - intros [[Hvis Hsearch] Hconds] k c Hk. apply Heff in Hk as [(Hi & -> & ->)|(Hdel & Hk)].
    + rewrite live_cond. rewrite Hi in Hvis. exact Hvis.
    + apply Hfinal in Hk as [(t & Ht & -> & ->)|(Hor & Hallowed & Hq)].
      * rewrite Ht in Hsearch. by rewrite search_cond_spec.
      * apply (Hconds k c Hq). unfold spec_condition_kept. rewrite Hallowed. cbn [andb].
        apply andb_true_iff. split; apply orb_true_iff.
        -- destruct Hor as [Hor|Hor]; [right; by apply bool_decide_eq_true|left].
           apply negb_true_iff. by apply String.eqb_neq.
        -- destruct Hdel as [Hdel|Hdel]; [by right|left].
           apply negb_true_iff. by apply String.eqb_neq.
Qed.

Lemma matches_unfiltered (a : FindAllArgs) (d : Doc) :
  matches (effectiveQuery (default false (a_includeDeleted a)) ∅) d = spec_visible a d.
Proof.
  unfold spec_visible, effectiveQuery. destruct (default false (a_includeDeleted a)).
  - apply matches_empty.
  - cbn [orb]. unfold not_deleted. rewrite insert_empty, matches_single. apply live_cond.
Qed.

Lemma filter_ext_bool (f g : Doc -> bool) (l : list Doc) :
  (forall d, f d = g d) ->
  filter (fun d => f d = true) l = filter (fun d => g d = true) l.
Proof.
  intros H. induction l as [|x r IH]; [reflexivity|].
  rewrite !filter_cons, IH.
  destruct (decide (f x = true)) as [Hf|Hf], (decide (g x = true)) as [Hg|Hg];
    try reflexivity; rewrite H in Hf; contradiction.
Qed.

Lemma count_filtered (cfg : Config) (a : FindAllArgs) (w : World) :
  count_of (effectiveQuery (default false (a_includeDeleted a)) (finalQuery cfg a)) w
  = Z.of_nat (length (filter (fun d => spec_filtered cfg a d = true) (store w))).
Proof. unfold count_of. by rewrite (filter_ext_bool _ _ _ (matches_final cfg a)). Qed.

Lemma count_unfiltered (a : FindAllArgs) (w : World) :
  count_of (effectiveQuery (default false (a_includeDeleted a)) ∅) w
  = Z.of_nat (length (filter (fun d => spec_visible a d = true) (store w))).
Proof. unfold count_of. by rewrite (filter_ext_bool _ _ _ (matches_unfiltered a)). Qed.

(** ** [findAll]: pagination metadata and the cache *)

Lemma findAll_cached (m : Model) (cfg : Config) (sa : FindAllArgs -> string) (a : FindAllArgs) :
  findAll m cfg sa a
  = getCachedData cfg (getCacheKey "findAll" (sa a)) (findAll_getter m cfg a).
Proof. reflexivity. Qed.

Lemma getCachedData_hit (cfg : Config) (key : string) (getter : M Envelope) (w : World)
  (e : CacheEntry) :
  cache_enabled cfg = true ->
  cache w !! key = Some e ->
  clock w - ce_timestamp e < cache_ttl cfg * 1000 ->
  getCachedData cfg key getter w = (Returned (ce_data e), w).
Proof.
  intros Hc He Ht. unfold getCachedData, cache_lookup, cache_resume, bind, cache_get, now, ret.
  rewrite Hc. cbn [negb]. cbv beta iota. rewrite He.
  replace (clock w - ce_timestamp e <? cache_ttl cfg * 1000) with true by lia. reflexivity.
Qed.

Lemma getCachedData_compute (cfg : Config) (key : string) (getter : M Envelope) (w w1 : World)
  (data : Envelope) :
  cache_enabled cfg = true ->
  (forall e, cache w !! key = Some e -> cache_ttl cfg * 1000 <= clock w - ce_timestamp e) ->
  getter w = (Returned data, w1) ->
  getCachedData cfg key getter w
  = (Returned data,
     mkWorld (store w1) (next_id w1) (clock w1)
       (<[key := mkEntry data (clock w1)]> (cache w1)) (trace w1) (race w1)).
Proof.
  intros Hc He Hg.
  unfold getCachedData, cache_lookup, cache_resume, cache_fill, bind, cache_get, cache_set,
    now, ret.
  rewrite Hc. cbn [negb]. cbv beta iota. destruct (cache w !! key) as [e|] eqn:Hk.
  - specialize (He e eq_refl).
    replace (clock w - ce_timestamp e <? cache_ttl cfg * 1000) with false by lia.
    rewrite Hg. reflexivity.
  - rewrite Hg. reflexivity.
Qed.

Lemma getCachedData_reject (cfg : Config) (key : string) (getter : M Envelope) (w w1 : World)
  (e : Exn) :
  (forall env, fresh_entry cfg key w <> Some env) ->
  getter w = (Thrown e, w1) ->
  getCachedData cfg key getter w = (Thrown e, w1).
Proof.
  intros Hf Hg.
  unfold getCachedData, cache_lookup, cache_resume, cache_fill, bind, cache_get, cache_set,
    now, ret.
  unfold fresh_entry in Hf. destruct (cache_enabled cfg); cbn [negb]; [|exact Hg].
  cbv beta iota. destruct (cache w !! key) as [c|].
  - destruct (clock w - ce_timestamp c <? cache_ttl cfg * 1000); [by edestruct Hf|].
    by rewrite Hg.
  - by rewrite Hg.
Qed.


Lemma fresh_entry_expired (cfg : Config) (key : string) (w : World) :
  cache_enabled cfg = true ->
  fresh_entry cfg key w = None ->
  forall e, cache w !! key = Some e -> cache_ttl cfg * 1000 <= clock w - ce_timestamp e.
Proof.
  unfold fresh_entry. intros -> H e He. rewrite He in H.
  destruct (clock w - ce_timestamp e <? cache_ttl cfg * 1000) eqn:Ht; [discriminate|lia].
Qed.

Lemma window_skip_negative (o : QueryOptions) (k : Z) (l r : list Doc) (w w' : World) :
  opt_skip o = Some k -> k < 0 -> window o l w <> (Returned r, w').
Proof.
  intros Hk Hneg. unfold window. rewrite Hk. replace (k <? 0) with true by lia. discriminate.
Qed.

(** A [findAll] that no cache entry answers, on the in-memory engine:
    either the page is computed and, with caching on, stored under the
    key, or the engine refuses a negative skip. *)
Lemma findAll_computed_mem (cfg : Config) (sa : FindAllArgs -> string) (a : FindAllArgs)
  (w : World) :
  fresh_entry cfg (getCacheKey "findAll" (sa a)) w = None ->
  let incl := default false (a_includeDeleted a) in
  let q := effectiveQuery incl (finalQuery cfg a) in
  let o := findAll_options cfg a in
  (exists docs w',
      (forall w0, window o (hits q (opt_sort o) w) w0 = (Returned docs, w0))
      /\ findAll MemModel cfg sa a w = (Returned (findAll_envelope cfg a w docs), w')
      /\ store w' = store w /\ next_id w' = next_id w /\ clock w' = clock w
      /\ cache w'
         = (if cache_enabled cfg
            then <[getCacheKey "findAll" (sa a)
                   := mkEntry (findAll_envelope cfg a w docs) (clock w)]> (cache w)
            else cache w)
      /\ exists evs, trace w' = (trace w ++ EvFind q o :: evs)%list /\ find_calls evs = [])
  \/ (exists k w',
      opt_skip o = Some k /\ k < 0
      /\ findAll MemModel cfg sa a w
         = (Thrown (ExnError "Skip value must be non-negative"), w')
      /\ same_data w w'
      /\ exists evs, trace w' = (trace w ++ EvFind q o :: evs)%list /\ find_calls evs = []).
Proof.
  intros Hfresh incl q o. rewrite findAll_cached.
  destruct (findAll_getter_mem cfg a w)
    as [(docs & wg & Hw & Hg & (Hs & Hn & Hck & Hca) & Ht)|(k & wg & Hk & Hneg & Hg & S & Ht)].
  - left. exists docs. destruct (cache_enabled cfg) eqn:Hc.
    + rewrite (getCachedData_compute cfg _ _ w wg _ Hc (fresh_entry_expired cfg _ w Hc Hfresh) Hg).
      eexists. split; [exact Hw|]. split; [reflexivity|]. cbn [store next_id clock cache trace].
      rewrite Hck, Hca. by repeat split.
    + rewrite <- findAll_cached, (findAll_uncached MemModel cfg sa a Hc), Hg.
      exists wg. by repeat split.
  - right. exists k, wg. split; [exact Hk|]. split; [exact Hneg|]. split; [|by split].
    apply getCachedData_reject; [|exact Hg]. intros env. by rewrite Hfresh.
Qed.

Lemma findAll_envelope_spec (cfg : Config) (a : FindAllArgs) (w : World) (docs : list Doc) :
  default true (a_paginate a) = true ->
  findAll_envelope cfg a w docs
  = let n := Z.of_nat (length (filter (fun d => spec_filtered cfg a d = true) (store w))) in
    Success
      (Some (mkMeta (Z.of_nat (length (filter (fun d => spec_visible a d = true) (store w)))) n
               (Some (mkPaging (finalPage cfg a) (finalLimit cfg a)
                        (js_ceil_div n (finalLimit cfg a))
                        (Z.max 0 (n - finalPage cfg a * finalLimit cfg a))
                        (Z.of_nat (length docs))))))
      (PDocs docs).
Proof.
  intros Hp. rewrite (findAll_envelope_paginated cfg a w docs Hp). cbv zeta.
  by rewrite count_filtered, count_unfiltered.
Qed.




Lemma js_ceil_div_nonpositive (n l : Z) :
  0 <= n -> l <= 0 ->
  (l = 0 -> 0 < n -> js_ceil_div n l = JPosInf)
  /\ (l = 0 -> n = 0 -> js_ceil_div n l = JNaN)
  /\ (l < 0 -> js_ceil_div n l = JInt (- (n / - l))).
Proof.
  intros Hn Hl. unfold js_ceil_div. repeat split.
  - intros -> Hpos. cbn [Z.eqb]. by replace (0 <? n) with true by lia.
  - intros -> ->. reflexivity.
  - intros Hneg. replace (l =? 0) with false by lia. unfold ceil_div. f_equal. f_equal.
    rewrite <- (Z.opp_involutive l) at 1. apply Z.div_opp_opp. lia.
Qed.

(** C10, as stated, fails for a call that the cache answers: with caching
    on, the second of two calls with limit 0 issues no query at all. *)
Lemma cached_findAll_issues_no_query :
  let cfg := with_cache plain_config true 300 in
  let sa := fun _ : FindAllArgs => "{limit:0}" in
  let a := mkArgs None None None (Some 0) None None None None in
  let w1 := snd (findAll MemModel cfg sa a (world_of [alpha_record] 7)) in
  a_limit a = Some 0
  /\ length (find_calls (trace w1)) = 1%nat
  /\ snd (findAll MemModel cfg sa a w1) = w1
  /\ find_calls (trace (snd (findAll MemModel cfg sa a w1))) = find_calls (trace w1).
Proof.
  cbv zeta. split; [reflexivity|]. split; [vm_compute; reflexivity|].
  assert (snd (findAll MemModel (with_cache plain_config true 300) (fun _ => "{limit:0}")
                 (mkArgs None None None (Some 0) None None None None)
                 (snd (findAll MemModel (with_cache plain_config true 300)
                         (fun _ => "{limit:0}")
                         (mkArgs None None None (Some 0) None None None None)
                         (world_of [alpha_record] 7))))
          = snd (findAll MemModel (with_cache plain_config true 300) (fun _ => "{limit:0}")
                   (mkArgs None None None (Some 0) None None None None)
                   (world_of [alpha_record] 7))) as H by (vm_compute; reflexivity).
  split; [exact H|]. by rewrite H.
Qed.

(** C10, amended.  [findAll] only caps the limit from above.  For a
    requested integer limit [l <= 0] (numbers in the range where doubles
    are exact) the effective limit is [min (maxLimit, l)], itself not
    positive, and equal to [l] when [l <= maxLimit].  When the call is
    computed (caching off, or no fresh entry under its key), the engine's
    [find] is called once, with the combined query, that limit and skip
    [(page - 1) * limit]; the call returns when that skip is 0 and is
    rejected by the engine when it is negative; and when the call returns,
    [remainingItems] is [results - page * limit] and [totalPages] is
    [Math.ceil (results / limit)] for that divisor: [Infinity] for limit 0
    and some result, [NaN] for limit 0 and no result, and the non-positive
    integer [- floor (results / - limit)] for a negative limit. *)
Theorem findAll_nonpositive_limit
  (cfg : Config) (sa : FindAllArgs -> string) (a : FindAllArgs) (l : Z) (w : World) :
  fresh_entry cfg (getCacheKey "findAll" (sa a)) w = None ->
  default true (a_paginate a) = true ->
  a_limit a = Some l ->
  l <= 0 ->
  safe_paging cfg a w ->
  let q := effectiveQuery (default false (a_includeDeleted a)) (finalQuery cfg a) in
  let n := Z.of_nat (length (filter (fun d => spec_filtered cfg a d = true) (store w))) in
  let t := Z.of_nat (length (filter (fun d => spec_visible a d = true) (store w))) in
  let p := finalPage cfg a in
  let L := finalLimit cfg a in
  let options :=
    mkOptions (Some (default (filter_defaultSort cfg) (a_sort a)))
      (Some ((p - 1) * L)) (Some L) in
  L = Z.min (maxLimit cfg) l
  /\ L <= 0
  /\ (l <= maxLimit cfg -> L = l)
  /\ (forall d, matches q d = spec_filtered cfg a d)
  /\ (exists evs,
        trace (snd (findAll MemModel cfg sa a w)) = (trace w ++ EvFind q options :: evs)%list
        /\ find_calls evs = [])
  /\ (forall env w', findAll MemModel cfg sa a w = (Returned env, w') ->
        exists docs totalPages,
          env = Success
                  (Some (mkMeta t n
                           (Some (mkPaging p L totalPages (n - p * L)
                                    (Z.of_nat (length docs))))))
                  (PDocs docs)
          /\ (L = 0 -> 0 < n -> totalPages = JPosInf)
          /\ (L = 0 -> n = 0 -> totalPages = JNaN)
          /\ (L < 0 -> totalPages = JInt (- (n / - L)) /\ - (n / - L) <= 0))
  /\ ((p = 1 \/ L = 0) -> exists env w', findAll MemModel cfg sa a w = (Returned env, w'))
  /\ (1 < p -> L < 0 ->
      fst (findAll MemModel cfg sa a w) = Thrown (ExnError "Skip value must be non-negative")).
Proof.
  intros Hfresh Hp Hl Hneg _ q n t p L options.
  assert (L = Z.min (maxLimit cfg) l) as HL
    by (unfold L, finalLimit; rewrite Hl; reflexivity).
  assert (1 <= p) as Hp1 by apply finalPage_ge_1.
  assert (0 <= n) as Hn by apply Nat2Z.is_nonneg.
  split; [exact HL|]. split; [lia|]. split; [lia|].
  split; [intros d; apply matches_final|].
  pose proof (findAll_options_paginated cfg a Hp) as Ho. fold p in Ho. fold L in Ho.
  fold options in Ho.
  destruct (findAll_computed_mem cfg sa a w Hfresh)
    as [(docs & w1 & Hw & Hg & _ & _ & _ & _ & evs & Ht & Hf)
       |(k & w1 & Hk & Hlt & Hg & _ & evs & Ht & Hf)];
    rewrite Hg; cbn [snd fst]; rewrite Ht, Ho; fold q.
  - split; [by exists evs|]. split; [|split].
    + intros env w' [= <- <-]. exists docs, (js_ceil_div n L).
      rewrite (findAll_envelope_spec cfg a w docs Hp). cbv zeta. fold n. fold t. fold p. fold L.
      split; [by rewrite Z.max_r by nia|].
      destruct (js_ceil_div_nonpositive n L Hn ltac:(lia)) as (H1 & H2 & H3).
      split; [exact H1|]. split; [exact H2|]. intros HLneg. split; [by apply H3|].
      assert (0 <= n / - L) by (apply Z.div_pos; lia). lia.
    + intros _. by eexists _, _.
    + intros Hp2 HLneg. exfalso. rewrite Ho in Hw.
      eapply (window_skip_negative options ((p - 1) * L) _ docs w w); [reflexivity|nia|].
      apply Hw.
  - split; [by exists evs|]. split; [|split].
    + intros env w' H. discriminate H.
    + intros Hskip. exfalso. rewrite Ho in Hk. cbn [opt_skip] in Hk. injection Hk as <-.
      destruct Hskip as [Hskip|Hskip]; rewrite Hskip in Hlt; lia.
    + reflexivity.
Qed.

Lemma findAll_nonpositive_limit_witness :
  let a := mkArgs None None (Some 1) (Some 0) None None None None in
  let w := world_of [alpha_record] 7 in
  fresh_entry plain_config (getCacheKey "findAll" "{page:1,limit:0}") w = None
  /\ a_limit a = Some 0
  /\ safe_paging plain_config a w
  /\ finalLimit plain_config a = 0
  /\ exists docs,
      fst (findAll MemModel plain_config (fun _ => "{page:1,limit:0}") a w)
      = Returned (Success (Some (mkMeta 1 1 (Some (mkPaging 1 0 JPosInf 1
                                                    (Z.of_nat (length docs))))))
                    (PDocs docs)).
Proof.
  cbv zeta.
  assert (safe_paging plain_config (mkArgs None None (Some 1) (Some 0) None None None None)
            (world_of [alpha_record] 7)) as Hsafe
    by (repeat split; vm_compute; discriminate).
  split; [reflexivity|]. split; [reflexivity|]. split; [exact Hsafe|].
  destruct (findAll_nonpositive_limit plain_config (fun _ => "{page:1,limit:0}")
              (mkArgs None None (Some 1) (Some 0) None None None None) 0
              (world_of [alpha_record] 7) eq_refl eq_refl eq_refl ltac:(lia) Hsafe)
    as (_ & _ & HL & _ & _ & Henv & Hret & _).
  split; [apply HL; vm_compute; discriminate|].
  destruct (Hret (or_introl eq_refl)) as (env & w' & Hf).
  destruct (Henv env w' Hf) as (docs & totalPages & -> & Hinf & _).
  exists docs. rewrite Hf. cbn [fst]. rewrite (Hinf eq_refl ltac:(vm_compute; reflexivity)).
  vm_compute. reflexivity.
Defined.






(** ** Slug generation on [create] *)

Lemma matches_slug_query (f : string) (s : string) (d : Doc) :
  f <> "deletedAt" ->
  matches (not_deleted (field_query f (VStr s) None)) d
  = (is_live d && bool_decide (getv d f = VStr s))%bool.
Proof.
  intros Hf. unfold matches, not_deleted, field_query.
  apply eq_true_iff_eq. rewrite bool_decide_eq_true, andb_true_iff, bool_decide_eq_true.
  rewrite map_Forall_insert by (by apply lookup_singleton_ne).
  rewrite map_Forall_singleton. unfold cond_matches, value_matches, is_live, is_deleted.
  rewrite negb_involutive, bool_decide_eq_true. tauto.
Qed.

Lemma exists_mem (q : Query) (w : World) :
  repo_exists MemModel q false w
  = (Returned (existsb (matches (not_deleted q)) (store w)),
     logged (EvExists (not_deleted q)) w).
Proof. reflexivity. Qed.

Lemma taken_existsb (f : string) (s : string) (l : list Doc) :
  f <> "deletedAt" ->
  existsb (matches (not_deleted (field_query f (VStr s) None))) l = taken f s l.
Proof.
  intros Hf. unfold taken. induction l as [|d r IH]; [reflexivity|].
  cbn [existsb]. by rewrite IH, matches_slug_query.
Qed.

Lemma family_succ (base : string) (c : N) :
  default_uniqueResolver base (c + 1) = family base (c + 1).
Proof. unfold family. destruct (c + 1 =? 0)%N eqn:H; [apply N.eqb_eq in H; lia|reflexivity]. Qed.

Lemma slug_loop_mem (cfg : Config) (v : Value) (n : nat) (c k : N) (w : World) :
  slug_uniqueResolver cfg = default_uniqueResolver ->
  slug_targetField cfg <> "deletedAt" ->
  (forall j, (c <= j < k)%N ->
             taken (slug_targetField cfg) (family (slug_generator cfg v) j) (store w) = true) ->
  taken (slug_targetField cfg) (family (slug_generator cfg v) k) (store w) = false ->
  (c <= k)%N ->
  (N.to_nat (k - c) < n)%nat ->
  exists w',
    slug_loop MemModel cfg n v None (family (slug_generator cfg v) c) c w
    = (Returned (family (slug_generator cfg v) k), w')
    /\ same_data w w'.
Proof.
  intros Hr Hf. revert c w. induction n as [|n IH]; intros c w Hbusy Hfree Hck Hn; [lia|].
  cbn [slug_loop]. unfold bind at 1. rewrite exists_mem, taken_existsb by exact Hf.
  destruct (N.eq_dec c k) as [->|Hne].
  - rewrite Hfree. cbn [negb]. eexists. split; [reflexivity|]. apply same_data_logged.
  - rewrite (Hbusy c) by lia. cbn [negb]. rewrite Hr, family_succ.
    destruct (IH (c + 1)%N (logged (EvExists (not_deleted
                 (field_query (slug_targetField cfg)
                    (VStr (family (slug_generator cfg v) c)) None))) w))
      as (w' & Hl & Hs).
    + intros j Hj. apply Hbusy. lia.
    + exact Hfree.
    + lia.
    + lia.
    + exists w'. split; [exact Hl|]. eapply same_data_trans; [apply same_data_logged|exact Hs].
Qed.

Lemma append_length (a b : string) :
  String.length (a +:+ b) = (String.length a + String.length b)%nat.
Proof.
  induction a as [|ch a IH]; [reflexivity|].
  change (String ch a +:+ b) with (String ch (a +:+ b)). cbn [String.length]. by rewrite IH.
Qed.

Lemma family_inj (base : string) (j k : N) : family base j = family base k -> j = k.
Proof.
  unfold family, default_uniqueResolver.
  destruct (j =? 0)%N eqn:Hj, (k =? 0)%N eqn:Hk; intros H.
  - apply N.eqb_eq in Hj, Hk. congruence.
  - apply (f_equal String.length) in H. rewrite !append_length in H.
    cbn [String.length] in H. lia.
  - apply (f_equal String.length) in H. rewrite !append_length in H.
    cbn [String.length] in H. lia.
  - apply String.app_inj in H. apply String.app_inj in H. by apply pretty_N_inj in H.
Qed.

Lemma collides_same (f : string) (v : Value) (ex : option Value) (w w' : World) :
  same_data w w' -> collides f v ex (store w') = collides f v ex (store w).
Proof. intros (Hs & _). by rewrite Hs. Qed.

Lemma offending_same (uf : list string) (doc : Doc) (ex : option Value) (w w' : World) :
  same_data w w' -> offending uf doc ex (store w') = offending uf doc ex (store w).
Proof. intros (Hs & _). by rewrite Hs. Qed.

Lemma unique_check_step (doc : Doc) (ex : option Value) (field : string) (w : World) :
  (if negb (truthy (getv doc field)) then ret tt
   else
     found <- exists_ MemModel (field_query field (getv doc field) ex) false ;;
     if found then throw (UNIQUE_FIELD_ERROR field (getv doc field)) else ret tt) w
  = if truthy (getv doc field) then
      (if collides field (getv doc field) ex (store w)
       then Thrown (UNIQUE_FIELD_ERROR field (getv doc field)) else Returned tt,
       logged (EvExists (not_deleted (field_query field (getv doc field) ex))) w)
    else (Returned tt, w).
Proof.
  destruct (truthy (getv doc field)); cbn [negb]; [|reflexivity].
  unfold bind, exists_. rewrite exists_mem. fold (collides field (getv doc field) ex (store w)).
  destruct (collides _ _ _ _); reflexivity.
Qed.

Lemma unique_checks_mem (uf : list string) (doc : Doc) (ex : option Value) (w : World) :
  exists os w',
    run_all
      (fun field =>
         if negb (truthy (getv doc field)) then ret tt
         else
           found <- exists_ MemModel (field_query field (getv doc field) ex) false ;;
           if found then throw (UNIQUE_FIELD_ERROR field (getv doc field)) else ret tt)
      uf w
    = (os, w')
    /\ omap rejection os = unique_rejections uf doc ex (store w)
    /\ existsb is_diverged os = false
    /\ same_data w w'
    /\ trace w' = (trace w ++ unique_queries uf doc ex)%list.
Proof.
  revert w. induction uf as [|f r IH]; intros w.
  - exists [], w. split; [reflexivity|]. split; [reflexivity|]. split; [reflexivity|].
    split; [apply same_data_refl|].
    unfold unique_queries. cbn [filter map]. by rewrite app_nil_r.
  - cbn [run_all]. rewrite unique_check_step.
    unfold unique_rejections, offending, unique_queries. rewrite !filter_cons.
    destruct (truthy (getv doc f)) eqn:Ht.
    + set (w1 := logged _ w).
      assert (same_data w w1) as S1 by apply same_data_logged.
      destruct (IH w1) as (os & w2 & Hp & Hrej & Hdiv & S2 & T2).
      unfold unique_rejections in Hrej. rewrite (offending_same _ _ _ _ _ S1) in Hrej.
      rewrite Hp. eexists _, w2. split; [reflexivity|].
      rewrite (decide_True (P := true = true)) by done.
      destruct (collides f (getv doc f) ex (store w)) eqn:Hc.
      * rewrite decide_True by done. cbn [map]. split.
        { change (omap rejection (Thrown ?e :: os)) with (e :: omap rejection os).
          by rewrite Hrej. }
        split; [exact Hdiv|].
        split; [by eapply same_data_trans|]. rewrite T2. unfold w1, logged.
        cbn [log snd trace]. by rewrite <- app_assoc.
      * rewrite decide_False by (intros [_ H]; discriminate H).
        fold (offending r doc ex (store w)). split.
        { change (omap rejection (Returned tt :: os)) with (omap rejection os).
          exact Hrej. }
        split; [exact Hdiv|].
        split; [by eapply same_data_trans|]. rewrite T2. unfold w1, logged.
        cbn [log snd trace map]. by rewrite <- app_assoc.
    + destruct (IH w) as (os & w2 & Hp & Hrej & Hdiv & S2 & T2). rewrite Hp.
      eexists _, w2. split; [reflexivity|].
      rewrite decide_False by (intros [H _]; discriminate H).
      rewrite (decide_False (P := false = true)) by discriminate.
      fold (offending r doc ex (store w)). split.
      { change (omap rejection (Returned tt :: os)) with (omap rejection os). exact Hrej. }
      split; [exact Hdiv|]. split; [exact S2|exact T2].
Qed.

(** The uniqueness check on the in-memory engine: it rejects with the
    rejection that settles first among those of the colliding fields, and
    issues one existence query for each unique field with a truthy
    value. *)
Lemma validateUniqueFields_mem (uf : list string) (doc : Doc) (ex : option Value) (w : World) :
  exists w',
    validateUniqueFields MemModel uf doc ex w
    = (match first_rejection (race w) (unique_rejections uf doc ex (store w)) with
       | None => Returned tt
       | Some e => Thrown e
       end, w')
    /\ same_data w w'
    /\ trace w' = (trace w ++ unique_queries uf doc ex)%list.
Proof.
  destruct (unique_checks_mem uf doc ex w) as (os & w' & Hp & Hrej & Hdiv & S & T).
  exists w'. split; [|by split].
  unfold validateUniqueFields, for_all, promise_all. unfold bind at 1. rewrite Hp.
  unfold settle_all. rewrite Hrej, Hdiv.
  destruct (first_rejection _ _); reflexivity.
Qed.

Lemma validateDocument_plain (cfg : Config) (doc : Doc) (w : World) :
  no_callbacks cfg -> validateDocument cfg doc w = (Returned doc, w).
Proof.
  intros (_ & _ & Hpre & Hpost & Hcv).
  unfold validateDocument, runCustomValidators. rewrite Hpre, Hpost, Hcv. reflexivity.
Qed.

Lemma unique_rejections_nil (uf : list string) (doc : Doc) (ex : option Value) (s : list Doc) :
  Forall (fun f => truthy (getv doc f) = false) uf -> unique_rejections uf doc ex s = [].
Proof.
  intros H. unfold unique_rejections, offending. induction H as [|f r Hf _ IH]; [reflexivity|].
  rewrite filter_cons, decide_False; [exact IH|]. intros [Ht _]. congruence.
Qed.

Lemma offending_nil (uf : list string) (doc : Doc) (ex : option Value) (s : list Doc) :
  Forall (fun f => truthy (getv doc f) = false) uf -> offending uf doc ex s = [].
Proof.
  intros H. unfold offending. induction H as [|f r Hf _ IH]; [reflexivity|].
  rewrite filter_cons, decide_False; [exact IH|]. intros [Ht _]. congruence.
Qed.

Lemma truthy_has_key (doc : Doc) (k : string) :
  truthy (getv doc k) = true -> has_key doc k = true.
Proof.
  unfold getv, has_key. destruct (doc !! k) as [v|]; [|discriminate].
  intros _. apply bool_decide_eq_true. by eexists.
Qed.

Lemma populate_step_mem (cfg : Config) (d : Doc) (w : World) :
  exists w',
    (if populate_defaultPopulate cfg then applyPopulation MemModel cfg d else ret d) w
    = (Returned d, w') /\ same_data w w'.
Proof.
  destruct (populate_defaultPopulate cfg).
  - destruct (applyPopulation_mem cfg d w) as (w' & H & S & _). by exists w'.
  - exists w. split; [reflexivity|apply same_data_refl].
Qed.

Lemma save_mem (d : Doc) (w : World) :
  repo_create MemModel d w
  = (Returned (<["_id" := VId (next_id w)]> d),
     mkWorld (store w ++ [<["_id" := VId (next_id w)]> d]) (N.succ (next_id w)) (clock w)
       (cache w) (trace w ++ [EvSave d]) (race w)).
Proof. reflexivity. Qed.

(** One [create] on the in-memory engine, when the slugs [family 0 ..
    family (k-1)] are taken and [family k] is free. *)
Lemma create_mem_slugged (cfg : Config) (uf : list string) (fuel : nat) (input : Doc)
  (k : N) (w : World) :
  slug_enabled cfg = true ->
  slug_uniqueResolver cfg = default_uniqueResolver ->
  no_callbacks cfg ->
  slug_targetField cfg <> "deletedAt" ->
  truthy (getv input (slug_sourceField cfg)) = true ->
  Forall (fun f => truthy (getv input f) = false) uf ->
  let base := slug_generator cfg (getv input (slug_sourceField cfg)) in
  (forall j, (j < k)%N -> taken (slug_targetField cfg) (family base j) (store w) = true) ->
  taken (slug_targetField cfg) (family base k) (store w) = false ->
  (N.to_nat k < fuel)%nat ->
  let d := <["_id" := VId (next_id w)]>
             (<[slug_targetField cfg := VStr (family base k)]> input) in
  exists w',
    create MemModel cfg uf fuel input w = (Returned (Success None (PDoc d)), w')
    /\ store w' = (store w ++ [d])%list.
Proof.
  intros He Hr Hnc Hf Ht Huf base Hbusy Hfree Hfuel d.
  pose proof Hnc as (Hb & Ha & _).
  destruct (validateUniqueFields_mem uf input None w) as (w1 & Hv & S1 & _).
  rewrite (unique_rejections_nil uf input None (store w) Huf) in Hv.
  cbn [first_rejection] in Hv.
  destruct (slug_loop_mem cfg (getv input (slug_sourceField cfg)) fuel 0 k w1 Hr Hf)
    as (w2 & Hl & S2).
  { intros j Hj. destruct S1 as (-> & _). apply Hbusy. lia. }
  { destruct S1 as (-> & _). exact Hfree. }
  { lia. }
  { lia. }
  assert (generateUniqueSlug MemModel cfg fuel input None w1
          = (Returned (<[slug_targetField cfg := VStr (family base k)]> input), w2)) as Hg.
  { unfold generateUniqueSlug. rewrite He, (truthy_has_key _ _ Ht), Ht. cbn [negb].
    change (family (slug_generator cfg (getv input (slug_sourceField cfg))) 0)
      with (slug_generator cfg (getv input (slug_sourceField cfg))) in Hl.
    rewrite (bind_returned _ _ _ _ _ Hl). reflexivity. }
  destruct (populate_step_mem cfg d
              (mkWorld (store w2 ++ [d]) (N.succ (next_id w2)) (clock w2) (cache w2)
                 (trace w2 ++ [EvSave (<[slug_targetField cfg := VStr (family base k)]> input)])
                 (race w2)))
    as (w3 & Hpop & S3).
  assert (next_id w2 = next_id w) as Hid.
  { destruct S1 as (_ & H1 & _), S2 as (_ & H2 & _). congruence. }
  assert (store w2 = store w) as Hst.
  { destruct S1 as (H1 & _), S2 as (H2 & _). congruence. }
  exists w3. split.
  - unfold create. apply try_catch_returned. rewrite Hb, Ha. unfold executeHook at 1.
    rewrite bind_ret.
    rewrite (bind_returned _ _ _ _ _ Hv).
    rewrite (bind_returned _ _ _ _ _ (validateDocument_plain cfg input w1 Hnc)).
    rewrite (bind_returned _ _ _ _ _ Hg).
    rewrite (bind_returned _ _ _ _ _ (save_mem _ w2)). rewrite Hid. fold d.
    unfold executeHook. rewrite bind_ret.
    rewrite Hid in Hpop. rewrite (bind_returned _ _ _ _ _ Hpop). reflexivity.
  - destruct S3 as (-> & _). cbn [store]. by rewrite Hst.
Qed.

Lemma taken_app (f s : string) (l : list Doc) (d : Doc) :
  taken f s (l ++ [d]) = (taken f s l || (is_live d && bool_decide (getv d f = VStr s)))%bool.
Proof.
  unfold taken. rewrite existsb_app. cbn [existsb]. by rewrite orb_false_r.
Qed.

Lemma taken_lookup (f s : string) (l : list Doc) (i : nat) (d : Doc) :
  l !! i = Some d -> is_live d = true -> getv d f = VStr s -> taken f s l = true.
Proof.
  intros Hi Hl Hg. unfold taken. apply existsb_exists. exists d. split.
  - apply list_elem_of_In. by eapply list_elem_of_lookup_2.
  - rewrite Hl. cbn [andb]. by apply bool_decide_eq_true.
Qed.

Lemma distinct_live_app (f s : string) (l : list Doc) (d : Doc) :
  distinct_live f l -> getv d f = VStr s -> taken f s l = false ->
  distinct_live f (l ++ [d]).
Proof.
  intros Hd Hg Hfree i j d1 d2 v Hi Hj L1 L2 G1 G2.
  destruct (decide (i < length l)%nat) as [Hil|Hil];
    destruct (decide (j < length l)%nat) as [Hjl|Hjl].
  - rewrite lookup_app_l in Hi, Hj by done. by eapply Hd.
  - rewrite lookup_app_l in Hi by done. rewrite lookup_app_r in Hj by lia.
    apply list_lookup_singleton_Some in Hj as [_ <-].
    exfalso. assert (v = s) as -> by congruence.
    rewrite (taken_lookup f s l i d1 Hi L1 G1) in Hfree. discriminate.
  - rewrite lookup_app_l in Hj by done. rewrite lookup_app_r in Hi by lia.
    apply list_lookup_singleton_Some in Hi as [_ <-].
    exfalso. assert (v = s) as -> by congruence.
    rewrite (taken_lookup f s l j d2 Hj L2 G2) in Hfree. discriminate.
  - rewrite lookup_app_r in Hi, Hj by lia.
    apply list_lookup_singleton_Some in Hi as [Hi _].
    apply list_lookup_singleton_Some in Hj as [Hj _]. lia.
Qed.

Lemma getv_insert_eq (d : Doc) (k : string) (v : Value) : getv (<[k := v]> d) k = v.
Proof. unfold getv. by rewrite lookup_insert_eq. Qed.

Lemma getv_insert_ne (d : Doc) (k k' : string) (v : Value) :
  k <> k' -> getv (<[k := v]> d) k' = getv d k'.
Proof. intros H. unfold getv. by rewrite lookup_insert_ne. Qed.

Lemma created_doc_live (input : Doc) (f : string) (s : string) (n : N) :
  f <> "deletedAt" -> is_live input = true ->
  is_live (<["_id" := VId n]> (<[f := VStr s]> input)) = true.
Proof.
  intros Hf Hl. unfold is_live, is_deleted in *.
  rewrite getv_insert_ne by discriminate. by rewrite getv_insert_ne.
Qed.

Lemma created_doc_slug (input : Doc) (f : string) (s : string) (n : N) :
  f <> "_id" -> getv (<["_id" := VId n]> (<[f := VStr s]> input)) f = VStr s.
Proof. intros Hf. rewrite getv_insert_ne by done. apply getv_insert_eq. Qed.

Lemma run_creates_slugs (cfg : Config) (uf : list string) (fuel : nat) (v : Value)
  (inputs : list Doc) :
  slug_enabled cfg = true ->
  slug_uniqueResolver cfg = default_uniqueResolver ->
  no_callbacks cfg ->
  slug_targetField cfg <> "_id" ->
  slug_targetField cfg <> "deletedAt" ->
  truthy v = true ->
  Forall (fun d => getv d (slug_sourceField cfg) = v /\ is_live d = true
                   /\ Forall (fun f => truthy (getv d f) = false) uf) inputs ->
  forall (c : N) (w : World),
    slug_state cfg (slug_generator cfg v) c (store w) ->
    (N.to_nat c + length inputs <= fuel)%nat ->
    exists ds,
      fst (run_creates MemModel cfg uf fuel inputs w)
      = map (fun d => Returned (Success None (PDoc d))) ds
      /\ store (snd (run_creates MemModel cfg uf fuel inputs w)) = (store w ++ ds)%list
      /\ length ds = length inputs
      /\ (forall (k : nat) (d : Doc),
             ds !! k = Some d ->
             getv d (slug_targetField cfg)
             = VStr (family (slug_generator cfg v) (c + N.of_nat k)))
      /\ slug_state cfg (slug_generator cfg v) (c + N.of_nat (length inputs))
           (store (snd (run_creates MemModel cfg uf fuel inputs w))).
Proof.
  intros He Hr Hnc Hid Hdel Hv Hall.
  induction Hall as [|input rest (Hsrc & Hlive & Huf) _ IH]; intros c w [Htaken Hdist] Hfuel.
  - exists []. cbn [run_creates fst snd map length]. rewrite app_nil_r, N.add_0_r.
    repeat split; try done; apply Htaken.
  - cbn [length] in Hfuel.
    destruct (create_mem_slugged cfg uf fuel input c w He Hr Hnc Hdel) as (w1 & Hc & Hs1).
    { by rewrite Hsrc. }
    { exact Huf. }
    { intros j Hj. rewrite Hsrc. by apply Htaken. }
    { rewrite Hsrc. destruct (taken _ _ _) eqn:Ht; [|done]. apply Htaken in Ht. lia. }
    { lia. }
    rewrite Hsrc in Hc, Hs1.
    set (d := <["_id" := VId (next_id w)]>
                (<[slug_targetField cfg := VStr (family (slug_generator cfg v) c)]> input))
      in Hc, Hs1.
    assert (getv d (slug_targetField cfg) = VStr (family (slug_generator cfg v) c)) as Hslug
      by (by apply created_doc_slug).
    assert (is_live d = true) as Hdl by (by apply created_doc_live).
    assert (taken (slug_targetField cfg) (family (slug_generator cfg v) c) (store w) = false)
      as Hfree.
    { destruct (taken _ _ _) eqn:Ht; [|done]. apply Htaken in Ht. lia. }
    destruct (IH (c + 1)%N w1) as (ds & Hrs & Hst & Hlen & Hsl & Hinv).
    { rewrite Hs1. split.
      - intros j. rewrite taken_app, Hdl, Hslug. cbn [andb]. rewrite orb_true_iff, Htaken.
        rewrite bool_decide_eq_true. split.
        + intros [Hj|Hj]; [lia|]. injection Hj as Hj. apply family_inj in Hj. lia.
        + intros Hj. destruct (N.eq_dec j c) as [->|Hne]; [by right|left; lia].
      - by eapply distinct_live_app. }
    { lia. }
    exists (d :: ds). cbn [run_creates]. rewrite Hc.
    destruct (run_creates MemModel cfg uf fuel rest w1) as [rs w2]. cbn [fst snd] in *.
    destruct Hinv as [Hinv1 Hinv2].
    rewrite Hst, Hs1, <- app_assoc in Hinv1, Hinv2. cbn [app] in Hinv1, Hinv2.
    rewrite Hrs, Hst, Hs1. cbn [map length]. rewrite <- app_assoc. cbn [app].
    split; [reflexivity|]. split; [reflexivity|]. split; [by rewrite Hlen|]. split.
    + intros k d' Hk. destruct k as [|k]; cbn in Hk.
      * injection Hk as <-. by rewrite N.add_0_r.
      * rewrite (Hsl k d' Hk). f_equal. f_equal. lia.
    + split; [|exact Hinv2].
      intros j. rewrite Hinv1. lia.
Qed.

(** C5.  With slug generation on, the default collision resolver and no
    hooks or validators, successive creates whose inputs carry the same
    (truthy) source value, started where no live record holds a slug of
    that base, all succeed: the first record gets [base], the second
    [base-1], the third [base-2], and so on; and after any number of these
    creates no two live records have the same slug. *)
Theorem sequential_slugs
  (cfg : Config) (uf : list string) (fuel : nat) (v : Value) (inputs : list Doc) (w0 : World) :
  slug_enabled cfg = true ->
  slug_uniqueResolver cfg = default_uniqueResolver ->
  no_callbacks cfg ->
  slug_targetField cfg <> "_id" ->
  slug_targetField cfg <> "deletedAt" ->
  truthy v = true ->
  Forall (fun d => getv d (slug_sourceField cfg) = v /\ is_live d = true
                   /\ Forall (fun f => truthy (getv d f) = false) uf) inputs ->
  (forall j, taken (slug_targetField cfg) (family (slug_generator cfg v) j) (store w0) = false) ->
  distinct_live (slug_targetField cfg) (store w0) ->
  (length inputs <= fuel)%nat ->
  let base := slug_generator cfg v in
  (family base 0 = base /\ family base 1 = base +:+ "-1" /\ family base 2 = base +:+ "-2")
  /\ (exists ds,
        fst (run_creates MemModel cfg uf fuel inputs w0)
        = map (fun d => Returned (Success None (PDoc d))) ds
        /\ store (snd (run_creates MemModel cfg uf fuel inputs w0)) = (store w0 ++ ds)%list
        /\ length ds = length inputs
        /\ forall (k : nat) (d : Doc),
             ds !! k = Some d ->
             getv d (slug_targetField cfg) = VStr (family base (N.of_nat k)))
  /\ (forall n : nat,
        distinct_live (slug_targetField cfg)
          (store (snd (run_creates MemModel cfg uf fuel (take n inputs) w0)))).
Proof.
  intros He Hr Hnc Hid Hdel Hv Hall Hfree Hdist Hfuel base.
  assert (slug_state cfg base 0 (store w0)) as H0.
  { split; [|exact Hdist]. intros j. rewrite Hfree. split; [discriminate|lia]. }
  split; [repeat split; reflexivity|]. split.
  - destruct (run_creates_slugs cfg uf fuel v inputs He Hr Hnc Hid Hdel Hv Hall 0%N w0 H0)
      as (ds & H1 & H2 & H3 & H4 & _); [simpl; lia|].
    exists ds. split; [exact H1|]. split; [exact H2|]. split; [exact H3|]. exact H4.
  - intros n.
    destruct (run_creates_slugs cfg uf fuel v (take n inputs) He Hr Hnc Hid Hdel Hv
                (Forall_take _ n _ Hall) 0%N w0 H0)
      as (_ & _ & _ & _ & _ & _ & H5); [|exact H5].
    rewrite length_take. simpl. lia.
Qed.

Lemma sequential_slugs_witness :
  exists d1 d2 d3,
    fst (run_creates MemModel slug_config [] 3 [alpha_input; alpha_input; alpha_input]
           empty_world)
    = [Returned (Success None (PDoc d1)); Returned (Success None (PDoc d2));
       Returned (Success None (PDoc d3))]
    /\ getv d1 "slug" = VStr "alpha"
    /\ getv d2 "slug" = VStr "alpha-1"
    /\ getv d3 "slug" = VStr "alpha-2".
Proof.
  destruct (sequential_slugs slug_config [] 3 (VStr "Alpha")
              [alpha_input; alpha_input; alpha_input] empty_world)
    as (_ & (ds & Hrs & _ & Hlen & Hsl) & _).
  - reflexivity.
  - reflexivity.
  - repeat split; reflexivity.
  - discriminate.
  - discriminate.
  - reflexivity.
  - repeat constructor; vm_compute; reflexivity.
  - intros j. reflexivity.
  - intros i j d1 d2 s Hi. discriminate Hi.
  - simpl. lia.
  - destruct ds as [|d1 [|d2 [|d3 [|? ?]]]]; try discriminate Hlen.
    exists d1, d2, d3. split; [exact Hrs|].
    split; [exact (Hsl 0%nat d1 eq_refl)|].
    split; [exact (Hsl 1%nat d2 eq_refl)|exact (Hsl 2%nat d3 eq_refl)].
Defined.

Lemma self_never_hits (d : Doc) (n : N) (f : string) (v : Value) :
  getv d "_id" = VId n ->
  matches (not_deleted (field_query f v (Some (VId n)))) d = false.
Proof.
  intros Hid. destruct (matches _ d) eqn:Hm; [|reflexivity]. exfalso.
  unfold matches in Hm. apply bool_decide_eq_true in Hm.
  assert (not_deleted (field_query f v (Some (VId n))) !! "_id" = Some (CNe (VId n))) as Hl.
  { unfold not_deleted, field_query. rewrite lookup_insert_ne by discriminate.
    apply lookup_insert_eq. }
  specialize (Hm "_id" _ Hl). unfold cond_matches, value_matches in Hm. rewrite Hid in Hm.
  rewrite bool_decide_eq_true_2 in Hm by reflexivity. discriminate Hm.
Qed.

(** A colliding field makes the check reject, with the rejection of some
    colliding field. *)
Lemma unique_rejection_some (first : list Exn -> nat) (uf : list string) (doc : Doc)
  (ex : option Value) (s : list Doc) (field : string) :
  field ∈ uf -> truthy (getv doc field) = true -> collides field (getv doc field) ex s = true ->
  exists f, first_rejection first (unique_rejections uf doc ex s)
            = Some (UNIQUE_FIELD_ERROR f (getv doc f))
            /\ f ∈ uf /\ truthy (getv doc f) = true /\ collides f (getv doc f) ex s = true.
Proof.
  intros Hin Ht Hc.
  assert (field ∈ offending uf doc ex s) as Ho by (apply list_elem_of_filter; done).
  destruct (first_rejection_some first (unique_rejections uf doc ex s)) as (e & He & Hine).
  { unfold unique_rejections. destruct (offending uf doc ex s); [|discriminate].
    by apply elem_of_nil in Ho. }
  unfold unique_rejections in Hine.
  apply list_elem_of_In, in_map_iff in Hine as (f & <- & Hf).
  exists f. split; [exact He|].
  apply list_elem_of_In, list_elem_of_filter in Hf as [[? ?] ?]. done.
Qed.

Lemma unique_query_issued (uf : list string) (doc : Doc) (ex : option Value) (field : string) :
  field ∈ uf -> truthy (getv doc field) = true ->
  EvExists (not_deleted (field_query field (getv doc field) ex)) ∈ unique_queries uf doc ex.
Proof.
  intros Hin Ht. unfold unique_queries.
  apply (list_elem_of_fmap_2
           (fun f => EvExists (not_deleted (field_query f (getv doc f) ex)))).
  by apply list_elem_of_filter.
Qed.

(** Fields with falsy values are skipped: when every unique field is
    falsy nothing is asked of the engine. *)
Lemma validateUniqueFields_falsy (m : Model) (uf : list string) (doc : Doc)
  (ex : option Value) (w : World) :
  Forall (fun f => truthy (getv doc f) = false) uf ->
  validateUniqueFields m uf doc ex w = (Returned tt, w).
Proof.
  intros Hall. unfold validateUniqueFields, for_all.
  rewrite (bind_returned _ _ w w (map (fun _ => tt) uf)); [reflexivity|].
  apply promise_all_returned.
  induction Hall as [|f r Hf _ IH]; [reflexivity|].
  cbn [run_all map]. rewrite Hf. cbn [negb]. unfold ret at 1. by rewrite IH.
Qed.

Lemma fields_of_operator (u : Update) (f : string) :
  (forall fields, u <> UFields fields) -> truthy (getv (fields_of u) f) = false.
Proof. intros H. destruct u; [by edestruct H|reflexivity..]. Qed.

(** C6, as stated, fails: a unique field set to a falsy value ([0] here)
    is not checked, the second record with [code = 0] is created and no
    existence query is issued; and an update in operator form
    ([{ $set: { code: 7 } }]) is not checked either: record 2 takes the
    code of record 1. *)
Lemma create_falsy_unique_value_unchecked :
  let w := world_of [code_record 1 0] 7 in
  let w' := world_of [code_record 1 7; code_record 2 8] 7 in
  let set_code := USet {[ "code" := VNum 7 ]} in
  collides "code" (VNum 0) None (store w) = true
  /\ fst (create MemModel plain_config ["code"] 10 (code_input 0) w)
     = Returned (Success None (PDoc (code_record 2 0)))
  /\ store (snd (create MemModel plain_config ["code"] 10 (code_input 0) w))
     = [code_record 1 0; code_record 2 0]
  /\ trace (snd (create MemModel plain_config ["code"] 10 (code_input 0) w))
     = [EvSave (code_input 0)]
  /\ collides "code" (VNum 7) (Some (VId 2)) (store w') = true
  /\ fst (updateById MemModel plain_config ["code"] (VId 2) set_code w')
     = Returned (Success None (PDoc (code_record 2 7)))
  /\ store (snd (updateById MemModel plain_config ["code"] (VId 2) set_code w'))
     = [code_record 1 7; code_record 2 7]
  /\ fst (update MemModel plain_config ["code"] 10 {[ "code" := CEq (VNum 8) ]} set_code
            false w')
     = Returned (Success None (PDoc (code_record 2 7))).
Proof. repeat split; vm_compute; reflexivity. Qed.

(** C6, amended.  The uniqueness check issues one existence query for
    each unique field that the document sets to a truthy value, with the
    record's own id excluded on update, and none for the others: a
    document whose unique fields are all falsy, and an update in operator
    form, are not checked.  When the query of a unique field with a
    truthy value has a hit, [create], [update] and [updateById] return a
    UNIQUE_FIELD_ERROR envelope naming a field whose query has a hit, with
    its value, and nothing is stored; the document checked is the one the
    [beforeCreate] / [beforeUpdate] hook leaves.  The record being
    updated is never a hit of its own queries. *)
Theorem unique_fields_checked
  (cfg : Config) (uf : list string) (fuel : nat) (field : string) (w : World) :
  field ∈ uf ->
  let failure (doc : Doc) (f : string) :=
    Failure (mkError "UNIQUE_FIELD_ERROR" ("The " +:+ f +:+ " must be unique.")
               ["Value '" +:+ to_js_string (getv doc f) +:+ "' is already taken for "
                +:+ f +:+ "."]) in
  (forall doc ex w0,
      trace (snd (validateUniqueFields MemModel uf doc ex w0))
      = (trace w0 ++ unique_queries uf doc ex)%list
      /\ length (unique_queries uf doc ex)
         = length (filter (fun f => truthy (getv doc f) = true) uf)
      /\ (truthy (getv doc field) = true ->
          EvExists (not_deleted (field_query field (getv doc field) ex))
          ∈ unique_queries uf doc ex)
      /\ (Forall (fun f => truthy (getv doc f) = false) uf ->
          validateUniqueFields MemModel uf doc ex w0 = (Returned tt, w0)))
  /\ (forall u ex w0,
        (forall fields, u <> UFields fields) ->
        validateUniqueFields MemModel uf (fields_of u) ex w0 = (Returned tt, w0))
  /\ (forall input hooked w1,
        executeHook (beforeCreate cfg) input w = (Returned hooked, w1) ->
        truthy (getv hooked field) = true ->
        collides field (getv hooked field) None (store w1) = true ->
        exists f w',
          f ∈ uf /\ truthy (getv hooked f) = true
          /\ collides f (getv hooked f) None (store w1) = true
          /\ create MemModel cfg uf fuel input w = (Returned (failure hooked f), w')
          /\ store w' = store w1)
  /\ (forall q includeDeleted u found w0 doc u' w1,
        repo_findOne MemModel q no_options includeDeleted w = (Returned (Some found), w0) ->
        executeHook2 (beforeUpdate cfg) found u w0 = (Returned (doc, u'), w1) ->
        truthy (getv (fields_of u') field) = true ->
        collides field (getv (fields_of u') field) (Some (getv doc "_id")) (store w1) = true ->
        exists f w',
          f ∈ uf /\ truthy (getv (fields_of u') f) = true
          /\ collides f (getv (fields_of u') f) (Some (getv doc "_id")) (store w1) = true
          /\ update MemModel cfg uf fuel q u includeDeleted w
             = (Returned (failure (fields_of u') f), w')
          /\ store w' = store w1)
  /\ (forall id u found w0 doc u' w1,
        repo_findById MemModel id false w = (Returned (Some found), w0) ->
        executeHook2 (beforeUpdate cfg) found u w0 = (Returned (doc, u'), w1) ->
        truthy (getv (fields_of u') field) = true ->
        collides field (getv (fields_of u') field) (Some (getv doc "_id")) (store w1) = true ->
        exists f w',
          f ∈ uf /\ truthy (getv (fields_of u') f) = true
          /\ collides f (getv (fields_of u') f) (Some (getv doc "_id")) (store w1) = true
          /\ updateById MemModel cfg uf id u w = (Returned (failure (fields_of u') f), w')
          /\ store w' = store w1)
  /\ (forall (d : Doc) (n : N) (f : string) (v : Value),
        getv d "_id" = VId n ->
        matches (not_deleted (field_query f v (Some (VId n)))) d = false).
Proof.
  intros Hin failure. repeat apply conj.
  - intros doc ex w0. split; [|split; [|split]].
    + destruct (validateUniqueFields_mem uf doc ex w0) as (w' & Hv & _ & Htr).
      rewrite Hv. exact Htr.
    + unfold unique_queries. apply length_map.
    + intros Ht. by apply unique_query_issued.
    + apply validateUniqueFields_falsy.
  - intros u ex w0 Hu. apply validateUniqueFields_falsy.
    apply Forall_forall. intros f _. by apply fields_of_operator.
  - intros input hooked w1 Hhook Ht Hc.
    destruct (unique_rejection_some (race w1) uf hooked None (store w1) field Hin Ht Hc)
      as (f & Hh & Hf & Htf & Hcf).
    destruct (validateUniqueFields_mem uf hooked None w1) as (w' & Hv & (Hs & _) & _).
    rewrite Hh in Hv. exists f, w'. repeat split; try done.
    unfold create.
    rewrite (try_catch_thrown _ _ w w' (UNIQUE_FIELD_ERROR f (getv hooked f))); [reflexivity|].
    rewrite (bind_returned _ _ _ _ _ Hhook). by apply bind_thrown.
  - intros q incl u found w0 doc u' w1 Hfind Hhook Ht Hc.
    destruct (unique_rejection_some (race w1) uf (fields_of u') (Some (getv doc "_id"))
                (store w1) field Hin Ht Hc) as (f & Hh & Hf & Htf & Hcf).
    destruct (validateUniqueFields_mem uf (fields_of u') (Some (getv doc "_id")) w1)
      as (w' & Hv & (Hs & _) & _).
    rewrite Hh in Hv. exists f, w'. repeat split; try done.
    unfold update.
    rewrite (try_catch_thrown _ _ w w' (UNIQUE_FIELD_ERROR f (getv (fields_of u') f)));
      [reflexivity|].
    rewrite (bind_returned _ _ _ _ _ Hfind). cbv beta iota.
    rewrite (bind_returned _ _ _ _ _ Hhook). cbv beta iota zeta. cbn [fst snd].
    by apply bind_thrown.
  - intros id u found w0 doc u' w1 Hfind Hhook Ht Hc.
    destruct (unique_rejection_some (race w1) uf (fields_of u') (Some (getv doc "_id"))
                (store w1) field Hin Ht Hc) as (f & Hh & Hf & Htf & Hcf).
    destruct (validateUniqueFields_mem uf (fields_of u') (Some (getv doc "_id")) w1)
      as (w' & Hv & (Hs & _) & _).
    rewrite Hh in Hv. exists f, w'. repeat split; try done.
    unfold updateById.
    rewrite (try_catch_thrown _ _ w w' (UNIQUE_FIELD_ERROR f (getv (fields_of u') f)));
      [reflexivity|].
    rewrite (bind_returned _ _ _ _ _ Hfind). cbv beta iota.
    rewrite (bind_returned _ _ _ _ _ Hhook). cbv beta iota zeta. cbn [fst snd].
    by apply bind_thrown.
  - apply self_never_hits.
Qed.

Lemma unique_fields_checked_witness :
  let w := world_of [code_record 1 7] 7 in
  "code" ∈ ["code"]
  /\ (exists w',
        create MemModel plain_config ["code"] 10 (code_input 7) w
        = (Returned (Failure (mkError "UNIQUE_FIELD_ERROR" "The code must be unique."
                                ["Value '7' is already taken for code."])), w'))
  /\ validateUniqueFields MemModel ["code"] (code_input 0) None w = (Returned tt, w).
Proof.
  cbv zeta. split; [apply list_elem_of_here|].
  destruct (unique_fields_checked plain_config ["code"] 10 "code"
              (world_of [code_record 1 7] 7) (list_elem_of_here _ _))
    as (Hcheck & _ & Hcreate & _).
  split.
  - assert (truthy (getv (code_input 7) "code") = true) as Ht by (vm_compute; reflexivity).
    assert (collides "code" (getv (code_input 7) "code") None
              (store (world_of [code_record 1 7] 7)) = true) as Hc by (vm_compute; reflexivity).
    destruct (Hcreate (code_input 7) (code_input 7) _ eq_refl Ht Hc)
      as (f & w' & Hf & _ & _ & Hcr & _).
    apply list_elem_of_singleton in Hf. subst f.
    exists w'. rewrite Hcr. vm_compute. reflexivity.
  - apply (Hcheck (code_input 0) None). repeat constructor.
Defined.

(** ** The slug stage when the source field is missing or falsy *)

Lemma create_body_checks {A} (m : Model) (cfg : Config) (uf : list string)
  (input : Doc) (rest : Doc -> M A) (w : World) :
  (hooked <- executeHook (beforeCreate cfg) input ;;
   validateUniqueFields m uf hooked None ;;;
   validated <- validateDocument cfg hooked ;;
   rest validated) w
  = (validated <- create_checks m cfg uf input ;; rest validated) w.
Proof.
  unfold create_checks. rewrite bind_assoc. apply bind_ext. intros hooked w1 _.
  by rewrite bind_assoc.
Qed.

Lemma bulkCreate_callback (m : Model) (cfg : Config) (uf : list string) (fuel : nat)
  (doc : Doc) (w : World) :
  (hooked <- executeHook (beforeCreate cfg) doc ;;
   validateUniqueFields m uf hooked None ;;;
   validated <- validateDocument cfg hooked ;;
   generateUniqueSlug m cfg fuel validated None) w
  = bulkCreate_prepare m cfg uf fuel doc w.
Proof.
  unfold bulkCreate_prepare.
  apply (create_body_checks m cfg uf doc (fun validated => generateUniqueSlug m cfg fuel validated None)).
Qed.

(** The slug loop on the in-memory engine never rejects and writes
    nothing. *)
Lemma slug_loop_mem_total (cfg : Config) (n : nat) (v : Value) (ex : option Value)
  (slug : string) (c : N) (w : World) :
  exists o w',
    slug_loop MemModel cfg n v ex slug c w = (o, w')
    /\ same_data w w' /\ forall e, o <> Thrown e.
Proof.
  revert slug c w. induction n as [|n IH]; intros slug c w.
  - exists Diverged, w. split; [reflexivity|]. split; [apply same_data_refl|]. discriminate.
  - cbn [slug_loop]. unfold bind at 1. rewrite exists_mem.
    destruct (existsb _ (store w)); cbn [negb].
    + destruct (IH (slug_uniqueResolver cfg (slug_generator cfg v) (c + 1)%N) (c + 1)%N
                  (logged (EvExists (not_deleted (field_query (slug_targetField cfg)
                                                    (VStr slug) ex))) w))
        as (o & w' & H & S & Hne).
      exists o, w'. split; [exact H|]. split; [|exact Hne].
      eapply same_data_trans; [apply same_data_logged|exact S].
    + eexists _, _. split; [reflexivity|]. split; [apply same_data_logged|]. discriminate.
Qed.

(** What [bulkCreate] does with one document on the in-memory engine,
    without hooks and validators and when no unique field collides: it
    writes nothing, and it rejects only for a missing source field. *)
Lemma bulkCreate_prepare_mem (cfg : Config) (uf : list string) (fuel : nat) (d : Doc)
  (w : World) :
  no_callbacks cfg ->
  offending uf d None (store w) = [] ->
  exists o w',
    bulkCreate_prepare MemModel cfg uf fuel d w = (o, w')
    /\ same_data w w'
    /\ (forall e, o = Thrown e -> e = ExnError (source_missing cfg))
    /\ (slug_enabled cfg = true -> has_key d (slug_sourceField cfg) = false ->
        o = Thrown (ExnError (source_missing cfg))).
Proof.
  intros Hnc Hoff. pose proof Hnc as (Hb & _).
  destruct (validateUniqueFields_mem uf d None w) as (w1 & Hv & S1 & _).
  unfold unique_rejections in Hv. rewrite Hoff in Hv. cbn [map first_rejection] in Hv.
  assert (create_checks MemModel cfg uf d w = (Returned d, w1)) as Hchecks.
  { unfold create_checks. rewrite Hb. unfold executeHook. rewrite bind_ret.
    rewrite (bind_returned _ _ _ _ _ Hv). by apply validateDocument_plain. }
  unfold bulkCreate_prepare. rewrite (bind_returned _ _ _ _ _ Hchecks).
  unfold generateUniqueSlug. destruct (slug_enabled cfg); cbn [negb].
  2:{ exists (Returned d), w1. split; [reflexivity|]. split; [exact S1|].
      split; [intros e H; discriminate H|intros H; discriminate H]. }
  destruct (has_key d (slug_sourceField cfg)); cbn [negb].
  2:{ eexists _, w1. split; [reflexivity|]. split; [exact S1|].
      split; [by intros e [= <-]|reflexivity]. }
  destruct (truthy (getv d (slug_sourceField cfg))); cbn [negb].
  2:{ exists (Returned d), w1. split; [reflexivity|]. split; [exact S1|].
      split; [intros e H; discriminate H|intros _ H; discriminate H]. }
  destruct (slug_loop_mem_total cfg fuel (getv d (slug_sourceField cfg)) None
              (slug_generator cfg (getv d (slug_sourceField cfg))) 0 w1)
    as (o & w2 & Hl & S2 & Hne).
  unfold bind. rewrite Hl. destruct o as [slug|e|].
  - eexists _, _. split; [reflexivity|]. split; [by eapply same_data_trans|].
    split; [intros e H; discriminate H|intros _ H; discriminate H].
  - by destruct (Hne e).
  - eexists _, _. split; [reflexivity|]. split; [by eapply same_data_trans|].
    split; [intros e H; discriminate H|intros _ H; discriminate H].
Qed.

Lemma bulkCreate_prepare_all_mem (cfg : Config) (uf : list string) (fuel : nat)
  (docs : list Doc) (w : World) :
  no_callbacks cfg ->
  slug_enabled cfg = true ->
  Forall (fun d => offending uf d None (store w) = []) docs ->
  exists os w',
    run_all (bulkCreate_prepare MemModel cfg uf fuel) docs w = (os, w')
    /\ same_data w w'
    /\ Forall (fun e => e = ExnError (source_missing cfg)) (omap rejection os)
    /\ ((exists d, d ∈ docs /\ has_key d (slug_sourceField cfg) = false) ->
        omap rejection os <> []).
Proof.
  intros Hnc He Hall. revert w Hall. induction docs as [|d r IH]; intros w Hall.
  - exists [], w. split; [reflexivity|]. split; [apply same_data_refl|].
    split; [constructor|]. intros (d & Hd & _). by apply elem_of_nil in Hd.
  - apply Forall_cons in Hall as [Hd Hr].
    destruct (bulkCreate_prepare_mem cfg uf fuel d w Hnc Hd) as (o & w1 & H1 & S1 & Ho & Hmiss).
    destruct (IH w1) as (os & w2 & H2 & S2 & Hrej & Hsome).
    { eapply Forall_impl; [exact Hr|]. intros x Hx. cbv beta.
      by rewrite (offending_same _ _ _ _ _ S1). }
    exists (o :: os), w2. split; [exact (run_all_cons _ _ _ _ _ _ _ _ H1 H2)|].
    split; [by eapply same_data_trans|]. split.
    + destruct o as [x|e|].
      * exact Hrej.
      * change (omap rejection (Thrown e :: os)) with (e :: omap rejection os).
        constructor; [by apply Ho|exact Hrej].
      * exact Hrej.
    + intros (x & Hx & Hk). apply elem_of_cons in Hx as [->|Hx].
      * rewrite (Hmiss He Hk). discriminate.
      * destruct o as [y|e|]; [|discriminate|]; apply Hsome; by exists x.
Qed.

(** C3, as stated, fails: with slug generation enabled, an input without
    the source field makes [create] return a DATABASE_ERROR envelope and
    [bulkCreate] a BULK_CREATE_ERROR envelope, and nothing is stored. *)
Lemma create_without_source_field_fails :
  create MemModel slug_config [] 10 {[ "title" := VStr "x" ]} empty_world
  = (Returned (Failure (mkError "DATABASE_ERROR"
                          "Source field 'name' not found in document." [])),
     empty_world)
  /\ bulkCreate MemModel slug_config [] 10 [alpha_input; {[ "title" := VStr "x" ]}] false None
       empty_world
     = (Returned (Failure (mkError "BULK_CREATE_ERROR"
                             "Source field 'name' not found in document." [])),
        logged (EvExists (not_deleted (field_query "slug" (VStr "alpha") None))) empty_world).
Proof. split; vm_compute; reflexivity. Qed.

(** C3, amended.  With slug generation enabled, let the document be the
    one that the [beforeCreate] hook, the uniqueness check and the
    validation leave.  When it has the source field with a falsy value,
    [create] and [bulkCreate] (without skipValidation) behave as they do
    with slug generation disabled.  When it has no source field, [create]
    returns a DATABASE_ERROR envelope carrying the slug generator's
    message and calls the engine no further.  [bulkCreate] returns a
    BULK_CREATE_ERROR envelope with that message, without inserting,
    whenever some document is rejected and every rejection is that one:
    on the in-memory engine, without hooks and validators and without
    unique-field collisions, this is so as soon as one document of the
    list lacks the source field, whatever the other documents are, and
    the collection is left as it was. *)
Theorem slug_stage_on_create
  (m : Model) (cfg : Config) (uf : list string) (fuel : nat) (input : Doc)
  (docs : list Doc) (ordered : option bool) (w : World) :
  slug_enabled cfg = true ->
  (forall validated w1,
      create_checks m cfg uf input w = (Returned validated, w1) ->
      has_key validated (slug_sourceField cfg) = true ->
      truthy (getv validated (slug_sourceField cfg)) = false ->
      create m cfg uf fuel input w = create m (with_slug cfg false) uf fuel input w)
  /\ ((forall d w0 validated w1,
          d ∈ docs -> create_checks m cfg uf d w0 = (Returned validated, w1) ->
          has_key validated (slug_sourceField cfg) = true
          /\ truthy (getv validated (slug_sourceField cfg)) = false) ->
      bulkCreate m cfg uf fuel docs false ordered w
      = bulkCreate m (with_slug cfg false) uf fuel docs false ordered w)
  /\ (forall validated w1,
        create_checks m cfg uf input w = (Returned validated, w1) ->
        has_key validated (slug_sourceField cfg) = false ->
        create m cfg uf fuel input w
        = (Returned (Failure (mkError "DATABASE_ERROR" (source_missing cfg) [])), w1))
  /\ (forall os w1,
        run_all (bulkCreate_prepare m cfg uf fuel) docs w = (os, w1) ->
        omap rejection os <> [] ->
        Forall (fun e => e = ExnError (source_missing cfg)) (omap rejection os) ->
        bulkCreate m cfg uf fuel docs false ordered w
        = (Returned (Failure (mkError "BULK_CREATE_ERROR" (source_missing cfg) [])), w1))
  /\ (no_callbacks cfg ->
      Forall (fun d => offending uf d None (store w) = []) docs ->
      (exists d, d ∈ docs /\ has_key d (slug_sourceField cfg) = false) ->
      exists w1,
        bulkCreate MemModel cfg uf fuel docs false ordered w
        = (Returned (Failure (mkError "BULK_CREATE_ERROR" (source_missing cfg) [])), w1)
        /\ same_data w w1).
Proof.
  intros He.
  assert (forall (m' : Model) os w1,
            run_all (bulkCreate_prepare m' cfg uf fuel) docs w = (os, w1) ->
            omap rejection os <> [] ->
            Forall (fun e => e = ExnError (source_missing cfg)) (omap rejection os) ->
            bulkCreate m' cfg uf fuel docs false ordered w
            = (Returned (Failure (mkError "BULK_CREATE_ERROR" (source_missing cfg) [])), w1))
    as Hbulk.
  { intros m' os w1 Hrun Hne Hall. unfold bulkCreate. cbn [negb].
    rewrite (try_catch_thrown _ _ w w1 (ExnError (source_missing cfg))); [reflexivity|].
    apply bind_thrown.
    rewrite (promise_all_ext _ (bulkCreate_prepare m' cfg uf fuel) docs w)
      by (intros d w0 _; apply bulkCreate_callback).
    unfold promise_all. rewrite Hrun. f_equal. apply settle_all_thrown.
    by apply first_rejection_same. }
  repeat apply conj.
  - intros validated w1 Hchecks Hk Ht. unfold create. apply try_catch_ext.
    apply bind_ext. intros hooked wa Hh. apply bind_ext. intros [] wb Hu.
    apply bind_ext. intros v wc Hv.
    assert (create_checks m cfg uf input w = (Returned v, wc)) as Hc.
    { unfold create_checks. rewrite (bind_returned _ _ _ _ _ Hh).
      by rewrite (bind_returned _ _ _ _ _ Hu). }
    assert (v = validated) as -> by congruence.
    rewrite (generateUniqueSlug_skips m cfg fuel validated None Hk Ht).
    by rewrite generateUniqueSlug_disabled.
  - intros Hall. unfold bulkCreate. cbn [negb]. apply try_catch_ext. apply bind_ext_l.
    apply promise_all_ext. intros d w0 Hd.
    rewrite (bulkCreate_callback m cfg uf fuel d w0).
    rewrite (bulkCreate_callback m (with_slug cfg false) uf fuel d w0).
    unfold bulkCreate_prepare.
    change (create_checks m (with_slug cfg false) uf d) with (create_checks m cfg uf d).
    apply bind_ext. intros v w2 Hv. destruct (Hall d w0 v w2 Hd Hv) as [Hk Ht].
    rewrite (generateUniqueSlug_skips m cfg fuel v None Hk Ht).
    by rewrite generateUniqueSlug_disabled.
  - intros validated w1 Hchecks Hk. unfold create.
    rewrite (try_catch_thrown _ _ w w1 (ExnError (source_missing cfg))); [reflexivity|].
    unfold create_checks in Hchecks. unfold bind at 1 in Hchecks.
    destruct (executeHook (beforeCreate cfg) input w) as [[hooked|e|] wa] eqn:Hh;
      try discriminate Hchecks.
    unfold bind at 1 in Hchecks.
    destruct (validateUniqueFields m uf hooked None wa) as [[[]|e|] wb] eqn:Hu;
      try discriminate Hchecks.
    rewrite (bind_returned _ _ _ _ _ Hh), (bind_returned _ _ _ _ _ Hu).
    rewrite (bind_returned _ _ _ _ _ Hchecks).
    rewrite (generateUniqueSlug_missing m cfg fuel validated None He Hk). reflexivity.
  - apply Hbulk.
  - intros Hnc Hoff Hmissing.
    destruct (bulkCreate_prepare_all_mem cfg uf fuel docs w Hnc He Hoff)
      as (os & w1 & Hrun & S & Hall & Hne).
    exists w1. split; [|exact S]. by apply (Hbulk MemModel os w1 Hrun (Hne Hmissing)).
Qed.

Lemma slug_stage_on_create_witness :
  slug_enabled slug_config = true
  /\ create MemModel slug_config [] 10 {[ "name" := VStr "" ]} empty_world
     = create MemModel (with_slug slug_config false) [] 10 {[ "name" := VStr "" ]} empty_world
  /\ create MemModel slug_config [] 10 {[ "title" := VStr "x" ]} empty_world
     = (Returned (Failure (mkError "DATABASE_ERROR" (source_missing slug_config) [])),
        empty_world)
  /\ exists w1,
      bulkCreate MemModel slug_config [] 10 [alpha_input; {[ "title" := VStr "x" ]}] false None
        empty_world
      = (Returned (Failure (mkError "BULK_CREATE_ERROR" (source_missing slug_config) [])), w1)
      /\ same_data empty_world w1.
Proof.
  split; [reflexivity|].
  split; [|split].
  - eapply (slug_stage_on_create MemModel slug_config [] 10 {[ "name" := VStr "" ]} [] None
              empty_world eq_refl).
    + vm_compute. reflexivity.
    + vm_compute. reflexivity.
    + vm_compute. reflexivity.
  - eapply (slug_stage_on_create MemModel slug_config [] 10 {[ "title" := VStr "x" ]} [] None
              empty_world eq_refl).
    + vm_compute. reflexivity.
    + vm_compute. reflexivity.
  - apply (slug_stage_on_create MemModel slug_config [] 10 ∅
             [alpha_input; {[ "title" := VStr "x" ]}] None empty_world eq_refl).
    + repeat split; reflexivity.
    + repeat constructor.
    + exists {[ "title" := VStr "x" ]}. split; [|vm_compute; reflexivity].
      apply list_elem_of_further, list_elem_of_here.
Defined.

(** * Further properties of the code *)

(** ** What the awaited operations do with failures *)

Lemma try_catch_rejects_only {B} (body : M B) (wrap : ErrorResponse -> B) (fallback : string) :
  rejects_only_without_message (try_catch body (as_response wrap fallback)).
Proof. intros w w' e H. apply try_catch_rejects in H as (n & _ & ->). by exists n. Qed.

(** X1.  Whatever the engine, the hooks and the validators do, the
    operations that await every step inside their [try] ([create],
    [findById], [update], [updateById], [delete], [deleteById], [restore],
    [restoreById], [clone], [aggregate], [exportData] and the bulk and
    batch operations) are rejected in one case only: when a step rejects
    with [undefined] or [null], reading [message] off that value throws
    inside the [catch], and the operation is rejected with that
    [TypeError].  Every other failure comes back as an envelope.  A
    [create] whose [beforeCreate] hook rejects with [undefined] or [null]
    is rejected in this way. *)
Theorem awaited_operations_reject_only_nullish
  (m : Model) (cfg : Config) (uf : list string) (fuel : nat)
  (sa : FindAllArgs -> string) (paths : list string)
  (doc : Doc) (u : Update) (docs : list Doc) (q : Query) (qs : list Query)
  (ups : list (Query * Update))
  (id : Value) (b1 b2 : bool) (ob : option bool) (fmt : ExportFormat)
  (inc exc : option (list string))
  (Params Pipeline : Type) (pipes : gmap string (Params -> Pipeline))
  (agg : Pipeline -> M (list Doc)) (name : string) (params : Params) :
  rejects_only_without_message (create m cfg uf fuel doc)
  /\ rejects_only_without_message (findById m cfg id b1 b2)
  /\ rejects_only_without_message (update m cfg uf fuel q u b1)
  /\ rejects_only_without_message (updateById m cfg uf id u)
  /\ rejects_only_without_message (delete_ m cfg q)
  /\ rejects_only_without_message (deleteById m cfg id)
  /\ rejects_only_without_message (restore m cfg q)
  /\ rejects_only_without_message (restoreById m cfg id)
  /\ rejects_only_without_message (clone m cfg uf fuel id doc)
  /\ rejects_only_without_message (aggregate Params Pipeline pipes agg name params)
  /\ rejects_only_without_message (exportData m cfg sa paths q fmt inc exc)
  /\ rejects_only_without_message (bulkCreate m cfg uf fuel docs b1 ob)
  /\ rejects_only_without_message (bulkUpdate m cfg q u b1)
  /\ rejects_only_without_message (bulkDelete m q b1)
  /\ rejects_only_without_message (batchCreate m cfg uf fuel docs b1 b2 ob)
  /\ rejects_only_without_message (batchUpdate m cfg ups b1)
  /\ rejects_only_without_message (batchDelete m cfg qs ob b1)
  /\ rejects_only_without_message (batchRestore m cfg qs b1)
  /\ (forall hook n w w1,
        beforeCreate cfg = Some hook ->
        hook doc w = (Thrown (ExnNullish n), w1) ->
        create m cfg uf fuel doc w = (Thrown (NO_MESSAGE n), w1))
  /\ (forall e w w1,
        create m cfg uf fuel doc w = (Thrown e, w1) ->
        exists n,
          e = NO_MESSAGE n
          /\ e = ExnError ("Cannot read properties of "
                            +:+ (if n then "null" else "undefined")
                            +:+ " (reading 'message')")).
Proof.
  assert (rejects_only_without_message (create m cfg uf fuel doc)) as Hcreate
    by apply try_catch_rejects_only.
  repeat apply conj; try apply try_catch_rejects_only.
  - unfold restore. destruct (negb (softDelete cfg)); [discriminate|].
    apply try_catch_rejects_only.
  - unfold restoreById. destruct (negb (softDelete cfg)); [discriminate|].
    apply try_catch_rejects_only.
  - intros w w' e. unfold clone, settle, bind, try_catch.
    destruct (repo_findById m id false w) as [[[d|]|e0|] w1]; cbn.
    + apply (try_catch_rejects_only _ Failure "DATABASE_ERROR").
    + discriminate.
    + destruct e0 as [r|msg|n]; cbn; try discriminate. intros [= <- <-]. by exists n.
    + discriminate.
  - unfold batchRestore. destruct (negb (softDelete cfg)); [discriminate|].
    apply try_catch_rejects_only.
  - intros hook n w w1 Hh Hrej. unfold create.
    rewrite (try_catch_thrown _ _ w w1 (ExnNullish n)); [reflexivity|].
    apply bind_thrown. unfold executeHook. by rewrite Hh.
  - intros e w w1 H. destruct (Hcreate w w1 e H) as (n & ->). by exists n.
Qed.

Lemma awaited_operations_reject_only_nullish_witness :
  let cfg := with_beforeCreate plain_config (Some rejecting_hook) in
  beforeCreate cfg = Some rejecting_hook
  /\ rejecting_hook alpha_input empty_world = (Thrown (ExnNullish false), empty_world)
  /\ create MemModel cfg [] 10 alpha_input empty_world
     = (Thrown (ExnError "Cannot read properties of undefined (reading 'message')"),
        empty_world).
Proof.
  cbv zeta. split; [reflexivity|]. split; [reflexivity|].
  destruct (awaited_operations_reject_only_nullish MemModel
              (with_beforeCreate plain_config (Some rejecting_hook)) [] 10
              (fun _ => "{}") [] alpha_input (UFields ∅) [] ∅ [] [] (VId 1) false false None
              FormatJson None None unit unit ∅ (fun _ => ret []) "p" tt)
    as (_ & _ & _ & _ & _ & _ & _ & _ & _ & _ & _ & _ & _ & _ & _ & _ & _ & _ & Hrej & _).
  exact (Hrej rejecting_hook false empty_world empty_world eq_refl eq_refl).
Defined.

(** X2.  When the record an operation starts from is absent, the
    operation answers with a NOT_FOUND_ERROR envelope right after the
    lookup: no hook runs and nothing is written (the world is the one the
    lookup left). *)
Theorem absent_record_is_not_found
  (m : Model) (cfg : Config) (uf : list string) (fuel : nat)
  (q : Query) (id : Value) (input : Doc) (u : Update) (b : bool) (w w' : World) :
  let not_found (msg : string) := Failure (mkError "NOT_FOUND_ERROR" msg []) in
  (repo_findOne m q no_options b w = (Returned None, w') ->
   update m cfg uf fuel q u b w
   = (Returned (not_found "Document to update not found."), w'))
  /\ (repo_findOne m q no_options false w = (Returned None, w') ->
      delete_ m cfg q w = (Returned (not_found "Document to delete not found."), w'))
  /\ (repo_findById m id false w = (Returned None, w') ->
      updateById m cfg uf id u w
      = (Returned (not_found "Document to update not found."), w')
      /\ deleteById m cfg id w
         = (Returned (not_found "Document to delete not found."), w')
      /\ clone m cfg uf fuel id input w
         = (Returned (not_found "Source document not found."), w'))
  /\ (repo_findById m id b w = (Returned None, w') ->
      forall populate,
        findById m cfg id populate b w
        = (Returned (not_found "The requested document was not found."), w'))
  /\ (softDelete cfg = true ->
      (repo_restore m q w = (Returned None, w') ->
       restore m cfg q w
       = (Returned (not_found "Document not found in deleted state."), w'))
      /\ (repo_restoreById m id w = (Returned None, w') ->
          restoreById m cfg id w
          = (Returned (not_found "Document not found in deleted state."), w'))).
Proof.
  cbv zeta. repeat apply conj.
  - intros H. unfold update.
    rewrite (try_catch_thrown _ _ w w' (NOT_FOUND "Document to update not found."));
      [reflexivity|]. by rewrite (bind_returned _ _ _ _ _ H).
  - intros H. unfold delete_.
    rewrite (try_catch_thrown _ _ w w' (NOT_FOUND "Document to delete not found."));
      [reflexivity|]. by rewrite (bind_returned _ _ _ _ _ H).
  - intros H. repeat apply conj.
    + unfold updateById.
      rewrite (try_catch_thrown _ _ w w' (NOT_FOUND "Document to update not found."));
        [reflexivity|]. by rewrite (bind_returned _ _ _ _ _ H).
    + unfold deleteById.
      rewrite (try_catch_thrown _ _ w w' (NOT_FOUND "Document to delete not found."));
        [reflexivity|]. by rewrite (bind_returned _ _ _ _ _ H).
    + unfold clone, settle. unfold bind at 1.
      rewrite (try_catch_thrown _ _ w w' (NOT_FOUND "Source document not found."));
        [reflexivity|]. by rewrite (bind_returned _ _ _ _ _ H).
  - intros H populate. unfold findById.
    rewrite (try_catch_thrown _ _ w w' (NOT_FOUND "The requested document was not found."));
      [reflexivity|]. by rewrite (bind_returned _ _ _ _ _ H).
  - intros Hs. split; intros H.
    + unfold restore. rewrite Hs. cbn [negb].
      rewrite (try_catch_thrown _ _ w w' (NOT_FOUND "Document not found in deleted state."));
        [reflexivity|]. by rewrite (bind_returned _ _ _ _ _ H).
    + unfold restoreById. rewrite Hs. cbn [negb].
      rewrite (try_catch_thrown _ _ w w' (NOT_FOUND "Document not found in deleted state."));
        [reflexivity|]. by rewrite (bind_returned _ _ _ _ _ H).
Qed.

Lemma absent_record_is_not_found_witness :
  repo_findById MemModel (VId 9) false empty_world
  = (Returned None, logged (EvFindOne (not_deleted (by_id (VId 9))) no_options) empty_world)
  /\ fst (deleteById MemModel plain_config (VId 9) empty_world)
     = Returned (Failure (mkError "NOT_FOUND_ERROR" "Document to delete not found." [])).
Proof.
  assert (repo_findById MemModel (VId 9) false empty_world
          = (Returned None,
             logged (EvFindOne (not_deleted (by_id (VId 9))) no_options) empty_world)) as H
    by (vm_compute; reflexivity).
  split; [exact H|].
  destruct (absent_record_is_not_found MemModel plain_config [] 0 ∅ (VId 9) ∅ (UFields ∅)
              false empty_world
              (logged (EvFindOne (not_deleted (by_id (VId 9))) no_options) empty_world))
    as (_ & _ & Hid & _).
  destruct (Hid H) as (_ & -> & _). reflexivity.
Defined.

(** X3.  A failure of the engine in the first call of an operation comes
    back as an error envelope with the code of that operation family and
    the engine's message: DATABASE_ERROR for [update], [delete] and
    [findById], RESTORE_ERROR for [restore], CLONE_ERROR for [clone],
    BULK_DELETE_ERROR for [bulkDelete]. *)
Theorem engine_failure_is_wrapped
  (m : Model) (cfg : Config) (uf : list string) (fuel : nat)
  (q : Query) (id : Value) (input : Doc) (u : Update) (b : bool) (msg : string)
  (w w' : World) :
  (repo_findOne m q no_options b w = (Thrown (ExnError msg), w') ->
   update m cfg uf fuel q u b w
   = (Returned (Failure (mkError "DATABASE_ERROR" msg [])), w'))
  /\ (repo_findOne m q no_options false w = (Thrown (ExnError msg), w') ->
      delete_ m cfg q w = (Returned (Failure (mkError "DATABASE_ERROR" msg [])), w'))
  /\ (repo_findById m id b w = (Thrown (ExnError msg), w') ->
      forall populate,
        findById m cfg id populate b w
        = (Returned (Failure (mkError "DATABASE_ERROR" msg [])), w'))
  /\ (repo_findById m id false w = (Thrown (ExnError msg), w') ->
      clone m cfg uf fuel id input w
      = (Returned (Failure (mkError "CLONE_ERROR" msg [])), w'))
  /\ (softDelete cfg = true ->
      repo_restore m q w = (Thrown (ExnError msg), w') ->
      restore m cfg q w = (Returned (Failure (mkError "RESTORE_ERROR" msg [])), w'))
  /\ (repo_deleteMany m q b w = (Thrown (ExnError msg), w') ->
      bulkDelete m q b w = (Returned (Failure (mkError "BULK_DELETE_ERROR" msg [])), w')).
Proof.
  repeat apply conj.
  - intros H. unfold update. rewrite (try_catch_thrown _ _ w w' (ExnError msg)); [reflexivity|].
    by apply bind_thrown.
  - intros H. unfold delete_. rewrite (try_catch_thrown _ _ w w' (ExnError msg)); [reflexivity|].
    by apply bind_thrown.
  - intros H populate. unfold findById. rewrite (try_catch_thrown _ _ w w' (ExnError msg)); [reflexivity|].
    by apply bind_thrown.
  - intros H. unfold clone, settle. unfold bind at 1. rewrite (try_catch_thrown _ _ w w' (ExnError msg)); [reflexivity|].
    by apply bind_thrown.
  - intros Hs H. unfold restore. rewrite Hs. cbn [negb].
    rewrite (try_catch_thrown _ _ w w' (ExnError msg)); [reflexivity|]. by apply bind_thrown.
  - intros H. unfold bulkDelete. rewrite (try_catch_thrown _ _ w w' (ExnError msg)); [reflexivity|].
    by apply bind_thrown.
Qed.

Lemma engine_failure_is_wrapped_witness :
  update (failing_model "down") plain_config [] 0 ∅ (UFields ∅) false empty_world
  = (Returned (Failure (mkError "DATABASE_ERROR" "down" [])), empty_world).
Proof.
  apply (engine_failure_is_wrapped (failing_model "down") plain_config [] 0 ∅ (VId 1) ∅
           (UFields ∅) false "down" empty_world empty_world).
  reflexivity.
Defined.

(** ** The slug loop *)

Lemma taken_live_values (f v : string) (s : list Doc) :
  taken f v s = true <-> v ∈ live_values f s.
Proof.
  unfold taken, live_values. rewrite existsb_exists, list_elem_of_omap. split.
  - intros (d & Hin & Hd). apply andb_true_iff in Hd as [Hl Hv].
    apply bool_decide_eq_true in Hv. exists d. split; [by apply list_elem_of_In|].
    by rewrite Hl, Hv.
  - intros (d & Hin & Hd). exists d. split; [by apply list_elem_of_In|].
    destruct (is_live d); [|discriminate]. destruct (getv d f); try discriminate.
    injection Hd as ->. cbn [andb]. by apply bool_decide_eq_true.
Qed.

Lemma live_values_length (f : string) (s : list Doc) :
  (length (live_values f s) <= length s)%nat.
Proof.
  unfold live_values. induction s as [|d r IH]; [done|]. cbn [omap list_omap length].
  destruct (if is_live d then _ else _); cbn [length]; lia.
Qed.

(** Among [family 0 .. family n] one slug is free when the collection
    holds [n] records. *)
Lemma some_family_free (f base : string) (s : list Doc) :
  exists j : nat, (j <= length s)%nat /\ taken f (family base (N.of_nat j)) s = false.
Proof.
  destruct (decide (Forall (fun j => taken f (family base (N.of_nat j)) s = true)
                      (seq 0 (S (length s))))) as [Hall|Hnot].
  - exfalso.
    assert (NoDup (map (fun j => family base (N.of_nat j)) (seq 0 (S (length s))))) as Hnd.
    { apply NoDup_fmap_2_strong; [|apply NoDup_seq].
      intros x y _ _ H. apply family_inj in H. lia. }
    assert (map (fun j => family base (N.of_nat j)) (seq 0 (S (length s)))
            ⊆+ live_values f s) as Hsub.
    { apply NoDup_submseteq; [exact Hnd|]. intros v Hv.
      apply list_elem_of_fmap in Hv as (j & -> & Hj).
      apply taken_live_values. eapply Forall_forall in Hall; eauto. }
    apply submseteq_length in Hsub. rewrite length_map, length_seq in Hsub.
    pose proof (live_values_length f s). lia.
  - apply (not_Forall_Exists _ _) in Hnot.
    apply Exists_exists in Hnot as (j & Hj & Hfree). apply elem_of_seq in Hj.
    exists j. split; [lia|]. cbn in Hfree. by destruct (taken _ _ _).
Qed.

Lemma least_free (p : nat -> bool) (n : nat) :
  p n = false -> exists k, (k <= n)%nat /\ p k = false /\ forall j, (j < k)%nat -> p j = true.
Proof.
  induction n as [n IH] using lt_wf_ind. intros Hn.
  destruct (decide (Forall (fun j => p j = true) (seq 0 n))) as [Hall|Hnot].
  - exists n. split; [lia|]. split; [exact Hn|]. intros j Hj.
    eapply Forall_forall in Hall; [exact Hall|]. apply elem_of_seq. lia.
  - apply (not_Forall_Exists _ _) in Hnot.
    apply Exists_exists in Hnot as (j & Hj & Hfree). apply elem_of_seq in Hj.
    cbn in Hfree.
    destruct (IH j ltac:(lia)) as (k & Hk & Hpk & Hlt); [by destruct (p j)|].
    exists k. split; [lia|]. by split.
Qed.

(** X4.  With the default resolver the slug loop ends: on a collection of
    [n] records a create whose source value is truthy (no hooks, no
    validators, no truthy unique field in the input) succeeds within
    [n + 1] iterations, the slug it stores is one no live record held,
    and live records keep distinct slugs. *)
Theorem create_assigns_fresh_slug
  (cfg : Config) (uf : list string) (fuel : nat) (input : Doc) (w : World) :
  slug_enabled cfg = true ->
  slug_uniqueResolver cfg = default_uniqueResolver ->
  no_callbacks cfg ->
  slug_targetField cfg <> "_id" ->
  slug_targetField cfg <> "deletedAt" ->
  truthy (getv input (slug_sourceField cfg)) = true ->
  Forall (fun f => truthy (getv input f) = false) uf ->
  (length (store w) < fuel)%nat ->
  exists (slug : string) (d : Doc) (w' : World),
    create MemModel cfg uf fuel input w = (Returned (Success None (PDoc d)), w')
    /\ getv d (slug_targetField cfg) = VStr slug
    /\ taken (slug_targetField cfg) slug (store w) = false
    /\ store w' = (store w ++ [d])%list
    /\ (is_live input = true ->
        distinct_live (slug_targetField cfg) (store w) ->
        distinct_live (slug_targetField cfg) (store w')).
Proof.
  intros He Hr Hnc Hid Hdel Ht Huf Hfuel.
  set (base := slug_generator cfg (getv input (slug_sourceField cfg))).
  destruct (some_family_free (slug_targetField cfg) base (store w)) as (j & Hj & Hfree).
  destruct (least_free (fun i => taken (slug_targetField cfg) (family base (N.of_nat i)) (store w))
              j Hfree) as (k & Hk & Hkfree & Hbusy).
  destruct (create_mem_slugged cfg uf fuel input (N.of_nat k) w He Hr Hnc Hdel Ht Huf)
    as (w' & Hc & Hs).
  - intros i Hi. fold base. rewrite <- (N2Nat.id i). apply Hbusy. lia.
  - exact Hkfree.
  - lia.
  - fold base in Hc, Hs. eexists (family base (N.of_nat k)), _, w'.
    split; [exact Hc|]. split; [by apply created_doc_slug|]. split; [exact Hkfree|].
    split; [exact Hs|]. intros Hl Hd. rewrite Hs.
    eapply distinct_live_app; [exact Hd|by apply created_doc_slug|exact Hkfree].
Qed.

Lemma create_assigns_fresh_slug_witness :
  exists d w',
    create MemModel slug_config [] 2 alpha_input (world_of [alpha_record] 7)
    = (Returned (Success None (PDoc d)), w')
    /\ getv d "slug" = VStr "alpha-1".
Proof.
  destruct (create_assigns_fresh_slug slug_config [] 2 alpha_input (world_of [alpha_record] 7))
    as (slug & d & w' & Hc & Hslug & _).
  - reflexivity.
  - reflexivity.
  - repeat split; reflexivity.
  - discriminate.
  - discriminate.
  - vm_compute. reflexivity.
  - constructor.
  - simpl. lia.
  - exists d, w'. split; [exact Hc|].
    assert (fst (create MemModel slug_config [] 2 alpha_input (world_of [alpha_record] 7))
            = Returned (Success None
                          (PDoc {[ "_id" := VId 2; "name" := VStr "Alpha";
                                   "slug" := VStr "alpha-1" ]}))) as Hv
      by (vm_compute; reflexivity).
    rewrite Hc in Hv. cbn [fst] in Hv. injection Hv as ->. vm_compute. reflexivity.
Defined.

Lemma slug_loop_constant_diverges (cfg : Config) (v : Value) (n : nat) :
  (forall b c, slug_uniqueResolver cfg b c = b) ->
  slug_targetField cfg <> "deletedAt" ->
  forall (c : N) (w : World),
    taken (slug_targetField cfg) (slug_generator cfg v) (store w) = true ->
    exists w', slug_loop MemModel cfg n v None (slug_generator cfg v) c w = (Diverged, w')
               /\ same_data w w'.
Proof.
  intros Hr Hf. induction n as [|n IH]; intros c w Ht.
  - exists w. split; [reflexivity|apply same_data_refl].
  - cbn [slug_loop]. unfold bind at 1. rewrite exists_mem, taken_existsb by exact Hf.
    rewrite Ht. cbn [negb]. rewrite Hr.
    destruct (IH (c + 1)%N (logged (EvExists (not_deleted
                 (field_query (slug_targetField cfg) (VStr (slug_generator cfg v)) None))) w))
      as (w' & Hl & Hs); [exact Ht|].
    exists w'. split; [exact Hl|]. eapply same_data_trans; [apply same_data_logged|exact Hs].
Qed.

(** X5.  The loop has no bound of its own: with a collision resolver that
    ignores the counter, a create whose base slug is taken never returns,
    whatever the number of iterations allowed, and stores nothing. *)
Theorem create_loops_with_constant_resolver
  (cfg : Config) (fuel : nat) (input : Doc) (w : World) :
  slug_enabled cfg = true ->
  (forall b c, slug_uniqueResolver cfg b c = b) ->
  no_callbacks cfg ->
  slug_targetField cfg <> "deletedAt" ->
  truthy (getv input (slug_sourceField cfg)) = true ->
  taken (slug_targetField cfg) (slug_generator cfg (getv input (slug_sourceField cfg)))
    (store w) = true ->
  exists w', create MemModel cfg [] fuel input w = (Diverged, w') /\ same_data w w'.
Proof.
  intros He Hr Hnc Hf Ht Htaken. pose proof Hnc as (Hb & _).
  destruct (slug_loop_constant_diverges cfg (getv input (slug_sourceField cfg)) fuel Hr Hf 0%N w
              Htaken) as (w' & Hl & Hs).
  exists w'. split; [|exact Hs].
  unfold create, try_catch. rewrite Hb. unfold executeHook at 1.
  rewrite bind_ret.
  rewrite (bind_returned _ _ w w tt) by reflexivity.
  rewrite (bind_returned _ _ _ _ _ (validateDocument_plain cfg input w Hnc)).
  unfold bind at 1. unfold generateUniqueSlug. rewrite He, (truthy_has_key _ _ Ht), Ht.
  cbn [negb]. unfold bind at 1. rewrite Hl. reflexivity.
Qed.

Lemma create_loops_with_constant_resolver_witness :
  let cfg := mkConfig 10 100 1 false [] false [] [] true "name" "slug" slugify_lower
               (fun b _ => b) [] false [] None None None None None None None None
               false 300 true in
  fst (create MemModel cfg [] 50 alpha_input (world_of [alpha_record] 7)) = Diverged.
Proof.
  intros cfg.
  destruct (create_loops_with_constant_resolver cfg 50 alpha_input
              (world_of [alpha_record] 7)) as (w' & -> & _); try reflexivity.
  - repeat split; reflexivity.
  - discriminate.
Defined.

(** ** The cache *)

Lemma findOne_cached (m : Model) (cfg : Config) (sq : Query -> string) (q : Query)
  (populate includeDeleted : bool) :
  findOne m cfg sq q populate includeDeleted
  = getCachedData cfg (getCacheKey "findOne" (sq q))
      (findOne_getter m cfg q populate includeDeleted).
Proof. reflexivity. Qed.

Lemma getCachedData_compute_inv (cfg : Config) (key : string) (getter : M Envelope)
  (w w1 : World) (env : Envelope) :
  cache_enabled cfg = true ->
  (forall e, cache w !! key = Some e -> cache_ttl cfg * 1000 <= clock w - ce_timestamp e) ->
  getCachedData cfg key getter w = (Returned env, w1) ->
  exists wg,
    getter w = (Returned env, wg)
    /\ w1 = mkWorld (store wg) (next_id wg) (clock wg)
              (<[key := mkEntry env (clock wg)]> (cache wg)) (trace wg) (race wg).
Proof.
  intros Hc He.
  unfold getCachedData, cache_lookup, cache_resume, cache_fill, bind, cache_get, cache_set,
    now, ret.
  rewrite Hc. cbn [negb]. cbv beta iota.
  destruct (cache w !! key) as [e|] eqn:Hk.
  - specialize (He e eq_refl).
    replace (clock w - ce_timestamp e <? cache_ttl cfg * 1000) with false by lia.
    destruct (getter w) as [[data| |] wg]; intros H; try discriminate H.
    injection H as <- <-. by exists wg.
  - destruct (getter w) as [[data| |] wg]; intros H; try discriminate H.
    injection H as <- <-. by exists wg.
Qed.

(** X6.  The cache key of [findOne] is built from the query alone.  Once
    a [findOne] has been computed and cached, every [findOne] with the
    same query made before the entry expires returns that envelope,
    whatever its [populate] and [includeDeleted] arguments are, and does
    not call the engine. *)
Theorem findOne_cache_ignores_flags
  (m : Model) (cfg : Config) (sq : Query -> string) (q : Query)
  (populate includeDeleted : bool) (w0 w1 : World) (env : Envelope) :
  cache_enabled cfg = true ->
  (forall e, cache w0 !! getCacheKey "findOne" (sq q) = Some e ->
             cache_ttl cfg * 1000 <= clock w0 - ce_timestamp e) ->
  findOne m cfg sq q populate includeDeleted w0 = (Returned env, w1) ->
  forall (dt : Z) (populate' includeDeleted' : bool),
    dt < cache_ttl cfg * 1000 ->
    findOne m cfg sq q populate' includeDeleted' (advance dt w1)
    = (Returned env, advance dt w1).
Proof.
  intros Hc Hmiss Hf dt p' i' Hdt. rewrite findOne_cached in Hf.
  destruct (getCachedData_compute_inv cfg _ _ w0 w1 env Hc Hmiss Hf) as (wg & _ & ->).
  rewrite findOne_cached.
  rewrite (getCachedData_hit cfg _ _ _ (mkEntry env (clock wg)));
    [reflexivity|exact Hc|cbn [advance cache]; apply lookup_insert_eq|].
  cbn [advance clock ce_timestamp]. lia.
Qed.

Lemma findOne_cache_ignores_flags_witness :
  let cfg := with_cache plain_config true 300 in
  let q : Query := {[ "name" := CEq (VStr "a") ]} in
  let w1 := snd (findOne MemModel cfg (fun _ => "q") q false true (world_of [deleted_record] 9)) in
  is_deleted deleted_record = true
  /\ fst (findOne MemModel cfg (fun _ => "q") q false false (advance 1000 w1))
     = Returned (Success None (PDoc deleted_record)).
Proof.
  cbv zeta. split; [vm_compute; reflexivity|].
  destruct (findOne MemModel (with_cache plain_config true 300) (fun _ => "q")
              {[ "name" := CEq (VStr "a") ]} false true (world_of [deleted_record] 9))
    as [r w1] eqn:Hf.
  assert (r = Returned (Success None (PDoc deleted_record))) as ->.
  { apply (f_equal fst) in Hf. vm_compute in Hf. rewrite <- Hf. vm_compute. reflexivity. }
  cbn [snd].
  rewrite (findOne_cache_ignores_flags MemModel (with_cache plain_config true 300)
             (fun _ => "q") {[ "name" := CEq (VStr "a") ]} false true
             (world_of [deleted_record] 9) w1 (Success None (PDoc deleted_record)) eq_refl);
    [reflexivity| |exact Hf|vm_compute; reflexivity].
  intros e He. vm_compute in He. discriminate He.
Defined.

Lemma kc_ret {A} (a : A) : keeps_cache (ret a).
Proof. intros w w' r [= <- <-]. done. Qed.

Lemma kc_throw {A} (e : Exn) : keeps_cache (@throw A e).
Proof. intros w w' r [= <- <-]. done. Qed.

Lemma kc_bind {A B} (c : M A) (k : A -> M B) :
  keeps_cache c -> (forall a, keeps_cache (k a)) -> keeps_cache (bind c k).
Proof.
  intros Hc Hk w w' r. unfold bind. destruct (c w) as [[a|e|] w1] eqn:H1.
  - intros H2. destruct (Hc _ _ _ H1) as [E1 E2]. destruct (Hk _ _ _ _ H2) as [E3 E4].
    split; congruence.
  - intros [= <- <-]. by eapply Hc.
  - intros [= <- <-]. by eapply Hc.
Qed.

Lemma kc_try_catch {A} (body : M A) (h : Exn -> M A) :
  keeps_cache body -> (forall e, keeps_cache (h e)) -> keeps_cache (try_catch body h).
Proof.
  intros Hb Hh w w' r. unfold try_catch. destruct (body w) as [[a|e|] w1] eqn:H1.
  - intros [= <- <-]. by eapply Hb.
  - intros H2. destruct (Hb _ _ _ H1) as [E1 E2]. destruct (Hh _ _ _ _ H2) as [E3 E4].
    split; congruence.
  - intros [= <- <-]. by eapply Hb.
Qed.

Lemma kc_promise_all {A B} (f : A -> M B) (l : list A) :
  (forall x, keeps_cache (f x)) -> keeps_cache (promise_all f l).
Proof.
  intros Hf.
  assert (forall w os w', run_all f l w = (os, w') -> cache w' = cache w /\ clock w' = clock w)
    as Hrun.
  { induction l as [|x r IH]; intros w os w'; cbn [run_all]; [by intros [= <- <-]|].
    destruct (f x w) as [o w1] eqn:H1. destruct (Hf _ _ _ _ H1) as [E1 E2].
    destruct (run_all f r w1) as [os' w2] eqn:H2. destruct (IH _ _ _ H2) as [E3 E4].
    intros [= <- <-]. split; congruence. }
  intros w w' o. unfold promise_all. destruct (run_all f l w) as [os w1] eqn:H.
  intros [= <- <-]. by eapply Hrun.
Qed.

Lemma kc_as_response {A} (wrap : ErrorResponse -> A) (fallback : string) (e : Exn) :
  keeps_cache (as_response wrap fallback e).
Proof. destruct e; first [apply kc_ret|apply kc_throw]. Qed.

Lemma kc_map_m {A B} (f : A -> M B) (l : list A) :
  (forall x, keeps_cache (f x)) -> keeps_cache (map_m f l).
Proof.
  intros Hf. induction l as [|x r IH]; [apply kc_ret|]. cbn [map_m].
  apply kc_bind; [apply Hf|]. intros y. apply kc_bind; [apply IH|]. intros ys. apply kc_ret.
Qed.

Lemma kc_log (e : Event) : keeps_cache (log e).
Proof. intros w w' r [= <- <-]. done. Qed.

Lemma kc_get_store : keeps_cache get_store.
Proof. intros w w' r [= <- <-]. done. Qed.

Lemma kc_put_store (s : list Doc) : keeps_cache (put_store s).
Proof. intros w w' r [= <- <-]. done. Qed.

Lemma kc_fresh_id : keeps_cache fresh_id.
Proof. intros w w' r [= <- <-]. done. Qed.

Lemma kc_now : keeps_cache now.
Proof. intros w w' r [= <- <-]. done. Qed.

Lemma kc_window (o : QueryOptions) (l : list Doc) : keeps_cache (window o l).
Proof.
  unfold window. destruct (opt_skip o) as [k|]; [destruct (k <? 0)|];
    first [apply kc_throw|apply kc_ret].
Qed.

Lemma kc_select (q : Query) (o : QueryOptions) : keeps_cache (select q o).
Proof. apply kc_bind; [apply kc_get_store|]. intros s. apply kc_window. Qed.

Lemma kc_mem_findOneAndUpdate (q : Query) (u : Update) (o : QueryOptions) :
  keeps_cache (mem_findOneAndUpdate q u o).
Proof.
  apply kc_bind; [apply kc_get_store|]. intros s.
  destruct (match opt_sort o with
            | Some spec =>
                match head (sort_docs (Some spec) (filter (fun d => matches q d = true) s)) with
                | Some d0 => update_copy d0 (apply_update u) s
                | None => (None, s)
                end
            | None => update_first q (apply_update u) s
            end).
  apply kc_bind; [apply kc_put_store|]. intros _. apply kc_ret.
Qed.

Lemma kc_mem_findOneAndDelete (q : Query) (o : QueryOptions) :
  keeps_cache (mem_findOneAndDelete q o).
Proof.
  apply kc_bind; [apply kc_get_store|]. intros s.
  destruct (match opt_sort o with
            | Some spec =>
                match head (sort_docs (Some spec) (filter (fun d => matches q d = true) s)) with
                | Some d0 => remove_copy d0 s
                | None => (None, s)
                end
            | None => remove_first q s
            end).
  apply kc_bind; [apply kc_put_store|]. intros _. apply kc_ret.
Qed.

Ltac kc :=
  repeat first
    [ apply kc_ret | apply kc_throw | apply kc_log | apply kc_get_store | apply kc_put_store
    | apply kc_fresh_id | apply kc_now | apply kc_window | apply kc_select
    | apply kc_mem_findOneAndUpdate | apply kc_mem_findOneAndDelete | apply kc_as_response
    | apply kc_bind | apply kc_try_catch | apply kc_promise_all | apply kc_map_m
    | intro ].

Lemma kc_engine :
  (forall d, keeps_cache (m_save MemModel d))
  /\ (forall q o, keeps_cache (m_findOne MemModel q o))
  /\ (forall q u o, keeps_cache (m_findOneAndUpdate MemModel q u o))
  /\ (forall q o, keeps_cache (m_findOneAndDelete MemModel q o))
  /\ (forall q, keeps_cache (m_exists MemModel q))
  /\ (forall fs d, keeps_cache (m_populate MemModel fs d)).
Proof.
  repeat apply conj; intros; cbn [MemModel m_save m_findOne m_findOneAndUpdate
    m_findOneAndDelete m_exists m_populate]; unfold mem_save; kc.
Qed.

Lemma kc_applyPopulation (cfg : Config) (d : Doc) : keeps_cache (applyPopulation MemModel cfg d).
Proof.
  unfold applyPopulation. destruct (_ || _)%bool; [apply kc_ret|]. apply kc_engine.
Qed.

Lemma kc_populate_step (cfg : Config) (d : Doc) :
  keeps_cache (if populate_defaultPopulate cfg then applyPopulation MemModel cfg d else ret d).
Proof. destruct (populate_defaultPopulate cfg); [apply kc_applyPopulation|apply kc_ret]. Qed.

Lemma kc_validateUniqueFields (uf : list string) (doc : Doc) (ex : option Value) :
  keeps_cache (validateUniqueFields MemModel uf doc ex).
Proof.
  unfold validateUniqueFields, for_all. apply kc_bind; [|intros; apply kc_ret].
  apply kc_promise_all. intros f. destruct (negb _); [apply kc_ret|].
  apply kc_bind; [apply kc_engine|]. intros found. destruct found; [apply kc_throw|apply kc_ret].
Qed.

Lemma kc_validateDocument (cfg : Config) (doc : Doc) :
  no_callbacks cfg -> keeps_cache (validateDocument cfg doc).
Proof.
  intros Hnc w w' r. rewrite (validateDocument_plain cfg doc w Hnc). intros [= <- <-]. done.
Qed.

Lemma kc_slug_loop (cfg : Config) (n : nat) (v : Value) (ex : option Value) (s : string) (c : N) :
  keeps_cache (slug_loop MemModel cfg n v ex s c).
Proof.
  revert s c. induction n as [|n IH]; intros s c.
  - intros w w' r [= <- <-]. done.
  - cbn [slug_loop]. apply kc_bind; [apply kc_engine|]. intros found.
    destruct (negb found); [apply kc_ret|apply IH].
Qed.

Lemma kc_generateUniqueSlug (cfg : Config) (fuel : nat) (doc : Doc) (ex : option Value) :
  keeps_cache (generateUniqueSlug MemModel cfg fuel doc ex).
Proof.
  unfold generateUniqueSlug. destruct (negb (slug_enabled cfg)); [apply kc_ret|].
  destruct (negb (has_key _ _)); [apply kc_throw|].
  destruct (negb (truthy _)); [apply kc_ret|].
  apply kc_bind; [apply kc_slug_loop|]. intros. apply kc_ret.
Qed.

Lemma kc_create (cfg : Config) (uf : list string) (fuel : nat) (input : Doc) :
  no_hooks cfg -> keeps_cache (create MemModel cfg uf fuel input).
Proof.
  intros (Hnc & _). pose proof Hnc as (Hb & Ha & _).
  unfold create. rewrite Hb, Ha. unfold executeHook.
  apply kc_try_catch; [|intros; apply kc_as_response].
  apply kc_bind; [apply kc_ret|]. intros ?.
  apply kc_bind; [apply kc_validateUniqueFields|]. intros ?.
  apply kc_bind; [by apply kc_validateDocument|]. intros ?.
  apply kc_bind; [apply kc_generateUniqueSlug|]. intros input'.
  apply kc_bind; [apply kc_engine|]. intros document.
  apply kc_bind; [apply kc_ret|]. intros ?.
  apply kc_bind; [apply kc_populate_step|]. intros. apply kc_ret.
Qed.

Lemma kc_update (cfg : Config) (uf : list string) (fuel : nat) (q : Query) (input : Update)
  (b : bool) :
  no_hooks cfg -> keeps_cache (update MemModel cfg uf fuel q input b).
Proof.
  intros (Hnc & Hbu & Hau & _). unfold update. rewrite Hbu, Hau.
  unfold executeHook, executeHook2.
  apply kc_try_catch; [|intros; apply kc_as_response].
  apply kc_bind; [apply kc_engine|]. intros [doc|]; [|apply kc_throw].
  apply kc_bind; [apply kc_ret|]. intros hooked. cbv zeta.
  apply kc_bind; [apply kc_validateUniqueFields|]. intros ?.
  apply kc_bind; [by apply kc_validateDocument|]. intros validated.
  apply kc_bind.
  { unfold update_slug_stage. destruct (_ && _)%bool; [|apply kc_ret].
    apply kc_bind; [apply kc_generateUniqueSlug|]. intros. apply kc_ret. }
  intros ?. apply kc_bind; [apply kc_engine|]. intros [d|]; [|apply kc_throw].
  apply kc_bind; [apply kc_ret|]. intros ?.
  apply kc_bind; [apply kc_populate_step|]. intros. apply kc_ret.
Qed.

Lemma kc_delete (cfg : Config) (q : Query) :
  no_hooks cfg -> keeps_cache (delete_ MemModel cfg q).
Proof.
  intros (Hnc & _ & _ & Hbd & Had). unfold delete_. rewrite Hbd, Had. unfold executeHook.
  apply kc_try_catch; [|intros; apply kc_as_response].
  apply kc_bind; [apply kc_engine|]. intros [doc|]; [|apply kc_throw].
  apply kc_bind; [apply kc_ret|]. intros ?.
  apply kc_bind.
  { unfold repo_delete. destruct (softDelete cfg); [|apply kc_engine].
    apply kc_bind; [apply kc_now|]. intros t. apply kc_engine. }
  intros [d|]; [|apply kc_throw].
  apply kc_bind; [apply kc_ret|]. intros ?.
  apply kc_bind; [apply kc_populate_step|]. intros. apply kc_ret.
Qed.

(** X7.  Writes do not touch the cache: with no hooks configured, after a
    [create], an [update] or a [delete] a [findAll] whose entry has not
    expired still returns the envelope cached before the write, without
    asking the engine; only [clearCache] makes the next [findAll] compute
    again. *)
Theorem writes_do_not_invalidate
  (cfg : Config) (uf : list string) (fuel : nat) (sa : FindAllArgs -> string)
  (a : FindAllArgs) (e : CacheEntry) (w : World) :
  no_hooks cfg ->
  cache_enabled cfg = true ->
  cache w !! getCacheKey "findAll" (sa a) = Some e ->
  clock w - ce_timestamp e < cache_ttl cfg * 1000 ->
  (forall input r w',
      create MemModel cfg uf fuel input w = (r, w') ->
      findAll MemModel cfg sa a w' = (Returned (ce_data e), w'))
  /\ (forall q input b r w',
        update MemModel cfg uf fuel q input b w = (r, w') ->
        findAll MemModel cfg sa a w' = (Returned (ce_data e), w'))
  /\ (forall q r w',
        delete_ MemModel cfg q w = (r, w') ->
        findAll MemModel cfg sa a w' = (Returned (ce_data e), w'))
  /\ (forall data wg,
        findAll_getter MemModel cfg a (snd (clearCache w)) = (Returned data, wg) ->
        findAll MemModel cfg sa a (snd (clearCache w))
        = (Returned data,
           mkWorld (store wg) (next_id wg) (clock wg)
             (<[getCacheKey "findAll" (sa a) := mkEntry data (clock wg)]> (cache wg))
             (trace wg) (race wg))).
Proof.
  intros Hnh Hc He Hfresh.
  assert (forall w', cache w' = cache w -> clock w' = clock w ->
                     findAll MemModel cfg sa a w' = (Returned (ce_data e), w')) as Hhit.
  { intros w' Hca Hcl. rewrite findAll_cached.
    apply getCachedData_hit; [exact Hc|by rewrite Hca|by rewrite Hcl]. }
  repeat apply conj.
  - intros input r w' H. destruct (kc_create cfg uf fuel input Hnh _ _ _ H). by apply Hhit.
  - intros q input b r w' H. destruct (kc_update cfg uf fuel q input b Hnh _ _ _ H).
    by apply Hhit.
  - intros q r w' H. destruct (kc_delete cfg q Hnh _ _ _ H). by apply Hhit.
  - intros data wg Hg. rewrite findAll_cached.
    apply getCachedData_compute; [exact Hc| |exact Hg].
    intros e0 He0. cbn [clearCache snd cache] in He0. rewrite lookup_empty in He0.
    discriminate He0.
Qed.

Lemma writes_do_not_invalidate_witness :
  let cfg := with_cache plain_config true 300 in
  let w1 := snd (findAll MemModel cfg (fun _ => "k") no_args empty_world) in
  let w2 := snd (create MemModel cfg [] 1 alpha_input w1) in
  store w2 = [ {[ "_id" := VId 1; "name" := VStr "Alpha" ]} ]
  /\ fst (findAll MemModel cfg (fun _ => "k") no_args w2)
     = fst (findAll MemModel cfg (fun _ => "k") no_args empty_world).
Proof.
  cbv zeta. split; [vm_compute; reflexivity|].
  set (cfg := with_cache plain_config true 300).
  set (w1 := snd (findAll MemModel cfg (fun _ => "k") no_args empty_world)).
  assert (exists e, cache w1 !! getCacheKey "findAll" ((fun _ => "k") no_args) = Some e
                    /\ clock w1 - ce_timestamp e < cache_ttl cfg * 1000
                    /\ Returned (ce_data e)
                       = fst (findAll MemModel cfg (fun _ => "k") no_args empty_world))
    as (e & He & Hfresh & Hdata).
  { eexists. split; [vm_compute; reflexivity|]. split; vm_compute; reflexivity. }
  destruct (writes_do_not_invalidate cfg [] 1 (fun _ => "k") no_args e w1) as (Hcreate & _).
  - repeat split; reflexivity.
  - reflexivity.
  - exact He.
  - exact Hfresh.
  - rewrite <- Hdata.
    rewrite (Hcreate alpha_input (fst (create MemModel cfg [] 1 alpha_input w1))
               (snd (create MemModel cfg [] 1 alpha_input w1)));
      [reflexivity|]. by destruct (create MemModel cfg [] 1 alpha_input w1).
Defined.

(** ** [findAll]: visibility and page accounting *)

Lemma matches_not_deleted_empty (d : Doc) : matches (not_deleted ∅) d = is_live d.
Proof.
  unfold matches, not_deleted. rewrite insert_empty.
  apply eq_true_iff_eq. rewrite bool_decide_eq_true, map_Forall_singleton.
  unfold cond_matches, is_live, is_deleted. by rewrite negb_involutive.
Qed.

Lemma filter_length_le {A} (P Q : A -> Prop) `{!forall x, Decision (P x)}
  `{!forall x, Decision (Q x)} (l : list A) :
  (forall x, P x -> Q x) -> (length (filter P l) <= length (filter Q l))%nat.
Proof.
  intros HPQ. induction l as [|x r IH]; [done|]. rewrite !filter_cons.
  destruct (decide (P x)) as [HP|HP].
  - rewrite decide_True by auto. cbn [length]. lia.
  - destruct (decide (Q x)); cbn [length]; lia.
Qed.

Lemma filter_length_ext {A} (P Q : A -> Prop) `{!forall x, Decision (P x)}
  `{!forall x, Decision (Q x)} (l : list A) :
  (forall x, P x <-> Q x) -> length (filter P l) = length (filter Q l).
Proof.
  intros HPQ. apply Nat.le_antisymm; apply filter_length_le; intros x; apply HPQ.
Qed.

(** X8.  A computed [findAll] without [includeDeleted] never shows a
    soft-deleted record, whatever query and search term the caller passes:
    every returned document is a live stored record, [total] is the number
    of live records, [results] lies between 0 and [total], and the
    collection is left as it was. *)
Theorem findAll_default_sees_live_only
  (cfg : Config) (sa : FindAllArgs -> string) (a : FindAllArgs)
  (w w' : World) (env : Envelope) :
  cache_enabled cfg = false ->
  default false (a_includeDeleted a) = false ->
  findAll MemModel cfg sa a w = (Returned env, w') ->
  exists meta docs,
    env = Success (Some meta) (PDocs docs)
    /\ Forall (fun d => is_live d = true /\ d ∈ store w) docs
    /\ total meta = Z.of_nat (length (filter (fun d => is_live d = true) (store w)))
    /\ 0 <= results meta <= total meta
    /\ store w' = store w.
Proof.
  intros Hc Hi Hf. rewrite (findAll_uncached MemModel cfg sa a Hc) in Hf.
  destruct (findAll_getter_mem cfg a w)
    as [(docs & w1 & Hw & Hg & (Hs & _) & _)|(k & w1 & _ & _ & Hg & _)];
    rewrite Hg in Hf; [|discriminate Hf].
  injection Hf as <- <-. rewrite Hi in Hw.
  unfold findAll_envelope. rewrite Hi. cbn [effectiveQuery].
  eexists _, docs. split; [reflexivity|]. cbn [total results].
  split; [|split; [|split; [|exact Hs]]].
  - destruct (window_spec _ _ _ _ _ (Hw w)) as [_ Hsub].
    apply Forall_forall. intros d Hd. apply (fun H => elem_of_sublist _ _ _ H Hsub) in Hd.
    unfold hits in Hd. rewrite sort_docs_perm in Hd. apply list_elem_of_filter in Hd as [Hm Hin].
    split; [by eapply matches_not_deleted_live|exact Hin].
  - unfold count_of. f_equal. apply filter_length_ext. intros d.
    by rewrite matches_not_deleted_empty.
  - unfold count_of. split; [lia|]. apply Nat2Z.inj_le. apply filter_length_le.
    intros d Hm. rewrite matches_not_deleted_empty. by eapply matches_not_deleted_live.
Qed.

Lemma findAll_default_sees_live_only_witness :
  exists meta docs,
    fst (findAll MemModel plain_config (fun _ => "k") no_args
           (world_of [deleted_record; alpha_record] 7))
    = Returned (Success (Some meta) (PDocs docs))
    /\ total meta = 1 /\ Forall (fun d => is_live d = true) docs.
Proof.
  destruct (findAll MemModel plain_config (fun _ => "k") no_args
              (world_of [deleted_record; alpha_record] 7)) as [r w'] eqn:Hf.
  assert (exists env, r = Returned env) as [env ->].
  { apply (f_equal fst) in Hf. vm_compute in Hf. rewrite <- Hf. by eexists. }
  destruct (findAll_default_sees_live_only plain_config (fun _ => "k") no_args _ w' env
              eq_refl eq_refl Hf) as (meta & docs & -> & Hlive & Ht & _).
  exists meta, docs. split; [reflexivity|]. split.
  - rewrite Ht. vm_compute. reflexivity.
  - eapply Forall_impl; [exact Hlive|]. by intros d [? _].
Defined.

Lemma apply_limit_length (l : Z) (ds : list Doc) :
  0 < l -> Z.of_nat (length (apply_limit (Some l) ds)) = Z.min l (Z.of_nat (length ds)).
Proof.
  intros Hl. unfold apply_limit. replace (l =? 0) with false by lia.
  rewrite length_take. lia.
Qed.

(** A computed, paginated [findAll] with a positive limit: the envelope and
    the page of documents it carries. *)
Lemma findAll_page_mem
  (cfg : Config) (sa : FindAllArgs -> string) (a : FindAllArgs) (w : World) :
  cache_enabled cfg = false ->
  default true (a_paginate a) = true ->
  0 < finalLimit cfg a ->
  let q := effectiveQuery (default false (a_includeDeleted a)) (finalQuery cfg a) in
  let n := count_of q w in
  let p := finalPage cfg a in
  let l := finalLimit cfg a in
  exists t docs w',
    findAll MemModel cfg sa a w
    = (Returned
         (Success
            (Some (mkMeta t n
                     (Some (mkPaging p l (JInt (ceil_div n l)) (Z.max 0 (n - p * l))
                              (Z.of_nat (length docs))))))
            (PDocs docs)), w')
    /\ docs = apply_limit (Some l)
                (drop (Z.to_nat ((p - 1) * l))
                   (hits q (Some (default (filter_defaultSort cfg) (a_sort a))) w))
    /\ Z.of_nat (length docs) = Z.min l (Z.max 0 (n - (p - 1) * l))
    /\ same_data w w'.
Proof.
  intros Hc Hp Hl q n p l.
  pose proof (finalPage_ge_1 cfg a) as Hp1. fold p in Hp1. fold l in Hl.
  rewrite (findAll_uncached MemModel cfg sa a Hc).
  destruct (findAll_getter_mem cfg a w)
    as [(docs & w1 & Hw & Hg & Hsame & _)|(k & w1 & Hk & Hneg & _)].
  2:{ exfalso. rewrite (findAll_options_paginated cfg a Hp) in Hk. cbn [opt_skip] in Hk.
      injection Hk as <-. fold p in Hneg. fold l in Hneg. nia. }
  specialize (Hw w). rewrite (findAll_options_paginated cfg a Hp) in Hw.
  rewrite (window_skip _ ((p - 1) * l)) in Hw; [|reflexivity|nia].
  cbn [opt_sort opt_limit] in Hw. fold l in Hw. fold q in Hw.
  set (h := hits _ _ w) in *.
  assert (docs = apply_limit (Some l) (drop (Z.to_nat ((p - 1) * l)) h)) as Hdocs by congruence.
  assert (Z.of_nat (length h) = n) as Hlen by apply hits_length.
  assert (Z.of_nat (length docs) = Z.min l (Z.max 0 (n - (p - 1) * l))) as Hcount.
  { rewrite Hdocs, apply_limit_length by exact Hl. rewrite length_drop.
    assert (0 <= (p - 1) * l) as Hk by nia. revert Hk. generalize ((p - 1) * l). intros k Hk.
    lia. }
  eexists _, docs, w1. split; [|split; [exact Hdocs|split; [exact Hcount|exact Hsame]]].
  rewrite Hg, (findAll_envelope_paginated cfg a w docs Hp). cbv zeta. fold q. fold n. fold p. fold l.
  unfold js_ceil_div. replace (l =? 0) with false by lia. reflexivity.
Qed.

(** X9.  Page accounting of a computed, paginated [findAll] with a
    positive limit [l] on page [p], with [n] matching records: the page
    holds [min (l, max (0, n - (p-1)*l))] documents, never more than [l], and
    when the page starts inside the result the documents before it, on it
    and after it add up to [n]. *)
Theorem findAll_page_accounting
  (cfg : Config) (sa : FindAllArgs -> string) (a : FindAllArgs) (w : World) :
  cache_enabled cfg = false ->
  default true (a_paginate a) = true ->
  0 < finalLimit cfg a ->
  let n := count_of (effectiveQuery (default false (a_includeDeleted a)) (finalQuery cfg a)) w in
  let p := finalPage cfg a in
  let l := finalLimit cfg a in
  exists t docs w',
    findAll MemModel cfg sa a w
    = (Returned
         (Success
            (Some (mkMeta t n
                     (Some (mkPaging p l (JInt (ceil_div n l)) (Z.max 0 (n - p * l))
                              (Z.of_nat (length docs))))))
            (PDocs docs)), w')
    /\ Z.of_nat (length docs) = Z.min l (Z.max 0 (n - (p - 1) * l))
    /\ Z.of_nat (length docs) <= l
    /\ ((p - 1) * l <= n ->
        (p - 1) * l + Z.of_nat (length docs) + Z.max 0 (n - p * l) = n).
Proof.
  intros Hc Hp Hl n p l.
  destruct (findAll_page_mem cfg sa a w Hc Hp Hl) as (t & docs & w' & Hf & _ & Hcount & _).
  fold n p l in Hf, Hcount.
  exists t, docs, w'. split; [exact Hf|]. split; [exact Hcount|]. split; [lia|].
  intros Hin. rewrite Hcount. replace (p * l) with ((p - 1) * l + l) by ring.
  revert Hin. generalize ((p - 1) * l). intros k Hin. lia.
Qed.

Lemma findAll_page_accounting_witness :
  let a := mkArgs None None (Some 2) (Some 2) None None None None in
  exists t docs w',
    findAll MemModel plain_config (fun _ => "k") a
      (world_of [alpha_record; alpha_record; alpha_record] 7)
    = (Returned (Success (Some (mkMeta t 3 (Some (mkPaging 2 2 (JInt 2) 0 1)))) (PDocs docs)),
       w').
Proof.
  cbv zeta.
  destruct (findAll_page_accounting plain_config (fun _ => "k")
              (mkArgs None None (Some 2) (Some 2) None None None None)
              (world_of [alpha_record; alpha_record; alpha_record] 7)
              eq_refl eq_refl eq_refl) as (t & docs & w' & Hf & Hn & _).
  exists t, docs, w'. rewrite Hf.
  assert (Z.of_nat (length docs) = 1) as -> by (rewrite Hn; vm_compute; reflexivity).
  vm_compute. reflexivity.
Defined.

(** X10.  With [paginate = false] a computed [findAll] passes neither skip
    nor limit: it returns every record matching the final query exactly
    once, [results] is their number, and the metadata carry no page
    fields. *)
Theorem findAll_unpaginated_returns_all
  (cfg : Config) (sa : FindAllArgs -> string) (a : FindAllArgs) (w : World) :
  cache_enabled cfg = false ->
  a_paginate a = Some false ->
  let q := effectiveQuery (default false (a_includeDeleted a)) (finalQuery cfg a) in
  exists t docs w',
    findAll MemModel cfg sa a w
    = (Returned (Success (Some (mkMeta t (Z.of_nat (length docs)) None)) (PDocs docs)), w')
    /\ docs ≡ₚ filter (fun d => matches q d = true) (store w)
    /\ opt_skip (findAll_options cfg a) = None
    /\ opt_limit (findAll_options cfg a) = None.
Proof.
  intros Hc Hp q. rewrite (findAll_uncached MemModel cfg sa a Hc).
  assert (findAll_options cfg a
          = mkOptions (Some (default (filter_defaultSort cfg) (a_sort a))) None None) as Ho
    by (unfold findAll_options; rewrite Hp; reflexivity).
  destruct (findAll_getter_mem cfg a w)
    as [(docs & w1 & Hw & Hg & _)|(k & w1 & Hk & _)].
  2:{ rewrite Ho in Hk. discriminate Hk. }
  specialize (Hw w). rewrite Ho in Hw. unfold window in Hw. cbn [opt_skip opt_limit opt_sort] in Hw.
  unfold apply_limit, ret in Hw.
  set (h := hits _ _ w) in Hw. assert (docs = h) as Hdocs by congruence.
  eexists _, docs, w1. split.
  - rewrite Hg. unfold findAll_envelope. rewrite Hp. cbn [default].
    rewrite Hdocs. unfold h. rewrite hits_length. reflexivity.
  - split; [|by rewrite Ho]. rewrite Hdocs. unfold h, hits. apply sort_docs_perm.
Qed.

Lemma findAll_unpaginated_returns_all_witness :
  exists t docs w',
    findAll MemModel plain_config (fun _ => "k")
      (mkArgs None None None (Some 1) None (Some false) None None)
      (world_of [alpha_record; alpha_record] 7)
    = (Returned (Success (Some (mkMeta t 2 None)) (PDocs docs)), w').
Proof.
  destruct (findAll_unpaginated_returns_all plain_config (fun _ => "k")
              (mkArgs None None None (Some 1) None (Some false) None None)
              (world_of [alpha_record; alpha_record] 7) eq_refl eq_refl)
    as (t & docs & w' & Hf & Hperm & _).
  exists t, docs, w'. rewrite Hf.
  assert (length docs = 2%nat) as -> by (rewrite Hperm; vm_compute; reflexivity).
  reflexivity.
Defined.

(** ** Building the final query *)

Lemma filterAllowedFields_lookup (cfg : Config) (q : Query) (k : string) :
  filter_allowedFields cfg <> [] ->
  filterAllowedFields cfg q !! k
  = if decide (k ∈ filter_allowedFields cfg) then q !! k else None.
Proof.
  intros Hne. unfold filterAllowedFields. rewrite bool_decide_eq_false_2 by exact Hne.
  destruct (decide (k ∈ filter_allowedFields cfg)) as [Hin|Hout].
  - destruct (q !! k) as [c|] eqn:Hq.
    + apply map_lookup_filter_Some. done.
    + apply map_lookup_filter_None. left. exact Hq.
  - apply map_lookup_filter_None. right. intros c _. exact Hout.
Qed.

(** X11.  With a non-empty [allowedFields] list, conditions of the
    caller's query on other fields have no influence: two calls whose
    queries agree on the allowed fields (and whose other arguments are the
    same) send the same final query and get the same answer; with an
    empty list every condition is kept. *)
Theorem disallowed_conditions_are_ignored
  (m : Model) (cfg : Config) (sa : FindAllArgs -> string) (q q' : Query)
  (sort : option SortSpec) (page limit : option Z) (term : option string)
  (paginate includeDeleted populate : option bool) :
  let args query := mkArgs (Some query) sort page limit term paginate includeDeleted populate in
  (filter_allowedFields cfg = [] -> filterAllowedFields cfg q = q)
  /\ (filter_allowedFields cfg <> [] ->
      (forall k, k ∈ filter_allowedFields cfg -> q !! k = q' !! k) ->
      finalQuery cfg (args q) = finalQuery cfg (args q')
      /\ findAll_getter m cfg (args q) = findAll_getter m cfg (args q')
      /\ forall k, k ∉ filter_allowedFields cfg -> filterAllowedFields cfg q !! k = None).
Proof.
  cbv zeta. split.
  - intros He. unfold filterAllowedFields. by rewrite He.
  - intros Hne Hagree.
    assert (filterAllowedFields cfg q = filterAllowedFields cfg q') as Heq.
    { apply map_eq. intros k. rewrite !filterAllowedFields_lookup by exact Hne.
      destruct (decide _); [by apply Hagree|done]. }
    assert (forall a a', finalQuery cfg a = finalQuery cfg a' ->
                         findAll_options cfg a = findAll_options cfg a' ->
                         a_includeDeleted a = a_includeDeleted a' ->
                         a_populate a = a_populate a' -> a_paginate a = a_paginate a' ->
                         finalPage cfg a = finalPage cfg a' ->
                         finalLimit cfg a = finalLimit cfg a' ->
                         findAll_getter m cfg a = findAll_getter m cfg a') as Hg.
    { intros a a' H1 H2 H3 H4 H5 H6 H7. unfold findAll_getter.
      rewrite H1, H2, H3, H4, H5, H6, H7. reflexivity. }
    split; [|split].
    + unfold finalQuery. cbn [a_query a_searchTerm from_option id]. by rewrite Heq.
    + apply Hg; try reflexivity. unfold finalQuery. cbn [a_query a_searchTerm from_option id].
      by rewrite Heq.
    + intros k Hk. rewrite filterAllowedFields_lookup by exact Hne. by rewrite decide_False.
Qed.

Lemma disallowed_conditions_are_ignored_witness :
  let cfg := mkConfig 10 100 1 false [] false ["name"] [] false "name" "slug" slugify_lower
               default_uniqueResolver [] false [] None None None None None None None None
               false 300 true in
  finalQuery cfg (mkArgs (Some {[ "name" := CEq (VStr "a"); "role" := CEq (VStr "admin") ]})
                    None None None None None None None)
  = finalQuery cfg (mkArgs (Some {[ "name" := CEq (VStr "a") ]})
                      None None None None None None None).
Proof.
  cbv zeta.
  apply (disallowed_conditions_are_ignored MemModel _ (fun _ => "k")
           {[ "name" := CEq (VStr "a"); "role" := CEq (VStr "admin") ]}
           {[ "name" := CEq (VStr "a") ]} None None None None None None None).
  - discriminate.
  - intros k Hk. apply list_elem_of_singleton in Hk. subst k. vm_compute. reflexivity.
Defined.

Lemma prefix_spec (t s : string) :
  String.prefix t s = true <-> exists post, s = t +:+ post.
Proof.
  revert s. induction t as [|a t IH]; intros s.
  - split; [intros _; by exists s|intros _; by destruct s].
  - destruct s as [|b s]; cbn [String.prefix].
    + split; [discriminate|]. intros (post & H). discriminate H.
    + destruct (ascii_dec a b) as [->|Hne].
      * rewrite IH. split; intros (post & H); exists post.
        -- by rewrite H.
        -- change (String b t +:+ post) with (String b (t +:+ post)) in H. congruence.
      * split; [discriminate|]. intros (post & H).
        change (String a t +:+ post) with (String a (t +:+ post)) in H. congruence.
Qed.

Lemma contains_spec (t s : string) :
  contains t s = true <-> exists pre post, s = pre +:+ t +:+ post.
Proof.
  induction s as [|b s IH]; cbn [contains].
  - rewrite orb_false_r, prefix_spec. split.
    + intros (post & H). by exists "", post.
    + intros (pre & post & H). destruct pre as [|c pre]; [by exists post|].
      change (String c pre +:+ t +:+ post) with (String c (pre +:+ t +:+ post)) in H.
      discriminate H.
  - rewrite orb_true_iff, prefix_spec, IH. split.
    + intros [(post & H)|(pre & post & H)].
      * by exists "", post.
      * exists (String b pre), post. rewrite H. reflexivity.
    + intros (pre & post & H). destruct pre as [|c pre].
      * left. by exists post.
      * right. exists pre, post.
        change (String c pre +:+ t +:+ post) with (String c (pre +:+ t +:+ post)) in H.
        congruence.
Qed.

(** X12.  The search part of the final query: with search disabled, no
    search field or an empty or missing term it constrains nothing;
    otherwise a record passes exactly when one of the configured search
    fields holds a string that contains the term, compared after
    lower-casing both unless [caseSensitive] is set. *)
Theorem search_query_matches_substring (cfg : Config) (term : option string) (d : Doc) :
  let fold_case (s : string) := if search_caseSensitive cfg then s else lower s in
  ((term = None \/ term = Some "" \/ search_enabled cfg = false \/ search_fields cfg = []) ->
   buildSearchQuery cfg term = ∅ /\ matches (buildSearchQuery cfg term) d = true)
  /\ (forall t,
        term = Some t -> t <> "" -> search_enabled cfg = true -> search_fields cfg <> [] ->
        (matches (buildSearchQuery cfg term) d = true <->
         exists field s pre post,
           field ∈ search_fields cfg /\ getv d field = VStr s
           /\ fold_case s = pre +:+ fold_case t +:+ post)).
Proof.
  cbv zeta. split.
  - intros H.
    assert (buildSearchQuery cfg term = ∅) as ->; [|split; [done|apply matches_empty]].
    unfold buildSearchQuery. destruct term as [t|]; [|done].
    destruct H as [H|[H|[H|H]]].
    + discriminate H.
    + injection H as ->. reflexivity.
    + rewrite H. cbn [negb]. by rewrite orb_true_r.
    + rewrite H. rewrite bool_decide_eq_true_2 by done. by rewrite orb_true_r.
  - intros t -> Ht He Hf. unfold buildSearchQuery.
    assert (String.eqb t "" = false) as -> by (by apply String.eqb_neq).
    rewrite He. rewrite bool_decide_eq_false_2 by exact Hf. cbn [negb orb].
    unfold matches. rewrite bool_decide_eq_true, map_Forall_singleton.
    cbn [cond_matches]. rewrite existsb_exists. split.
    + intros (fr & Hin & Hm). apply in_map_iff in Hin as (field & <- & Hin).
      cbn [fst snd] in Hm. unfold regex_test in Hm.
      destruct (getv d field) as [| | | |s| |] eqn:Hg; try discriminate Hm.
      cbn [re_ignoreCase re_term] in Hm.
      exists field, s. destruct (search_caseSensitive cfg); cbn [negb] in Hm;
        apply contains_spec in Hm as (pre & post & Hm);
        exists pre, post; (split; [by apply list_elem_of_In|]); by split.
    + intros (field & s & pre & post & Hin & Hg & Hs).
      exists (field, mkRegex t (negb (search_caseSensitive cfg))). split.
      * apply in_map_iff. exists field. split; [done|]. by apply list_elem_of_In.
      * cbn [fst snd]. rewrite Hg. unfold regex_test. cbn [re_ignoreCase re_term].
        destruct (search_caseSensitive cfg); cbn [negb]; apply contains_spec; by exists pre, post.
Qed.

Lemma search_query_matches_substring_witness :
  let cfg := mkConfig 10 100 1 true ["name"] false [] [] false "name" "slug" slugify_lower
               default_uniqueResolver [] false [] None None None None None None None None
               false 300 true in
  matches (buildSearchQuery cfg (Some "LPH")) alpha_record = true.
Proof.
  cbv zeta.
  set (cfg := mkConfig 10 100 1 true ["name"] false [] [] false "name" "slug" slugify_lower
                default_uniqueResolver [] false [] None None None None None None None None
                false 300 true).
  destruct (search_query_matches_substring cfg (Some "LPH") alpha_record) as [_ H].
  apply (H "LPH"); [reflexivity|discriminate|reflexivity|discriminate|].
  exists "name", "Alpha", "a", "a". split; [apply list_elem_of_here|]. split; reflexivity.
Defined.

(** ** [parseSortParam] *)

Lemma split_on_nonempty (c : ascii) (s : string) : split_on c s <> [].
Proof.
  induction s as [|a r IH]; cbn [split_on]; [discriminate|].
  destruct (Ascii.eqb a c); [discriminate|]. by destruct (split_on c r).
Qed.

Lemma split_on_plain (c : ascii) (s : string) : has_char c s = false -> split_on c s = [s].
Proof.
  unfold has_char. induction s as [|a r IH]; [reflexivity|].
  cbn [list_ascii_of_string existsb split_on]. intros H. apply orb_false_iff in H as [Ha Hr].
  rewrite Ascii.eqb_sym, Ha. by rewrite (IH Hr).
Qed.

Lemma split_on_app (c : ascii) (x rest : string) :
  has_char c x = false -> split_on c (x +:+ String c rest) = x :: split_on c rest.
Proof.
  unfold has_char. induction x as [|a r IH]; intros H.
  - change ("" +:+ String c rest) with (String c rest). cbn [split_on].
    by rewrite Ascii.eqb_refl.
  - cbn [list_ascii_of_string existsb] in H. apply orb_false_iff in H as [Ha Hr].
    change (String a r +:+ String c rest) with (String a (r +:+ String c rest)).
    cbn [split_on]. rewrite Ascii.eqb_sym, Ha. by rewrite (IH Hr).
Qed.

Lemma split_join (c : ascii) (l : list string) :
  l <> [] -> Forall (fun x => has_char c x = false) l ->
  split_on c (join_with (String c EmptyString) l) = l.
Proof.
  intros Hne Hall. induction Hall as [|x r Hx Hr IH]; [done|].
  destruct r as [|y r].
  - cbn [join_with]. by apply split_on_plain.
  - change (join_with (String c "") (x :: y :: r))
      with (x +:+ String c "" +:+ join_with (String c "") (y :: r)).
    change (String c "" +:+ join_with (String c "") (y :: r))
      with (String c (join_with (String c "") (y :: r))).
    rewrite split_on_app by exact Hx. by rewrite IH.
Qed.

Lemma assign_key_fresh (k : string) (v : bool) (o : SortSpec) :
  k ∉ map fst o -> is_index k = None -> k <> "__proto__" ->
  assign_key k v o = (o ++ [(k, v)])%list.
Proof.
  intros Hk Hix Hproto. unfold assign_key. rewrite Hix.
  assert (String.eqb k "__proto__" = false) as -> by (by apply String.eqb_neq).
  assert (existsb (fun kv : string * bool => String.eqb (fst kv) k) o = false) as ->;
    [|reflexivity].
  induction o as [|[k' v'] r IH]; [reflexivity|].
  cbn [map fst] in Hk. apply not_elem_of_cons in Hk as [Hne Hr].
  cbn [existsb fst]. rewrite (IH Hr).
  assert (String.eqb k' k = false) as -> by (apply String.eqb_neq; congruence).
  reflexivity.
Qed.

Lemma join_nonempty (sep x : string) (r : list string) :
  x <> "" -> join_with sep (x :: r) <> "".
Proof.
  intros Hx. destruct r as [|y r]; [exact Hx|].
  cbn [join_with]. destruct x; [done|]. discriminate.
Qed.

(** X13.  [parseSortParam] reads back a sort object written as a
    parameter: for a sort object with distinct, non-empty field names that
    hold no comma, do not start with a minus sign, are not array indices
    and are not [__proto__], parsing the text [f1,-f2,...] gives the
    object back, fields in the same order; the empty parameter gives the
    empty object; and the name [__proto__] is dropped, in either
    direction. *)
Theorem parseSortParam_reads_back (s : SortSpec) :
  NoDup (map fst s) ->
  Forall (fun kv => fst kv <> "" /\ has_char ","%char (fst kv) = false
                    /\ String.prefix "-" (fst kv) = false
                    /\ is_index (fst kv) = None
                    /\ fst kv <> "__proto__") s ->
  parseSortParam "" = []
  /\ parseSortParam (render_sort s) = s
  /\ parseSortParam "__proto__" = []
  /\ parseSortParam "-__proto__" = []
  /\ parseSortParam "name,__proto__" = [("name", true)].
Proof.
  intros Hnd Hall. split; [reflexivity|].
  split; [|repeat split; reflexivity].
  destruct s as [|kv0 s0]; [reflexivity|]. set (s := kv0 :: s0) in *.
  unfold parseSortParam, render_sort.
  assert (String.eqb
            (join_with ","
               (map (fun kv : string * bool =>
                       if snd kv then fst kv else String "-"%char (fst kv)) s)) "" = false)
    as ->.
  { apply String.eqb_neq. unfold s. cbn [map]. apply join_nonempty.
    apply Forall_cons in Hall as [(Hne & _) _]. destruct (snd kv0); [exact Hne|discriminate]. }
  rewrite (split_join ","%char).
  - clearbody s.
    assert (forall acc,
               (forall k, k ∈ map fst acc -> k ∉ map fst s) ->
               fold_left
                 (fun sortObj field =>
                    match field with
                    | String "-"%char fieldName => assign_key fieldName false sortObj
                    | _ => assign_key field true sortObj
                    end)
                 (map (fun kv : string * bool =>
                         if snd kv then fst kv else String "-"%char (fst kv)) s) acc
               = (acc ++ s)%list) as Hfold.
    { clear kv0 s0. induction s as [|[k v] r IH]; intros acc Hdis.
      - by rewrite app_nil_r.
      - apply NoDup_cons in Hnd as [Hk Hnd].
        apply Forall_cons in Hall as [(Hne & _ & Hp & Hix & Hproto) Hall].
        cbn [map fst snd fold_left] in *.
        assert (k ∉ map fst acc) as Hfresh.
        { intros Hin. apply (Hdis k Hin). apply list_elem_of_here. }
        assert (match (if v then k else String "-"%char k) with
                | String "-"%char fieldName => assign_key fieldName false acc
                | _ => assign_key (if v then k else String "-"%char k) true acc
                end = (acc ++ [(k, v)])%list) as ->.
        { pose proof (assign_key_fresh k v acc Hfresh Hix Hproto) as Hassign. destruct v.
          - destruct k as [|a k]; [done|]. cbn [String.prefix] in Hp.
            destruct k; cbn [String.prefix] in Hp.
            + destruct (ascii_dec "-" a) as [<-|Hna]; [discriminate Hp|].
              destruct a as [[] [] [] [] [] [] [] []];
                first [congruence|exact Hassign].
            + destruct (ascii_dec "-" a) as [<-|Hna]; [discriminate Hp|].
              destruct a as [[] [] [] [] [] [] [] []];
                first [congruence|exact Hassign].
          - exact Hassign. }
        rewrite IH; [by rewrite <- app_assoc|exact Hnd|exact Hall|].
        intros k' Hk'. rewrite map_app in Hk'. apply elem_of_app in Hk' as [Hk'|Hk'].
        + intros Hin. apply (Hdis k' Hk'). by apply list_elem_of_further.
        + cbn [map fst] in Hk'. apply list_elem_of_singleton in Hk'. by subst k'. }
    rewrite Hfold; [reflexivity|]. intros k Hk. by apply elem_of_nil in Hk.
  - discriminate.
  - apply Forall_fmap. eapply Forall_impl; [exact Hall|]. intros [k v] (_ & Hc & _).
    cbn [fst snd compose] in *. destruct v; [exact Hc|].
    unfold has_char in *. cbn [list_ascii_of_string existsb]. by rewrite Hc.
Qed.

Lemma parseSortParam_reads_back_witness :
  parseSortParam "name,-createdAt" = [("name", true); ("createdAt", false)].
Proof.
  eapply (parseSortParam_reads_back [("name", true); ("createdAt", false)]).
  - apply (bool_decide_unpack _). vm_compute. exact I.
  - repeat constructor; try discriminate; reflexivity.
Defined.

(** ** [generateCSV] and [exportData] *)

Lemma double_quotes_inj (s1 s2 : string) : double_quotes s1 = double_quotes s2 -> s1 = s2.
Proof.
  revert s2. induction s1 as [|a1 r1 IH]; intros [|a2 r2]; cbn [double_quotes].
  - reflexivity.
  - destruct (Ascii.eqb a2 _); discriminate.
  - destruct (Ascii.eqb a1 _); discriminate.
  - destruct (Ascii.eqb a1 (ascii_of_nat 34)) eqn:H1;
      destruct (Ascii.eqb a2 (ascii_of_nat 34)) eqn:H2; intros H.
    + assert (a1 = a2 /\ double_quotes r1 = double_quotes r2) as [-> Hr]
        by (split; congruence).
      by rewrite (IH _ Hr).
    + apply Ascii.eqb_eq in H1. apply Ascii.eqb_neq in H2. congruence.
    + apply Ascii.eqb_neq in H1. apply Ascii.eqb_eq in H2. congruence.
    + assert (a1 = a2 /\ double_quotes r1 = double_quotes r2) as [-> Hr]
        by (split; congruence).
      by rewrite (IH _ Hr).
Qed.

Lemma append_inv_last (x y : string) (c : ascii) :
  x +:+ String c "" = y +:+ String c "" -> x = y.
Proof.
  revert y. induction x as [|a x IH]; intros [|b y] H.
  - reflexivity.
  - change (String c "" = String b (y +:+ String c "")) in H. injection H as _ H.
    by destruct y.
  - change (String a (x +:+ String c "") = String c "") in H. injection H as _ H.
    by destruct x.
  - change (String a (x +:+ String c "") = String b (y +:+ String c "")) in H.
    injection H as -> H. by rewrite (IH _ H).
Qed.

(** The number of double-quote characters of a text. *)
Lemma quotes_even (s : string) :
  Nat.Even (length (filter (fun a => a = ascii_of_nat 34)
                      (list_ascii_of_string (dquote +:+ double_quotes s +:+ dquote)))).
Proof.
  change (dquote +:+ double_quotes s +:+ dquote)
    with (String (ascii_of_nat 34) (double_quotes s +:+ dquote)).
  cbn [list_ascii_of_string]. rewrite filter_cons_True by reflexivity. cbn [length].
  assert (forall t, exists k,
             length (filter (fun a => a = ascii_of_nat 34)
                       (list_ascii_of_string (double_quotes t +:+ dquote))) = S (2 * k))
    as Hodd.
  { induction t as [|a t [k IH]].
    - exists 0%nat. reflexivity.
    - cbn [double_quotes]. destruct (Ascii.eqb a (ascii_of_nat 34)) eqn:Ha.
      + apply Ascii.eqb_eq in Ha. subst a. exists (S k).
        change (list_ascii_of_string
                  (String (ascii_of_nat 34) (String (ascii_of_nat 34) (double_quotes t))
                   +:+ dquote))
          with (ascii_of_nat 34 :: ascii_of_nat 34
                  :: list_ascii_of_string (double_quotes t +:+ dquote)).
        rewrite !filter_cons_True by reflexivity. cbn [length]. rewrite IH. lia.
      + apply Ascii.eqb_neq in Ha. exists k.
        change (list_ascii_of_string (String a (double_quotes t) +:+ dquote))
          with (a :: list_ascii_of_string (double_quotes t +:+ dquote)).
        rewrite filter_cons_False by exact Ha. exact IH. }
  destruct (Hodd s) as [k ->]. exists (S k). lia.
Qed.

(** X14.  The cells of [generateCSV].  A string holding a comma is written
    between double quotes with its own quotes doubled; the written cell
    then holds an even number of quote characters and determines the
    string.  A string without a comma is written as it is, whatever else
    it holds (quotes, line breaks).  Every falsy value, [0] and [false]
    included, gives the empty cell. *)
Theorem csv_cell_quoting :
  (forall s, has_char ","%char s = true ->
             csv_cell (VStr s) = dquote +:+ double_quotes s +:+ dquote
             /\ Nat.Even (length (filter (fun a => a = ascii_of_nat 34)
                                    (list_ascii_of_string (csv_cell (VStr s))))))
  /\ (forall s1 s2, has_char ","%char s1 = true -> has_char ","%char s2 = true ->
                    csv_cell (VStr s1) = csv_cell (VStr s2) -> s1 = s2)
  /\ (forall s, has_char ","%char s = false -> csv_cell (VStr s) = s)
  /\ (forall v, truthy v = false -> csv_cell v = "").
Proof.
  split; [|split; [|split]].
  - intros s Hs. unfold csv_cell. rewrite Hs. split; [reflexivity|apply quotes_even].
  - intros s1 s2 H1 H2. unfold csv_cell. rewrite H1, H2. intros H.
    change (String (ascii_of_nat 34) (double_quotes s1 +:+ dquote)
            = String (ascii_of_nat 34) (double_quotes s2 +:+ dquote)) in H.
    injection H as H. apply append_inv_last in H. by apply double_quotes_inj.
  - intros s Hs. unfold csv_cell. by rewrite Hs.
  - intros v Hv. destruct v; unfold csv_cell; try (rewrite Hv; reflexivity).
    destruct (has_char _ _) eqn:Hc; [|by destruct s].
    destruct s; [discriminate Hc|discriminate Hv].
Qed.

Lemma csv_cell_quoting_witness :
  csv_cell (VStr "a,b") = dquote +:+ "a,b" +:+ dquote
  /\ csv_cell (VNum 0) = "" /\ csv_cell (VBool false) = "".
Proof.
  destruct csv_cell_quoting as (Hq & _ & _ & Hf).
  split; [|split].
  - destruct (Hq "a,b" eq_refl) as [-> _]. reflexivity.
  - apply Hf. reflexivity.
  - apply Hf. reflexivity.
Defined.




(** ** Records found by identifier; [clone] *)

(** [create] on the in-memory engine without slug, hooks and validators,
    when no unique field collides. *)
Lemma create_mem_plain (cfg : Config) (uf : list string) (fuel : nat) (input : Doc) (w : World) :
  slug_enabled cfg = false ->
  no_callbacks cfg ->
  offending uf input None (store w) = [] ->
  let d := <["_id" := VId (next_id w)]> input in
  exists w',
    create MemModel cfg uf fuel input w = (Returned (Success None (PDoc d)), w')
    /\ store w' = (store w ++ [d])%list
    /\ next_id w' = N.succ (next_id w).
Proof.
  intros He Hnc Hoff d. pose proof Hnc as (Hb & Ha & _).
  destruct (validateUniqueFields_mem uf input None w) as (w1 & Hv & S1 & _).
  unfold unique_rejections in Hv. rewrite Hoff in Hv. cbn [map first_rejection] in Hv.
  assert (generateUniqueSlug MemModel cfg fuel input None w1 = (Returned input, w1)) as Hg.
  { unfold generateUniqueSlug. rewrite He. reflexivity. }
  destruct (populate_step_mem cfg d
              (mkWorld (store w1 ++ [d]) (N.succ (next_id w1)) (clock w1) (cache w1)
                 (trace w1 ++ [EvSave input]) (race w1))) as (w3 & Hpop & S3).
  destruct S1 as (Hst & Hid & _).
  exists w3. split.
  - unfold create. apply try_catch_returned. rewrite Hb, Ha. unfold executeHook at 1.
    rewrite bind_ret.
    rewrite (bind_returned _ _ _ _ _ Hv).
    rewrite (bind_returned _ _ _ _ _ (validateDocument_plain cfg input w1 Hnc)).
    rewrite (bind_returned _ _ _ _ _ Hg).
    rewrite (bind_returned _ _ _ _ _ (save_mem _ w1)). rewrite Hid. fold d.
    unfold executeHook. rewrite bind_ret.
    rewrite Hid in Hpop. rewrite (bind_returned _ _ _ _ _ Hpop). reflexivity.
  - destruct S3 as (-> & -> & _). cbn [store next_id]. by rewrite Hst, Hid.
Qed.

Lemma getv_union (a b : Doc) (k : string) :
  getv (a ∪ b) k = match a !! k with Some v => v | None => getv b k end.
Proof.
  unfold getv. rewrite lookup_union. destruct (a !! k), (b !! k); reflexivity.
Qed.

Lemma cloneData_fields (doc override : Doc) (k : string) :
  getv (cloneData doc override) k
  = if bool_decide (k ∈ ["_id"; "createdAt"; "updatedAt"; "deletedAt"; "deletedBy"])
    then VUndef
    else match override !! k with Some v => v | None => getv doc k end.
Proof.
  unfold cloneData. destruct (bool_decide _) eqn:Hk.
  - apply bool_decide_eq_true in Hk. rewrite !elem_of_cons in Hk.
    destruct (decide (k = "deletedBy")) as [->|H1]; [apply getv_insert_eq|].
    rewrite getv_insert_ne by congruence.
    destruct (decide (k = "deletedAt")) as [->|H2]; [apply getv_insert_eq|].
    rewrite getv_insert_ne by congruence.
    destruct (decide (k = "updatedAt")) as [->|H3]; [apply getv_insert_eq|].
    rewrite getv_insert_ne by congruence.
    destruct (decide (k = "createdAt")) as [->|H4]; [apply getv_insert_eq|].
    rewrite getv_insert_ne by congruence.
    destruct (decide (k = "_id")) as [->|H5]; [apply getv_insert_eq|].
    exfalso. destruct Hk as [?|[?|[?|[?|[?|Hk]]]]]; try congruence. by apply elem_of_nil in Hk.
  - apply bool_decide_eq_false in Hk. rewrite !not_elem_of_cons in Hk.
    destruct Hk as (H1 & H2 & H3 & H4 & H5 & _).
    rewrite !getv_insert_ne by congruence. apply getv_union.
Qed.

(** X16.  [clone] copies the unique fields along with the rest, so the
    clone of a live record that has a (truthy) value in a unique field
    collides with its own source: unless the override replaces that value,
    [clone] fails with UNIQUE_FIELD_ERROR and writes nothing. *)
Theorem clone_collides_with_source
  (cfg : Config) (uf : list string) (fuel : nat) (override : Doc) (field : string)
  (w : World) (i : nat) (d : Doc) (n : N) :
  beforeCreate cfg = None ->
  ids_unique (store w) -> store w !! i = Some d -> id_of d = Some n -> is_live d = true ->
  field ∈ uf ->
  field ∉ ["_id"; "createdAt"; "updatedAt"; "deletedAt"; "deletedBy"] ->
  override !! field = None ->
  truthy (getv d field) = true ->
  exists f w',
    f ∈ uf
    /\ clone MemModel cfg uf fuel (VId n) override w
       = (Returned
            (Failure
               (mkError "UNIQUE_FIELD_ERROR" ("The " +:+ f +:+ " must be unique.")
                  ["Value '" +:+ to_js_string (getv (cloneData d override) f)
                   +:+ "' is already taken for " +:+ f +:+ "."])), w')
    /\ store w' = store w.
Proof.
  intros Hb Hids Hi Hn Hlive Hin Hw Ho Ht.
  destruct (findById_mem_hit w i d n false Hids Hi Hn (fun _ => Hlive)) as (w1 & Hfind & S1).
  destruct (validateUniqueFields_mem uf (cloneData d override) None w1) as (w2 & Hv & S2 & _).
  assert (getv (cloneData d override) field = getv d field) as Hsame.
  { rewrite cloneData_fields, bool_decide_eq_false_2 by exact Hw. by rewrite Ho. }
  assert (collides field (getv (cloneData d override) field) None (store w1) = true) as Hcol.
  { rewrite Hsame. destruct S1 as (-> & _). unfold collides. apply existsb_exists.
    exists d. split; [apply list_elem_of_In; by eapply list_elem_of_lookup_2|].
    unfold field_query. rewrite matches_not_deleted_single.
    - rewrite Hlive. unfold cond_matches, value_matches.
      destruct (getv d field); try discriminate Ht; by apply bool_decide_eq_true.
    - intros ->. apply Hw. rewrite !elem_of_cons. tauto. }
  destruct (unique_rejection_some (race w1) uf (cloneData d override) None (store w1) field Hin)
    as (f & Hhead & Hf & _); [by rewrite Hsame|exact Hcol|].
  rewrite Hhead in Hv.
  exists f, w2. split; [exact Hf|]. split.
  - unfold clone, settle. unfold bind at 1.
    rewrite (try_catch_returned _ _ w w1
               (create MemModel cfg uf fuel (cloneData d override)))
      by (by rewrite (bind_returned _ _ _ _ _ Hfind)).
    unfold create.
    rewrite (try_catch_thrown _ _ w1 w2
               (UNIQUE_FIELD_ERROR f (getv (cloneData d override) f))); [reflexivity|].
    rewrite Hb. unfold executeHook at 1.
    rewrite bind_ret.
    by apply bind_thrown.
  - destruct S1 as (H1 & _), S2 as (H2 & _). congruence.
Qed.

Lemma clone_collides_with_source_witness :
  exists w',
    clone MemModel plain_config ["code"] 10 (VId 1) ∅ (world_of [code_record 1 7] 7)
    = (Returned (Failure (mkError "UNIQUE_FIELD_ERROR" "The code must be unique."
                            ["Value '7' is already taken for code."])), w').
Proof.
  destruct (clone_collides_with_source plain_config ["code"] 10 ∅ "code"
              (world_of [code_record 1 7] 7) 0 (code_record 1 7) 1)
    as (f & w' & Hf & Hc & _).
  - reflexivity.
  - split; [apply (bool_decide_unpack _); vm_compute; exact I|].
    repeat constructor. by eexists.
  - reflexivity.
  - reflexivity.
  - reflexivity.
  - apply list_elem_of_here.
  - apply (bool_decide_unpack _). vm_compute. exact I.
  - reflexivity.
  - reflexivity.
  - apply list_elem_of_singleton in Hf. subst f. exists w'. rewrite Hc.
    vm_compute. reflexivity.
Defined.

(** X17.  A [clone] that passes the checks stores a new record: the
    source with the override laid over it, under a fresh [_id], with
    [createdAt], [updatedAt], [deletedAt] and [deletedBy] reset to
    [undefined] even where the override sets them; every other field
    comes from the override when it has it, from the source otherwise.
    The source and all other records stay as they are. *)
Theorem clone_stores_overridden_copy
  (cfg : Config) (uf : list string) (fuel : nat) (override : Doc)
  (w : World) (i : nat) (d : Doc) (n : N) :
  slug_enabled cfg = false ->
  no_callbacks cfg ->
  ids_unique (store w) -> store w !! i = Some d -> id_of d = Some n -> is_live d = true ->
  offending uf (cloneData d override) None (store w) = [] ->
  let copy := <["_id" := VId (next_id w)]> (cloneData d override) in
  exists w',
    clone MemModel cfg uf fuel (VId n) override w = (Returned (Success None (PDoc copy)), w')
    /\ store w' = (store w ++ [copy])%list
    /\ is_live copy = true
    /\ (forall k, k ∈ ["createdAt"; "updatedAt"; "deletedAt"; "deletedBy"] ->
                  getv copy k = VUndef)
    /\ (forall k, k ∉ ["_id"; "createdAt"; "updatedAt"; "deletedAt"; "deletedBy"] ->
                  getv copy k = match override !! k with Some v => v | None => getv d k end).
Proof.
  intros He Hnc Hids Hi Hn Hlive Hoff copy.
  destruct (findById_mem_hit w i d n false Hids Hi Hn (fun _ => Hlive))
    as (w1 & Hfind & (Hst & Hid & _)).
  destruct (create_mem_plain cfg uf fuel (cloneData d override) w1 He Hnc)
    as (w2 & Hc & Hst2 & _); [by rewrite Hst|].
  rewrite Hid in Hc, Hst2. fold copy in Hc, Hst2.
  assert (forall k, k <> "_id" -> getv copy k = getv (cloneData d override) k) as Hk
    by (intros k Hne; unfold copy; by rewrite getv_insert_ne).
  exists w2. split; [|split; [by rewrite Hst2, Hst|split; [|split]]].
  - unfold clone, settle. unfold bind at 1.
    rewrite (try_catch_returned _ _ w w1
               (create MemModel cfg uf fuel (cloneData d override)))
      by (by rewrite (bind_returned _ _ _ _ _ Hfind)).
    exact Hc.
  - unfold is_live, is_deleted. rewrite Hk by discriminate.
    rewrite cloneData_fields. reflexivity.
  - intros k Hin. rewrite Hk.
    + rewrite cloneData_fields, bool_decide_eq_true_2; [reflexivity|].
      by apply list_elem_of_further.
    + intros ->. rewrite !elem_of_cons in Hin.
      destruct Hin as [?|[?|[?|[?|Hin]]]]; try discriminate. by apply elem_of_nil in Hin.
  - intros k Hout. rewrite Hk.
    + by rewrite cloneData_fields, bool_decide_eq_false_2.
    + intros ->. apply Hout, list_elem_of_here.
Qed.

Lemma clone_stores_overridden_copy_witness :
  exists w',
    clone MemModel plain_config [] 10 (VId 1) {[ "deletedAt" := VDate 3 ]}
      (world_of [alpha_record] 7)
    = (Returned (Success None
                   (PDoc (<["_id" := VId (next_id (world_of [alpha_record] 7))]>
                            (cloneData alpha_record {[ "deletedAt" := VDate 3 ]})))), w')
    /\ store w' = [alpha_record;
                   <["_id" := VId (next_id (world_of [alpha_record] 7))]>
                     (cloneData alpha_record {[ "deletedAt" := VDate 3 ]})].
Proof.
  destruct (clone_stores_overridden_copy plain_config [] 10 {[ "deletedAt" := VDate 3 ]}
              (world_of [alpha_record] 7) 0 alpha_record 1)
    as (w' & Hc & Hs & _).
  - reflexivity.
  - repeat split.
  - split; [apply (bool_decide_unpack _); vm_compute; exact I|].
    repeat constructor. by eexists.
  - reflexivity.
  - reflexivity.
  - reflexivity.
  - reflexivity.
  - exists w'. split; [exact Hc|exact Hs].
Defined.

(** ** [bulkCreate] and the batch operations *)

Lemma promise_all_same_data {A B} (f : A -> M B) (g : A -> B) (l : list A) (w : World) :
  (forall x w1, x ∈ l -> same_data w w1 ->
                exists w2, f x w1 = (Returned (g x), w2) /\ same_data w1 w2) ->
  exists w', promise_all f l w = (Returned (map g l), w') /\ same_data w w'.
Proof.
  intros Hf.
  assert (exists w', run_all f l w = (map Returned (map g l), w') /\ same_data w w')
    as (w' & Hr & S).
  { revert w Hf. induction l as [|x r IH]; intros w Hf.
    - exists w. split; [reflexivity|apply same_data_refl].
    - destruct (Hf x w (list_elem_of_here _ _) (same_data_refl w)) as (w1 & Hx & S1).
      destruct (IH w1) as (w2 & Hr & S2).
      { intros y w3 Hy S3. apply Hf; [by apply list_elem_of_further|].
        by eapply same_data_trans. }
      exists w2. split; [|by eapply same_data_trans].
      exact (run_all_cons _ _ _ _ _ _ _ _ Hx Hr). }
  exists w'. split; [by apply promise_all_returned|exact S].
Qed.

Lemma insertMany_mem (ds : list Doc) (ordered : bool) (w : World) :
  exists created w',
    repo_createMany MemModel ds ordered w = (Returned created, w')
    /\ store w' = (store w ++ created)%list
    /\ Forall2 (fun d c => exists n, c = <["_id" := VId n]> d) ds created
    /\ cache w' = cache w /\ clock w' = clock w.
Proof.
  unfold repo_createMany. cbn [m_insertMany MemModel]. unfold mem_insertMany.
  rewrite (bind_returned _ _ w (logged (EvInsertMany ds ordered) w) tt) by reflexivity.
  assert (store (logged (EvInsertMany ds ordered) w) = store w) as <- by reflexivity.
  assert (cache (logged (EvInsertMany ds ordered) w) = cache w) as <- by reflexivity.
  assert (clock (logged (EvInsertMany ds ordered) w) = clock w) as <- by reflexivity.
  generalize (logged (EvInsertMany ds ordered) w). clear w.
  induction ds as [|d r IH]; intros w.
  - exists [], w. rewrite app_nil_r. repeat split. constructor.
  - set (d' := <["_id" := VId (next_id w)]> d).
    set (w1 := mkWorld (store w ++ [d']) (N.succ (next_id w)) (clock w) (cache w) (trace w)
                 (race w)).
    destruct (IH w1) as (created & w2 & Hr & Hst & Hall & Hca & Hcl).
    exists (d' :: created), w2. split; [|split; [|split; [|split]]].
    + cbn [map_m].
      rewrite (bind_returned _ _ w w1 d') by reflexivity.
      rewrite (bind_returned _ _ _ _ _ Hr). reflexivity.
    + rewrite Hst. unfold w1. cbn [store]. by rewrite <- app_assoc.
    + constructor; [by exists (next_id w)|exact Hall].
    + exact Hca.
    + exact Hcl.
Qed.

Lemma for_all_no_hook (l : list Doc) (w : World) :
  promise_all (executeHook None) l w = (Returned l, w).
Proof.
  apply promise_all_returned. induction l as [|x r IH]; [reflexivity|].
  cbn [run_all map]. change (executeHook None x w) with (Returned x, w). cbv beta iota.
  by rewrite IH.
Qed.

(** X18.  [bulkCreate] prepares every document against the collection as
    it is before the insert, so documents with the same source value all
    get the same slug: with the base slug free, each created record
    carries exactly the base slug, and from two (live) documents on the
    collection holds live records with equal slugs, which successive
    [create] calls never produce. *)
Theorem bulkCreate_repeats_slug
  (cfg : Config) (uf : list string) (fuel : nat) (v : Value) (docs : list Doc)
  (ordered : option bool) (w : World) :
  slug_enabled cfg = true ->
  no_callbacks cfg ->
  slug_targetField cfg <> "_id" ->
  slug_targetField cfg <> "deletedAt" ->
  truthy v = true ->
  Forall (fun d => getv d (slug_sourceField cfg) = v
                   /\ Forall (fun f => truthy (getv d f) = false) uf) docs ->
  taken (slug_targetField cfg) (slug_generator cfg v) (store w) = false ->
  (0 < fuel)%nat ->
  exists created w',
    bulkCreate MemModel cfg uf fuel docs false ordered w
    = (Returned (Success None (PDocs created)), w')
    /\ store w' = (store w ++ created)%list
    /\ length created = length docs
    /\ Forall (fun c => getv c (slug_targetField cfg) = VStr (slug_generator cfg v)) created
    /\ ((2 <= length docs)%nat -> Forall (fun d => is_live d = true) docs ->
        ~ distinct_live (slug_targetField cfg) (store w')).
Proof.
  intros He Hnc Hid Hdel Hv Hdocs Hfree Hfuel.
  pose proof Hnc as (Hb & Ha & _).
  set (tf := slug_targetField cfg) in *. set (base := slug_generator cfg v) in *.
  set (prep := fun doc : Doc => <[tf := VStr base]> doc).
  destruct (promise_all_same_data
              (fun doc =>
                 hooked <- executeHook (beforeCreate cfg) doc ;;
                 validateUniqueFields MemModel uf hooked None ;;;
                 validated <- validateDocument cfg hooked ;;
                 generateUniqueSlug MemModel cfg fuel validated None) prep docs w)
    as (w1 & Hprep & S1).
  { intros d w0 Hd S0. eapply Forall_forall in Hdocs as [Hsrc Huf]; [|exact Hd].
    destruct (validateUniqueFields_mem uf d None w0) as (w2 & Hval & S2 & _).
    rewrite (unique_rejections_nil uf d None (store w0) Huf) in Hval.
    cbn [first_rejection] in Hval.
    assert (truthy (getv d (slug_sourceField cfg)) = true) as Ht by (by rewrite Hsrc).
    assert (generateUniqueSlug MemModel cfg fuel d None w2
            = (Returned (prep d),
               logged (EvExists (not_deleted (field_query tf (VStr base) None))) w2)) as Hg.
    { assert (slug_loop MemModel cfg fuel v None base 0 w2
              = (Returned base,
                 logged (EvExists (not_deleted (field_query tf (VStr base) None))) w2))
        as Hloop.
      { destruct fuel as [|n]; [lia|]. cbn [slug_loop]. fold tf.
        rewrite (bind_returned _ _ _ _ _ (exists_mem (field_query tf (VStr base) None) w2)).
        rewrite (taken_existsb tf base (store w2) Hdel).
        destruct S0 as (Hs0 & _), S2 as (Hs2 & _). rewrite Hs2, Hs0.
        rewrite Hfree. reflexivity. }
      unfold generateUniqueSlug. rewrite He, (truthy_has_key _ _ Ht), Ht. cbn [negb].
      rewrite Hsrc. fold base. fold tf.
      rewrite (bind_returned _ _ _ _ _ Hloop). reflexivity. }
    eexists. split.
    - rewrite Hb. unfold executeHook at 1.
      rewrite bind_ret.
      rewrite (bind_returned _ _ _ _ _ Hval).
      rewrite (bind_returned _ _ _ _ _ (validateDocument_plain cfg d w2 Hnc)).
      exact Hg.
    - eapply same_data_trans; [exact S2|apply same_data_logged]. }
  destruct (insertMany_mem (map prep docs) (default true ordered) w1)
    as (created & w2 & Hins & Hst & Hall & _).
  assert (Forall (fun c => getv c tf = VStr base) created) as Hslugs.
  { apply Forall2_fmap_l in Hall. eapply Forall2_Forall_r; [exact Hall|].
    apply Forall_forall. intros d _ c [n ->]. unfold prep, compose.
    rewrite getv_insert_ne by congruence. apply getv_insert_eq. }
  assert (length created = length docs) as Hlen.
  { apply Forall2_length in Hall. by rewrite length_map in Hall. }
  exists created, w2. split; [|split; [|split; [exact Hlen|split; [exact Hslugs|]]]].
  - unfold bulkCreate. apply try_catch_returned. cbn [negb].
    rewrite (bind_returned _ _ _ _ _ Hprep).
    rewrite (bind_returned _ _ _ _ _ Hins).
    rewrite Ha. rewrite (bind_returned _ _ _ _ _ (for_all_no_hook created w2)). reflexivity.
  - destruct S1 as (Hs1 & _). by rewrite Hst, Hs1.
  - intros H2 Hlive Hdist.
    destruct created as [|c1 [|c2 cs]]; cbn [length] in Hlen; try lia.
    destruct docs as [|d1 [|d2 ds]]; cbn [length] in H2; try lia.
    cbn [map] in Hall. apply Forall2_cons in Hall as [[n1 Hc1] Hall].
    apply Forall2_cons in Hall as [[n2 Hc2] _].
    apply Forall_cons in Hlive as [Hl1 Hlive]. apply Forall_cons in Hlive as [Hl2 _].
    apply Forall_cons in Hslugs as [Hs1 Hslugs]. apply Forall_cons in Hslugs as [Hs2 _].
    assert (length (store w1) = S (length (store w1))) as Habs; [|lia].
    apply (Hdist _ _ c1 c2 base).
    + rewrite Hst. rewrite lookup_app_r by lia. by rewrite Nat.sub_diag.
    + rewrite Hst. rewrite lookup_app_r by lia.
      by replace (S (length (store w1)) - length (store w1))%nat with 1%nat by lia.
    + rewrite Hc1. by apply created_doc_live.
    + rewrite Hc2. by apply created_doc_live.
    + exact Hs1.
    + exact Hs2.
Qed.

Lemma bulkCreate_repeats_slug_witness :
  exists c1 c2 w',
    bulkCreate MemModel slug_config [] 10 [alpha_input; alpha_input] false None empty_world
    = (Returned (Success None (PDocs [c1; c2])), w')
    /\ getv c1 "slug" = VStr "alpha" /\ getv c2 "slug" = VStr "alpha".
Proof.
  destruct (bulkCreate_repeats_slug slug_config [] 10 (VStr "Alpha")
              [alpha_input; alpha_input] None empty_world)
    as (created & w' & Hb & _ & Hlen & Hslugs & _).
  - reflexivity.
  - repeat split.
  - discriminate.
  - discriminate.
  - reflexivity.
  - repeat constructor.
  - reflexivity.
  - lia.
  - destruct created as [|c1 [|c2 [|c3 cs]]]; try discriminate Hlen.
    apply Forall_cons in Hslugs as [H1 Hslugs]. apply Forall_cons in Hslugs as [H2 _].
    exists c1, c2, w'. split; [exact Hb|]. split; [exact H1|exact H2].
Defined.

Lemma filter_partition_length {A} (P : A -> Prop) `{!forall x, Decision (P x)} (l : list A) :
  (length (filter P l) + length (filter (fun x => ~ P x) l) = length l)%nat.
Proof.
  induction l as [|x r IH]; [reflexivity|]. rewrite !filter_cons.
  destruct (decide (P x)) as [HP|HP].
  - rewrite decide_False by tauto. cbn [length]. lia.
  - rewrite decide_True by exact HP. cbn [length]. lia.
Qed.

Lemma deleteMany_hard_mem (q : Query) (w : World) :
  repo_deleteMany MemModel q false w
  = (Returned (Z.of_nat (length (filter (fun d => matches q d = true) (store w)))),
     mkWorld (filter (fun d => matches q d <> true) (store w)) (next_id w) (clock w)
       (cache w) (trace w ++ [EvDeleteMany q]) (race w)).
Proof. reflexivity. Qed.

Lemma deleteMany_all_mem (filters : list Query) (w : World) :
  exists results w',
    promise_all (fun q => repo_deleteMany MemModel q false) filters w = (Returned results, w')
    /\ store w' = filter (fun d => Forall (fun q => matches q d <> true) filters) (store w)
    /\ (forall acc, fold_left Z.add results acc
                    = acc + Z.of_nat (length (store w)) - Z.of_nat (length (store w'))).
Proof.
  assert (exists results w',
            run_all (fun q => repo_deleteMany MemModel q false) filters w
            = (map Returned results, w')
            /\ store w' = filter (fun d => Forall (fun q => matches q d <> true) filters)
                            (store w)
            /\ (forall acc, fold_left Z.add results acc
                            = acc + Z.of_nat (length (store w))
                              - Z.of_nat (length (store w'))))
    as (results & w' & Hr & Hst & Hsum).
  { revert w. induction filters as [|q r IH]; intros w.
    - exists [], w. split; [reflexivity|]. split.
      + generalize (store w). intros l. induction l as [|d l IHl]; [reflexivity|].
        rewrite filter_cons_True by constructor. by rewrite <- IHl.
      + intros acc. cbn [fold_left]. lia.
    - destruct (IH (snd (repo_deleteMany MemModel q false w)))
        as (results & w' & Hr & Hst & Hsum).
      rewrite deleteMany_hard_mem in Hr, Hst, Hsum. cbn [snd store] in Hr, Hst, Hsum.
      eexists (_ :: results), w'. split; [|split].
      + cbn [map]. eapply run_all_cons; [apply deleteMany_hard_mem|exact Hr].
      + rewrite Hst, list_filter_filter. apply list_filter_iff. intros d.
        rewrite Forall_cons. tauto.
      + intros acc. cbn [fold_left]. rewrite Hsum.
        pose proof (filter_partition_length (fun d => matches q d = true) (store w)) as Hp.
        lia. }
  exists results, w'. split; [by apply promise_all_returned|]. by split.
Qed.

(** X19.  A hard [batchDelete] (without the check before) reports what it
    removed: [deleted] is the number of records the collection lost, also
    when filters overlap, and the records left are exactly those no filter
    matches.  No [deletedAt] condition is added, so soft-deleted records
    matching a filter are removed too. *)
Theorem batchDelete_reports_removed (cfg : Config) (filters : list Query) (w : World) :
  exists w',
    batchDelete MemModel cfg filters (Some false) false w
    = (Returned
         (Success None
            (PCount "deleted" (Z.of_nat (length (store w)) - Z.of_nat (length (store w'))))),
       w')
    /\ store w' = filter (fun d => Forall (fun q => matches q d <> true) filters) (store w).
Proof.
  destruct (deleteMany_all_mem filters w) as (results & w' & Hr & Hst & Hsum).
  exists w'. split; [|exact Hst].
  unfold batchDelete. apply try_catch_returned. cbn [from_option id]. cbv beta iota.
  rewrite (bind_returned _ _ _ _ _ Hr). unfold sum_counts. rewrite Hsum. reflexivity.
Qed.

(** X20.  With [validateBeforeRestore], [batchRestore] looks for the
    records to restore through the default [findAll] of the repository,
    which turns the [deletedAt] condition into [deletedAt: null]: the
    check sees live records only.  A filter that no live record matches is
    therefore skipped, and when this holds of every filter nothing is
    restored and [restored] is 0, whatever soft-deleted records the
    filters match. *)
Theorem batchRestore_check_sees_live_records
  (cfg : Config) (filters : list Query) (w : World) :
  softDelete cfg = true ->
  Forall (fun q => Forall (fun d => matches (not_deleted q) d <> true) (store w)) filters ->
  exists w',
    batchRestore MemModel cfg filters true w
    = (Returned (Success None (PCount "restored" 0)), w')
    /\ store w' = store w.
Proof.
  intros Hs Hnone.
  destruct (promise_all_same_data
              (fun filter =>
                 docsToRestore <- repo_findAll MemModel (only_deleted filter) no_options false ;;
                 if bool_decide (docsToRestore = []) then ret 0
                 else repo_restoreMany MemModel filter)
              (fun _ => 0) filters w) as (w' & Hp & (Hst & _)).
  { intros q w1 Hq (Hs1 & _). eapply Forall_forall in Hnone; [|exact Hq].
    assert (repo_findAll MemModel (only_deleted q) no_options false w1
            = (Returned [], logged (EvFind (not_deleted q) no_options) w1)) as Hf.
    { unfold repo_findAll, effectiveQuery.
      assert (not_deleted (only_deleted q) = not_deleted q) as ->
        by (unfold not_deleted, only_deleted; apply insert_insert_eq).
      rewrite find_mem. unfold hits. rewrite Hs1, (filter_none _ _ Hnone). reflexivity. }
    eexists. split.
    - rewrite (bind_returned _ _ _ _ _ Hf). reflexivity.
    - apply same_data_logged. }
  exists w'. split; [|exact Hst].
  unfold batchRestore. rewrite Hs. cbn [negb]. apply try_catch_returned.
  rewrite (bind_returned _ _ _ _ _ Hp).
  assert (sum_counts (map (fun _ : Query => 0) filters) = 0) as ->; [|reflexivity].
  unfold sum_counts. clear. induction filters as [|q r IH]; [reflexivity|].
  cbn [map fold_left]. exact IH.
Qed.

Lemma batchRestore_check_sees_live_records_witness :
  exists w',
    batchRestore MemModel plain_config [ ({[ "name" := CEq (VStr "a") ]} : Query) ] true
      (world_of [deleted_record] 9)
    = (Returned (Success None (PCount "restored" 0)), w')
    /\ store w' = [deleted_record]
    /\ is_deleted deleted_record = true
    /\ matches {[ "name" := CEq (VStr "a") ]} deleted_record = true.
Proof.
  destruct (batchRestore_check_sees_live_records plain_config
              [ ({[ "name" := CEq (VStr "a") ]} : Query) ] (world_of [deleted_record] 9))
    as (w' & Hb & Hst).
  - reflexivity.
  - repeat constructor. vm_compute. discriminate.
  - exists w'. split; [exact Hb|]. split; [exact Hst|]. split; vm_compute; reflexivity.
Defined.

(** ** Soft delete and restore by identifier *)

Lemma getv_delete_ne (d : Doc) (k k' : string) : k <> k' -> getv (delete k d) k' = getv d k'.
Proof. intros H. unfold getv. by rewrite lookup_delete_ne. Qed.

Lemma getv_delete_eq (d : Doc) (k : string) : getv (delete k d) k = VUndef.
Proof. unfold getv. by rewrite lookup_delete_eq. Qed.

Lemma deleted_is_hidden (w : World) (i : nat) (d : Doc) (n : N) :
  ids_unique (store w) -> store w !! i = Some d -> id_of d = Some n -> is_live d = false ->
  repo_findById MemModel (VId n) false w
  = (Returned None, logged (EvFindOne (not_deleted (by_id (VId n))) no_options) w).
Proof.
  intros Hids Hi Hn Hdead. unfold repo_findById. rewrite to_ObjectId_id, bind_ret.
  rewrite findOne_engine_plain.
  change (<["deletedAt" := CEq VNull]> (by_id (VId n)))
    with (not_deleted {[ "_id" := CEq (VId n) ]}).
  rewrite filter_none; [reflexivity|].
  apply Forall_forall. intros d' Hd'. apply list_elem_of_lookup in Hd' as [j Hj].
  rewrite matches_not_deleted_single by discriminate.
  destruct (decide (j = i)) as [->|Hne].
  - assert (d' = d) as -> by congruence. by rewrite Hdead.
  - intros Hm. apply andb_true_iff in Hm as [_ Hm]. apply by_id_hit in Hm.
    by apply (other_ids _ i j d d' n Hids Hi Hn Hj).
Qed.

(** [restoreById] of the repository: both markers are removed in place. *)
Lemma restoreById_mem (w : World) (i : nat) (s : Doc) (n : N) :
  ids_unique (store w) -> store w !! i = Some s -> id_of s = Some n ->
  exists w',
    repo_restoreById MemModel (VId n) w
    = (Returned (Some (delete "deletedAt" (delete "deletedBy" s))), w')
    /\ store w' = <[i := delete "deletedAt" (delete "deletedBy" s)]> (store w)
    /\ clock w' = clock w /\ cache w' = cache w /\ next_id w' = next_id w.
Proof.
  intros Hids Hi Hn.
  destruct (findById_mem_hit w i s n true Hids Hi Hn) as (w1 & Hfind & (Hs1 & Hn1 & Hc1 & Hk1));
    [discriminate|].
  set (w2 := logged (EvFindOneAndUpdate (by_id (VId n))
                       (UUnset ["deletedAt"; "deletedBy"]) no_options) w1).
  assert (store w2 = store w) as Hs2 by (transitivity (store w1); [reflexivity|exact Hs1]).
  assert (ids_unique (store w2)) as Hids2 by (by rewrite Hs2).
  assert (store w2 !! i = Some s) as Hi2 by (by rewrite Hs2).
  pose proof (update_by_id_mem (UUnset ["deletedAt"; "deletedBy"]) no_options w2 i s n
                Hids2 Hi2 Hn) as Hres.
  change (apply_update (UUnset ["deletedAt"; "deletedBy"]) s)
    with (delete "deletedAt" (delete "deletedBy" s)) in Hres.
  exists (mkWorld (<[i := delete "deletedAt" (delete "deletedBy" s)]> (store w2)) (next_id w2)
            (clock w2) (cache w2) (trace w2) (race w2)).
  split; [|split; [|split; [|split]]].
  - unfold repo_restoreById. rewrite to_ObjectId_id, bind_ret.
    rewrite (bind_returned _ _ _ _ _ Hfind).
    unfold repo_update, effectiveQuery. cbn [m_findOneAndUpdate MemModel].
    rewrite (bind_returned _ _ w1 w2 tt) by reflexivity.
    exact Hres.
  - cbn [store]. by rewrite Hs2.
  - exact Hc1.
  - exact Hk1.
  - exact Hn1.
Qed.

Lemma stamped_record (d : Doc) (t : Z) :
  id_of (<["deletedAt" := VDate t]> d) = id_of d
  /\ is_live (<["deletedAt" := VDate t]> d) = false.
Proof.
  split.
  - unfold id_of. by rewrite getv_insert_ne.
  - unfold is_live, is_deleted. by rewrite getv_insert_eq.
Qed.

Lemma restored_record (s : Doc) :
  id_of (delete "deletedAt" (delete "deletedBy" s)) = id_of s
  /\ is_live (delete "deletedAt" (delete "deletedBy" s)) = true.
Proof.
  split.
  - unfold id_of. by rewrite !getv_delete_ne.
  - unfold is_live, is_deleted. by rewrite getv_delete_eq.
Qed.

(** X21.  Soft delete and restore by identifier in the repository, on a
    collection with unique identifiers.  [deleteById] stamps the live
    record in place and returns it; from then on the default [findById]
    does not see it; [restoreById] removes both markers in place, and the
    record is found again.  The restored record has every field of the
    original other than the two markers, and no other position of the
    collection is touched. *)
Theorem soft_delete_then_restore (w : World) (i : nat) (d : Doc) (n : N) :
  ids_unique (store w) -> store w !! i = Some d -> id_of d = Some n -> is_live d = true ->
  let stamped := <["deletedAt" := VDate (clock w)]> d in
  let restored := delete "deletedAt" (delete "deletedBy" stamped) in
  exists w1 w2 w3 w4,
    repo_deleteById MemModel (VId n) true w = (Returned (Some stamped), w1)
    /\ store w1 = <[i := stamped]> (store w)
    /\ repo_findById MemModel (VId n) false w1 = (Returned None, w2)
    /\ repo_restoreById MemModel (VId n) w2 = (Returned (Some restored), w3)
    /\ store w3 = <[i := restored]> (store w)
    /\ repo_findById MemModel (VId n) false w3 = (Returned (Some restored), w4)
    /\ is_live restored = true
    /\ (forall k, k <> "deletedAt" -> k <> "deletedBy" -> restored !! k = d !! k).
Proof.
  intros Hids Hi Hn Hlive stamped restored.
  destruct (stamped_record d (clock w)) as [Hid1 Hdead]. fold stamped in Hid1, Hdead.
  destruct (restored_record stamped) as [Hid2 Hlive2]. fold restored in Hid2, Hlive2.
  destruct (deleteById_soft_mem w i d n Hids Hi Hn) as (w1 & Hdel & Hs1 & _).
  fold stamped in Hdel, Hs1.
  assert (ids_unique (store w1)) as Hids1 by (rewrite Hs1; by eapply ids_unique_insert).
  assert (store w1 !! i = Some stamped) as Hi1.
  { rewrite Hs1. apply list_lookup_insert_eq. by eapply lookup_lt_Some. }
  pose proof (deleted_is_hidden w1 i stamped n Hids1 Hi1) as Hhid.
  set (w2 := logged (EvFindOne (not_deleted (by_id (VId n))) no_options) w1) in Hhid.
  destruct (restoreById_mem w2 i stamped n) as (w3 & Hres & Hs3 & _);
    [exact Hids1|exact Hi1|congruence|].
  fold restored in Hres, Hs3.
  assert (store w3 = <[i := restored]> (store w)) as Hs3'.
  { rewrite Hs3. change (store w2) with (store w1). rewrite Hs1.
    apply list_insert_insert_eq. }
  assert (ids_unique (store w3)) as Hids3.
  { rewrite Hs3'. eapply ids_unique_insert; [exact Hids|exact Hi|congruence]. }
  assert (store w3 !! i = Some restored) as Hi3.
  { rewrite Hs3'. apply list_lookup_insert_eq. by eapply lookup_lt_Some. }
  destruct (findById_mem_hit w3 i restored n false Hids3 Hi3) as (w4 & Hfind2 & _);
    [congruence|done|].
  exists w1, w2, w3, w4. repeat apply conj.
  - exact Hdel.
  - exact Hs1.
  - apply Hhid; [congruence|exact Hdead].
  - exact Hres.
  - exact Hs3'.
  - exact Hfind2.
  - exact Hlive2.
  - intros k Hk1 Hk2. unfold restored, stamped.
    rewrite !lookup_delete_ne by congruence. by rewrite lookup_insert_ne.
Qed.

Lemma soft_delete_then_restore_witness :
  exists w1 w2 w3,
    repo_deleteById MemModel (VId 1) true (world_of [alpha_record] 9)
    = (Returned (Some (<["deletedAt" := VDate 9]> alpha_record)), w1)
    /\ repo_findById MemModel (VId 1) false w1 = (Returned None, w2)
    /\ repo_restoreById MemModel (VId 1) w2
       = (Returned (Some (delete "deletedAt"
                            (delete "deletedBy" (<["deletedAt" := VDate 9]> alpha_record)))),
          w3).
Proof.
  destruct (soft_delete_then_restore (world_of [alpha_record] 9) 0 alpha_record 1)
    as (w1 & w2 & w3 & w4 & H1 & _ & H2 & H3 & _).
  - split; [apply (bool_decide_unpack _); vm_compute; exact I|].
    repeat constructor. by eexists.
  - reflexivity.
  - reflexivity.
  - reflexivity.
  - exists w1, w2, w3. split; [exact H1|]. split; [exact H2|exact H3].
Defined.

Lemma findById_service_hit (cfg : Config) (populate includeDeleted : bool)
  (w : World) (i : nat) (d : Doc) (n : N) :
  ids_unique (store w) -> store w !! i = Some d -> id_of d = Some n ->
  (includeDeleted = false -> is_live d = true) ->
  exists w',
    findById MemModel cfg (VId n) populate includeDeleted w
    = (Returned (Success None (PDoc d)), w')
    /\ same_data w w'.
Proof.
  intros Hids Hi Hn Hlive.
  destruct (findById_mem_hit w i d n includeDeleted Hids Hi Hn Hlive) as (w1 & Hf & S1).
  assert (exists w2, (if populate then applyPopulation MemModel cfg d else ret d) w1
                     = (Returned d, w2) /\ same_data w1 w2) as (w2 & Hp & S2).
  { destruct populate.
    - destruct (applyPopulation_mem cfg d w1) as (w2 & H & S & _). by exists w2.
    - exists w1. split; [reflexivity|apply same_data_refl]. }
  exists w2. split; [|by eapply same_data_trans].
  unfold findById. apply try_catch_returned.
  rewrite (bind_returned _ _ _ _ _ Hf). by rewrite (bind_returned _ _ _ _ _ Hp).
Qed.

(** X22.  The same life cycle through the Service, with soft delete on
    and no hooks: [deleteById] answers with the stamped record, [findById]
    then answers NOT_FOUND_ERROR, [restoreById] answers with the record
    without its markers, and [findById] finds that record again; with
    [includeDeleted] the stamped record can be read in between. *)
Theorem service_soft_delete_cycle
  (cfg : Config) (populate : bool) (w : World) (i : nat) (d : Doc) (n : N) :
  softDelete cfg = true -> no_hooks cfg ->
  ids_unique (store w) -> store w !! i = Some d -> id_of d = Some n -> is_live d = true ->
  let stamped := <["deletedAt" := VDate (clock w)]> d in
  let restored := delete "deletedAt" (delete "deletedBy" stamped) in
  exists w1 w2 w3 w4 w5,
    deleteById MemModel cfg (VId n) w = (Returned (Success None (PDoc stamped)), w1)
    /\ findById MemModel cfg (VId n) populate false w1
       = (Returned (Failure (mkError "NOT_FOUND_ERROR"
                               "The requested document was not found." [])), w2)
    /\ findById MemModel cfg (VId n) populate true w2
       = (Returned (Success None (PDoc stamped)), w3)
    /\ restoreById MemModel cfg (VId n) w3 = (Returned (Success None (PDoc restored)), w4)
    /\ findById MemModel cfg (VId n) populate false w4
       = (Returned (Success None (PDoc restored)), w5)
    /\ store w5 = <[i := restored]> (store w).
Proof.
  intros Hsoft (Hnc & _ & _ & Hbd & Had) Hids Hi Hn Hlive stamped restored.
  destruct (stamped_record d (clock w)) as [Hid1 Hdead]. fold stamped in Hid1, Hdead.
  destruct (restored_record stamped) as [Hid2 Hlive2]. fold restored in Hid2, Hlive2.
  destruct (findById_mem_hit w i d n false Hids Hi Hn (fun _ => Hlive))
    as (wa & Hfa & (Hsa & _ & Hca & _)).
  destruct (deleteById_soft_mem wa i d n) as (wb & Hdel & Hsb & _);
    [by rewrite Hsa|by rewrite Hsa|exact Hn|].
  rewrite Hca in Hdel, Hsb. fold stamped in Hdel, Hsb. rewrite Hsa in Hsb.
  destruct (populate_step_mem cfg stamped wb) as (w1 & Hpop & (Hs1 & _)).
  rewrite Hsb in Hs1.
  assert (ids_unique (store w1)) as Hids1 by (rewrite Hs1; by eapply ids_unique_insert).
  assert (store w1 !! i = Some stamped) as Hi1.
  { rewrite Hs1. apply list_lookup_insert_eq. by eapply lookup_lt_Some. }
  pose proof (deleted_is_hidden w1 i stamped n Hids1 Hi1) as Hhid.
  set (w2 := logged (EvFindOne (not_deleted (by_id (VId n))) no_options) w1) in Hhid.
  destruct (findById_service_hit cfg populate true w2 i stamped n) as (w3 & Hread & (Hs3 & _));
    [exact Hids1|exact Hi1|congruence|discriminate|].
  change (store w2) with (store w1) in Hs3.
  destruct (restoreById_mem w3 i stamped n) as (wc & Hres & Hsc & _);
    [by rewrite Hs3|by rewrite Hs3|congruence|].
  fold restored in Hres, Hsc.
  destruct (populate_step_mem cfg restored wc) as (w4 & Hpop2 & (Hs4 & _)).
  assert (store w4 = <[i := restored]> (store w)) as Hs4'.
  { rewrite Hs4, Hsc, Hs3, Hs1. apply list_insert_insert_eq. }
  destruct (findById_service_hit cfg populate false w4 i restored n) as (w5 & Hlast & (Hs5 & _)).
  { rewrite Hs4'. eapply ids_unique_insert; [exact Hids|exact Hi|congruence]. }
  { rewrite Hs4'. apply list_lookup_insert_eq. by eapply lookup_lt_Some. }
  { congruence. }
  { done. }
  exists w1, w2, w3, w4, w5. repeat apply conj.
  - unfold deleteById. apply try_catch_returned.
    rewrite (bind_returned _ _ _ _ _ Hfa). rewrite Hbd, Had, Hsoft. unfold executeHook.
    rewrite bind_ret.
    rewrite (bind_returned _ _ _ _ _ Hdel).
    rewrite bind_ret.
    by rewrite (bind_returned _ _ _ _ _ Hpop).
  - unfold findById.
    rewrite (try_catch_thrown _ _ w1 w2 (NOT_FOUND "The requested document was not found."));
      [reflexivity|].
    rewrite (bind_returned _ _ w1 w2 None); [reflexivity|].
    apply Hhid; [congruence|exact Hdead].
  - exact Hread.
  - unfold restoreById. rewrite Hsoft. cbn [negb]. apply try_catch_returned.
    rewrite (bind_returned _ _ _ _ _ Hres). by rewrite (bind_returned _ _ _ _ _ Hpop2).
  - exact Hlast.
  - by rewrite Hs5.
Qed.

Lemma service_soft_delete_cycle_witness :
  exists w1 w2,
    deleteById MemModel plain_config (VId 1) (world_of [alpha_record] 9)
    = (Returned (Success None (PDoc (<["deletedAt" := VDate 9]> alpha_record))), w1)
    /\ findById MemModel plain_config (VId 1) false false w1
       = (Returned (Failure (mkError "NOT_FOUND_ERROR"
                               "The requested document was not found." [])), w2).
Proof.
  destruct (service_soft_delete_cycle plain_config false (world_of [alpha_record] 9) 0
              alpha_record 1) as (w1 & w2 & _ & _ & _ & H1 & H2 & _).
  - reflexivity.
  - repeat split.
  - split; [apply (bool_decide_unpack _); vm_compute; exact I|].
    repeat constructor. by eexists.
  - reflexivity.
  - reflexivity.
  - reflexivity.
  - exists w1, w2. split; [exact H1|exact H2].
Defined.

(** ** [create] and the identifiers *)

(** X23.  [create] followed by [findById], without slug, hooks and
    validators, when no unique field collides and the input brings no
    [_id] of its own.  On a collection whose identifiers are unique and
    below the engine's next identifier, the created record is the input
    under the next identifier (without its [_id] it is the input),
    [findById] under that identifier answers with exactly that record, and
    the collection is again numbered that way, so the same holds of the
    next [create]. *)
Theorem create_then_findById
  (cfg : Config) (uf : list string) (fuel : nat) (input : Doc) (populate : bool) (w : World) :
  slug_enabled cfg = false ->
  no_callbacks cfg ->
  offending uf input None (store w) = [] ->
  input !! "_id" = None ->
  is_live input = true ->
  well_numbered w ->
  let d := <["_id" := VId (next_id w)]> input in
  exists w1 w2,
    create MemModel cfg uf fuel input w = (Returned (Success None (PDoc d)), w1)
    /\ findById MemModel cfg (VId (next_id w)) populate false w1
       = (Returned (Success None (PDoc d)), w2)
    /\ store w2 = (store w ++ [d])%list
    /\ well_numbered w1
    /\ delete "_id" d = input.
Proof.
  intros He Hnc Hoff Hnoid Hlive [[Hnd Hsome] Hbelow] d.
  destruct (create_mem_plain cfg uf fuel input w He Hnc Hoff) as (w1 & Hc & Hs1 & Hn1).
  fold d in Hc, Hs1.
  assert (id_of d = Some (next_id w)) as Hid by (unfold id_of, d; by rewrite getv_insert_eq).
  assert (is_live d = true) as Hld.
  { unfold is_live, is_deleted, d. rewrite getv_insert_ne by discriminate. exact Hlive. }
  assert (well_numbered w1) as Hwn.
  { unfold well_numbered, ids_unique. rewrite Hs1, Hn1. repeat split.
    - rewrite map_app. apply NoDup_app. split; [exact Hnd|]. split.
      + intros x Hx Hx'. cbn [map] in Hx'. apply list_elem_of_singleton in Hx'. subst x.
        change (map id_of (store w)) with (id_of <$> store w) in Hx.
        apply list_elem_of_fmap in Hx as (d' & Hd' & Hin).
        eapply Forall_forall in Hbelow as (m & Hm & Hlt); [|exact Hin].
        rewrite Hid, Hm in Hd'. injection Hd' as Hd'. lia.
      + cbn [map]. apply NoDup_singleton.
    - apply Forall_app. split; [exact Hsome|]. constructor; [by rewrite Hid|constructor].
    - apply Forall_app. split.
      + eapply Forall_impl; [exact Hbelow|]. intros d' (m & Hm & Hlt). exists m. split; [exact Hm|lia].
      + constructor; [|constructor]. exists (next_id w). split; [exact Hid|lia]. }
  destruct (findById_service_hit cfg populate false w1 (length (store w)) d (next_id w))
    as (w2 & Hf & (Hs2 & _)).
  - exact (proj1 Hwn).
  - rewrite Hs1, lookup_app_r by lia. by rewrite Nat.sub_diag.
  - exact Hid.
  - intros _. exact Hld.
  - exists w1, w2. split; [exact Hc|]. split; [exact Hf|]. split; [by rewrite Hs2|].
    split; [exact Hwn|]. unfold d. by apply delete_insert_id.
Qed.

Lemma create_then_findById_witness :
  exists d w1 w2,
    create MemModel plain_config [] 10 alpha_input empty_world
    = (Returned (Success None (PDoc d)), w1)
    /\ findById MemModel plain_config (getv d "_id") false false w1
       = (Returned (Success None (PDoc d)), w2).
Proof.
  destruct (create_then_findById plain_config [] 10 alpha_input false empty_world)
    as (w1 & w2 & Hc & Hf & _).
  - reflexivity.
  - repeat split.
  - reflexivity.
  - reflexivity.
  - reflexivity.
  - split; [split|]; cbn [store empty_world map]; constructor.
  - eexists _, w1, w2. split; [exact Hc|]. rewrite getv_insert_eq. exact Hf.
Defined.

(** ** [updateById] and [delete] of the Service *)

(** X24.  [updateById] without hooks, on a live record whose new values
    collide with no other record, the input leaving [_id] alone: the
    stored record is replaced in place by the input laid over it, so a
    field the input has takes the input's value and every other field
    keeps its own; the record keeps its identifier, identifiers stay
    unique, the envelope carries the new record and no other position of
    the collection changes. *)
Theorem updateById_merges_in_place
  (cfg : Config) (uf : list string) (input : Doc) (w : World) (i : nat) (d : Doc) (n : N) :
  no_hooks cfg ->
  ids_unique (store w) -> store w !! i = Some d -> id_of d = Some n -> is_live d = true ->
  input !! "_id" = None ->
  offending uf input (Some (VId n)) (store w) = [] ->
  exists w',
    updateById MemModel cfg uf (VId n) (UFields input) w
    = (Returned (Success None (PDoc (input ∪ d))), w')
    /\ store w' = <[i := input ∪ d]> (store w)
    /\ (forall k, getv (input ∪ d) k
                  = match input !! k with Some v => v | None => getv d k end)
    /\ (forall j, j <> i -> store w' !! j = store w !! j)
    /\ id_of (input ∪ d) = Some n
    /\ ids_unique (store w').
Proof.
  intros (Hnc & Hbu & Hau & _) Hids Hi Hn Hlive Hnoid Hoff.
  assert (id_of (input ∪ d) = Some n) as Hkeep
    by (unfold id_of; rewrite getv_union, Hnoid; exact Hn).
  destruct (findById_mem_hit w i d n false Hids Hi Hn (fun _ => Hlive))
    as (w1 & Hf & S1).
  pose proof (id_matches d n Hn) as Hgid.
  destruct (validateUniqueFields_mem uf input (Some (VId n)) w1) as (w2 & Hv & S2 & _).
  unfold unique_rejections in Hv. rewrite (proj1 S1), Hoff in Hv.
  cbn [map first_rejection] in Hv.
  pose proof (same_data_trans _ _ _ S1 S2) as (Hs2 & _).
  set (w3 := logged (EvFindByIdAndUpdate (VId n) (UFields input) no_options) w2).
  assert (ids_unique (store w3)) as Hids3 by (change (store w3) with (store w2); by rewrite Hs2).
  assert (store w3 !! i = Some d) as Hi3 by (change (store w3) with (store w2); by rewrite Hs2).
  pose proof (update_by_id_mem (UFields input) no_options w3 i d n Hids3 Hi3 Hn) as Hup.
  change (apply_update (UFields input) d) with (input ∪ d) in Hup.
  set (w4 := mkWorld (<[i := input ∪ d]> (store w3)) (next_id w3) (clock w3) (cache w3)
               (trace w3) (race w3)) in Hup.
  destruct (populate_step_mem cfg (input ∪ d) w4) as (w5 & Hpop & (Hs5 & _)).
  assert (store w5 = <[i := input ∪ d]> (store w)) as Hst.
  { rewrite Hs5. unfold w4. cbn [store]. change (store w3) with (store w2). by rewrite Hs2. }
  exists w5. split; [|split; [exact Hst|split; [|split; [|split]]]].
  - unfold updateById. apply try_catch_returned.
    rewrite (bind_returned _ _ _ _ _ Hf). cbv beta iota. rewrite Hbu, Hau.
    unfold executeHook2, executeHook.
    rewrite bind_ret. cbv zeta. cbn [fst snd fields_of]. rewrite Hgid.
    rewrite (bind_returned _ _ _ _ _ Hv).
    rewrite (bind_returned _ _ _ _ _ (validateDocument_plain cfg input w2 Hnc)).
    cbn [with_fields].
    assert (repo_updateById MemModel (VId n) (UFields input) no_options w2
            = (Returned (Some (input ∪ d)), w4)) as Hrepo.
    { unfold repo_updateById. rewrite to_ObjectId_id, bind_ret.
      cbn [m_findByIdAndUpdate MemModel].
      rewrite (bind_returned _ _ w2 w3 tt) by reflexivity. exact Hup. }
    rewrite (bind_returned _ _ _ _ _ Hrepo).
    rewrite bind_ret.
    by rewrite (bind_returned _ _ _ _ _ Hpop).
  - intros k. apply getv_union.
  - intros j Hj. rewrite Hst. by apply list_lookup_insert_ne.
  - exact Hkeep.
  - rewrite Hst. eapply ids_unique_insert; [exact Hids|exact Hi|congruence].
Qed.

Lemma updateById_merges_in_place_witness :
  exists w',
    updateById MemModel plain_config [] (VId 1) (UFields {[ "name" := VStr "Beta" ]})
      (world_of [alpha_record] 9)
    = (Returned (Success None (PDoc ({[ "name" := VStr "Beta" ]} ∪ alpha_record))), w')
    /\ store w' = [ {[ "name" := VStr "Beta" ]} ∪ alpha_record ].
Proof.
  destruct (updateById_merges_in_place plain_config [] {[ "name" := VStr "Beta" ]}
              (world_of [alpha_record] 9) 0 alpha_record 1) as (w' & Hu & Hs & _).
  - repeat split.
  - split; [apply (bool_decide_unpack _); vm_compute; exact I|].
    repeat constructor. by eexists.
  - reflexivity.
  - reflexivity.
  - reflexivity.
  - reflexivity.
  - reflexivity.
  - exists w'. split; [exact Hu|exact Hs].
Defined.

Lemma matches_not_deleted_intro (q : Query) (d : Doc) :
  matches q d = true -> is_live d = true -> matches (not_deleted q) d = true.
Proof.
  unfold matches, not_deleted. rewrite !bool_decide_eq_true. intros Hq Hl.
  apply map_Forall_insert_2; [|exact Hq].
  unfold cond_matches. unfold is_live, is_deleted in Hl. by rewrite negb_involutive in Hl.
Qed.

Lemma head_filter_some {A} (P : A -> Prop) `{!forall x, Decision (P x)} (l : list A) (x : A) :
  x ∈ l -> P x -> exists y, head (filter P l) = Some y.
Proof.
  intros Hin HP. assert (x ∈ filter P l) as Hx by (by apply list_elem_of_filter).
  destruct (filter P l) as [|y r]; [by apply elem_of_nil in Hx|]. by exists y.
Qed.

Lemma remove_first_hit (q : Query) (l : list Doc) (i : nat) (d : Doc) :
  l !! i = Some d -> matches q d = true ->
  (forall (j : nat) (d' : Doc), (j < i)%nat -> l !! j = Some d' -> matches q d' = false) ->
  remove_first q l = (Some d, delete i l).
Proof.
  revert i. induction l as [|x r IH]; intros i Hi Hm Hbefore; [discriminate Hi|].
  destruct i as [|i]; cbn [remove_first].
  - injection Hi as ->. by rewrite Hm.
  - rewrite (Hbefore 0%nat x); [|lia|reflexivity].
    rewrite (IH i); [reflexivity|exact Hi|exact Hm|].
    intros j d' Hj Hd'. apply (Hbefore (S j)); [lia|exact Hd'].
Qed.

(** X25.  [delete] of the Service, without hooks.  The record acted on is
    the first one the query matches, whatever its [deletedAt], because
    the repository's [delete] adds no [deletedAt] condition.  When that
    first match is live, a soft delete stamps it in place with the time of
    the call and a hard delete removes it from the collection; the
    envelope carries the stamped, respectively the removed, record. *)
Theorem delete_acts_on_first_match
  (cfg : Config) (q : Query) (w : World) (i : nat) (d : Doc) :
  no_hooks cfg ->
  store w !! i = Some d -> matches q d = true -> is_live d = true ->
  (forall (j : nat) (d' : Doc), (j < i)%nat -> store w !! j = Some d' -> matches q d' = false) ->
  exists w',
    (if softDelete cfg then
       delete_ MemModel cfg q w
       = (Returned (Success None (PDoc (<["deletedAt" := VDate (clock w)]> d))), w')
       /\ store w' = <[i := <["deletedAt" := VDate (clock w)]> d]> (store w)
     else
       delete_ MemModel cfg q w = (Returned (Success None (PDoc d)), w')
       /\ store w' = delete i (store w)).
Proof.
  intros (Hnc & _ & _ & Hbd & Had) Hi Hm Hlive Hbefore.
  assert (exists d0, repo_findOne MemModel q no_options false w
                     = (Returned (Some d0), logged (EvFindOne (not_deleted q) no_options) w))
    as (d0 & Hf).
  { unfold repo_findOne, effectiveQuery. rewrite findOne_engine_plain.
    destruct (head_filter_some (fun d => matches (not_deleted q) d = true) (store w) d)
      as (d0 & ->); [by eapply list_elem_of_lookup_2|by apply matches_not_deleted_intro|].
    by exists d0. }
  set (w1 := logged (EvFindOne (not_deleted q) no_options) w) in Hf.
  destruct (softDelete cfg) eqn:Hsoft.
  - destruct (repo_delete_soft_reaches q no_options w1 i d eq_refl Hi Hm Hbefore)
      as (w2 & Hdel & Hs2).
    assert (apply_update (set_deletedAt (clock w)) d = <["deletedAt" := VDate (clock w)]> d)
      as Hst by (unfold apply_update, set_deletedAt; by rewrite insert_union_singleton_l).
    change (clock w1) with (clock w) in Hdel, Hs2. change (store w1) with (store w) in Hs2.
    rewrite Hst in Hdel, Hs2.
    destruct (populate_step_mem cfg (<["deletedAt" := VDate (clock w)]> d) w2)
      as (w3 & Hpop & (Hs3 & _)).
    exists w3. split; [|by rewrite Hs3].
    unfold delete_. apply try_catch_returned.
    rewrite (bind_returned _ _ _ _ _ Hf). rewrite Hbd, Had, Hsoft. unfold executeHook.
    rewrite bind_ret.
    rewrite (bind_returned _ _ _ _ _ Hdel).
    rewrite bind_ret.
    by rewrite (bind_returned _ _ _ _ _ Hpop).
  - set (w2 := logged (EvFindOneAndDelete q no_options) w1).
    assert (repo_delete MemModel q no_options false w1
            = (Returned (Some d),
               mkWorld (delete i (store w)) (next_id w2) (clock w2) (cache w2) (trace w2)
                 (race w2)))
      as Hdel.
    { unfold repo_delete. cbn [m_findOneAndDelete MemModel].
      rewrite (bind_returned _ _ w1 w2 tt) by reflexivity.
      unfold mem_findOneAndDelete. unfold bind at 1. unfold get_store at 1. cbv beta iota.
      cbn [opt_sort no_options]. change (store w2) with (store w).
      rewrite (remove_first_hit q (store w) i d Hi Hm Hbefore). reflexivity. }
    destruct (populate_step_mem cfg d
                (mkWorld (delete i (store w)) (next_id w2) (clock w2) (cache w2) (trace w2)
                   (race w2)))
      as (w3 & Hpop & (Hs3 & _)).
    exists w3. split; [|by rewrite Hs3].
    unfold delete_. apply try_catch_returned.
    rewrite (bind_returned _ _ _ _ _ Hf). rewrite Hbd, Had, Hsoft. unfold executeHook.
    rewrite bind_ret.
    rewrite (bind_returned _ _ _ _ _ Hdel).
    rewrite bind_ret.
    by rewrite (bind_returned _ _ _ _ _ Hpop).
Qed.

Lemma delete_acts_on_first_match_witness :
  exists w',
    delete_ MemModel plain_config {[ "name" := CEq (VStr "Alpha") ]}
      (world_of [alpha_record] 9)
    = (Returned (Success None (PDoc (<["deletedAt" := VDate 9]> alpha_record))), w')
    /\ store w' = [ <["deletedAt" := VDate 9]> alpha_record ].
Proof.
  destruct (delete_acts_on_first_match plain_config {[ "name" := CEq (VStr "Alpha") ]}
              (world_of [alpha_record] 9) 0 alpha_record) as (w' & H).
  - repeat split.
  - reflexivity.
  - vm_compute. reflexivity.
  - reflexivity.
  - intros j d' Hj. lia.
  - exists w'. exact H.
Defined.
